(** * yt-digest: the daily content pipeline, its repositories and helpers

    A shallow embedding of the Python sources

      - [util/fmt_parser.py]      ([FmtParser])
      - [lib/region.py]           ([RegionCatalog])
      - [lib/keywords/base.py], [lib/keywords/google_trends.py] ([Fetchers])
      - [db/base.py], [db/keywords.py], [db/videos.py],
        [db/transcripts.py], [db/articles.py]   ([DB])
      - [workflow/daily.py]       ([Workflow])

    together with the properties of the pipeline that the specification
    states about them.

    Conventions of the embedding.
      - Python text is a Rocq [string] of 8-bit characters.  [upper],
        [strip] and [int] act on ASCII, which is all that region codes,
        duration strings and decimal numbers contain.
      - Python values are the inductive [pyval]; floating point numbers are
        not part of it.  Integers are unbounded, and their conversion from
        and to decimal text is total: the limit that an interpreter may put
        on the number of digits is not modelled.
      - A raised exception is the [Raise] case of [result]; only the class
        of an exception is kept, not its message.
      - Stateful code is a function [world -> result A * world]: an
        exception does not undo what was written before it was raised.
      - [datetime.now()] and [datetime.utcnow()] read a clock oracle; every
        read advances the index of the next reading.  Readings have the
        millisecond precision at which the document store keeps dates.
      - The document store is a map from identifiers to documents for each
        collection.  The driver either raises (an oracle says when: the
        store cannot be reached, a document is refused) or performs the
        request.
      - The collaborators (fetchers, search, download, transcription) are
        oracles that return a value or raise. *)

From Stdlib Require Import ZArith NArith Ascii String List Lia Bool ZifyBool.
From Stdlib Require Import Sorted.
From stdpp Require Import base option list gmap strings pretty.

#[local] Set Warnings "-register-all".

Local Open Scope Z_scope.
Local Open Scope string_scope.

(** ** The Python runtime: exceptions, text, values *)

Module Py.

(** Exception classes that the sources raise or catch.  [OtherError] stands
    for any other subclass of [Exception] (an HTTP error of a collaborator,
    [RuntimeError], [FileNotFoundError], ...), named by a tag. *)
Inductive exn : Type :=
| ValueError
| TypeError
| KeyError
| AttributeError
| InvalidId                 (* bson.errors.InvalidId *)
| OtherError (tag : string).

Inductive result (A : Type) : Type :=
| Ok (a : A)
| Raise (e : exn).
Arguments Ok {A} a.
Arguments Raise {A} e.

Definition rbind {A B} (m : result A) (k : A -> result B) : result B :=
  match m with
  | Ok a => k a
  | Raise e => Raise e
  end.

Definition is_ok {A} (m : result A) : bool :=
  match m with Ok _ => true | Raise _ => false end.

Declare Scope py_scope.
Delimit Scope py_scope with py.
Notation "'let?' x ':=' m 'in' k" := (rbind m (fun x => k))
  (at level 10, x binder, m at level 100, k at level 200,
   only parsing) : py_scope.
Notation "'let?' ''' x ':=' m 'in' k" := (rbind m (fun x => k))
  (at level 10, x strict pattern, m at level 100, k at level 200,
   only parsing) : py_scope.
Local Open Scope py_scope.

(** *** Text *)

Definition text := list ascii.

Definition chars (s : string) : text := list_ascii_of_string s.
Definition str_of (t : text) : string := string_of_list_ascii t.

Definition code (c : ascii) : N := N_of_ascii c.

(** The ASCII characters for which [str.isspace] holds. *)
Definition is_space (c : ascii) : bool :=
  let n := code c in
  ((9 <=? n) && (n <=? 13) || (28 <=? n) && (n <=? 32))%N.

Definition is_digit (c : ascii) : bool :=
  let n := code c in ((48 <=? n) && (n <=? 57))%N.

Definition digit_val (c : ascii) : Z := Z.of_N (code c) - 48.

Definition upper_char (c : ascii) : ascii :=
  let n := code c in
  if ((97 <=? n) && (n <=? 122))%N then ascii_of_N (n - 32) else c.

(** [s.upper()] *)
Definition upper (s : string) : string := str_of (map upper_char (chars s)).

Fixpoint lstrip (t : text) : text :=
  match t with
  | c :: r => if is_space c then lstrip r else t
  | [] => []
  end.

Definition rstrip (t : text) : text := rev (lstrip (rev t)).

(** [s.strip()] *)
Definition strip_text (t : text) : text := rstrip (lstrip t).
Definition strip (s : string) : string := str_of (strip_text (chars s)).

Fixpoint starts_with (p t : text) : bool :=
  match p, t with
  | [], _ => true
  | a :: p', b :: t' => Ascii.eqb a b && starts_with p' t'
  | _ :: _, [] => false
  end.

(** [s.replace(old, new)] for a non-empty [old]: occurrences are replaced
    from left to right without overlap.  [skip] counts the characters of a
    matched occurrence that are still to be passed over. *)
Fixpoint replace_from (old new : text) (skip : nat) (t : text) : text :=
  match t with
  | [] => []
  | c :: r =>
      match skip with
      | S k => replace_from old new k r
      | O =>
          if starts_with old t
          then (new ++ replace_from old new (Nat.pred (length old)) r)%list
          else c :: replace_from old new O r
      end
  end.

Definition replace (old new s : string) : string :=
  str_of (replace_from (chars old) (chars new) O (chars s)).

(** [c in s] for a one-character needle. *)
Definition contains (c : ascii) (t : text) : bool := existsb (Ascii.eqb c) t.

(** [s.split(sep)] for a one-character separator. *)
Fixpoint split (sep : ascii) (t : text) : list text :=
  match t with
  | [] => [[]]
  | c :: r =>
      if Ascii.eqb c sep then [] :: split sep r
      else match split sep r with
           | p :: ps => (c :: p) :: ps
           | [] => [[c]]
           end
  end.

(** [a, b = parts]: unpacking into two names needs exactly two parts. *)
Definition unpack2 {A} (parts : list A) : result (A * A) :=
  match parts with
  | [a; b] => Ok (a, b)
  | _ => Raise ValueError
  end.

(** [int(s)] on text, base ten: surrounding white space is ignored, one sign
    is allowed, and the digits may be grouped by single underscores.
    [digits_after acc t] reads what follows a digit. *)
Fixpoint digits_after (acc : Z) (t : text) : option Z :=
  match t with
  | [] => Some acc
  | c :: r =>
      if is_digit c then digits_after (10 * acc + digit_val c) r
      else if Ascii.eqb c "_"%char then
        match r with
        | d :: r' =>
            if is_digit d then digits_after (10 * acc + digit_val d) r'
            else None
        | [] => None
        end
      else None
  end.

Definition unsigned_of_text (t : text) : option Z :=
  match t with
  | c :: r => if is_digit c then digits_after (digit_val c) r else None
  | [] => None
  end.

Definition int_of_text (t : text) : result Z :=
  let body := strip_text t in
  let parsed :=
    match body with
    | c :: r =>
        if Ascii.eqb c "-" then Z.opp <$> unsigned_of_text r
        else if Ascii.eqb c "+" then unsigned_of_text r
        else unsigned_of_text body
    | [] => unsigned_of_text body
    end in
  match parsed with
  | Some z => Ok z
  | None => Raise ValueError
  end.



(** [p in t] on text: [p] occurs in [t]. *)
Fixpoint has_substring (p t : text) : bool :=
  starts_with p t
  || match t with
     | [] => false
     | _ :: r => has_substring p r
     end.

(** [sep.join(parts)] *)
Fixpoint join (sep : string) (parts : list string) : string :=
  match parts with
  | [] => ""
  | [p] => p
  | p :: r => p +:+ sep +:+ join sep r
  end.

End Py.

Import Py.
Local Open Scope py_scope.

(** ** [util/fmt_parser.py] *)

Module FmtParser.

(** One of the three blocks of [parse_duration]:
    [if 'H' in duration: hours, duration = duration.split('H');
     seconds += int(hours) * 3600]. *)
Definition take_unit (unit : ascii) (factor : Z) (st : Z * text)
  : result (Z * text) :=
  let '(seconds, duration) := st in
  if contains unit duration then
    let? '(amount, rest) := unpack2 (split unit duration) in
    let? n := int_of_text amount in
    Ok (seconds + n * factor, rest)
  else Ok (seconds, duration).

Definition parse_duration (duration : string) : result Z :=
  let duration := chars (replace "PT" "" duration) in
  let seconds := 0 in
  let? st := take_unit "H" 3600 (seconds, duration) in
  let? st := take_unit "M" 60 st in
  let? '(seconds, _) := take_unit "S" 1 st in
  Ok seconds.

End FmtParser.

(** ** [lib/region.py] *)

Module RegionCatalog.

Inductive Region : Type :=
| TAIWAN | HONG_KONG | JAPAN | KOREA | USA | SINGAPORE | GLOBAL.

(** [region.value], which is also [str(region)]. *)
Definition value (r : Region) : string :=
  match r with
  | TAIWAN => "TW"
  | HONG_KONG => "HK"
  | JAPAN => "JP"
  | KOREA => "KR"
  | USA => "US"
  | SINGAPORE => "SG"
  | GLOBAL => "GLOBAL"
  end.

(** The members in definition order, as iterating over the class yields
    them. *)
Definition members : list Region :=
  [TAIWAN; HONG_KONG; JAPAN; KOREA; USA; SINGAPORE; GLOBAL].

(** [cls(v)]: the member whose value is [v]; [ValueError] when there is
    none. *)
Definition of_value (v : string) : result Region :=
  match List.find (fun r => String.eqb (value r) v) members with
  | Some r => Ok r
  | None => Raise ValueError
  end.

(** [Region.from_code]: [try: return cls(code.upper())
    except ValueError: return None]. *)
Definition from_code (code : string) : result (option Region) :=
  match of_value (upper code) with
  | Ok r => Ok (Some r)
  | Raise ValueError => Ok None
  | Raise e => Raise e
  end.

(** [Region.is_valid_code] *)
Definition is_valid_code (code : string) : bool :=
  existsb (String.eqb (upper code)) (map value members).

(** [dict.get(key, default)] on the platform tables. *)
Definition table_get {A} (tbl : list (string * A)) (key : string) (default : A)
  : A :=
  match List.find (fun kv => String.eqb (fst kv) key) tbl with
  | Some kv => snd kv
  | None => default
  end.

Definition TWITTER_WOEID : list (string * Z) :=
  [("TW", 23424971); ("HK", 24865698); ("JP", 23424856); ("KR", 23424868);
   ("US", 23424977); ("SG", 23424948); ("GLOBAL", 1)].

Definition GOOGLE_TRENDS_CODE : list (string * string) :=
  [("TW", "TW"); ("HK", "HK"); ("JP", "JP"); ("KR", "KR"); ("US", "US");
   ("SG", "SG"); ("GLOBAL", "WORLDWIDE")].

Definition YOUTUBE_REGION_CODE : list (string * option string) :=
  [("TW", Some "TW"); ("HK", Some "HK"); ("JP", Some "JP");
   ("KR", Some "KR"); ("US", Some "US"); ("SG", Some "SG");
   ("GLOBAL", None)].

Definition get_twitter_woeid (r : Region) : Z :=
  table_get TWITTER_WOEID (value r) 1.

Definition get_google_code (r : Region) : string :=
  table_get GOOGLE_TRENDS_CODE (value r) "WORLDWIDE".

Definition get_youtube_code (r : Region) : option string :=
  table_get YOUTUBE_REGION_CODE (value r) None.

(** [d[key] = v] on a table. *)
Fixpoint table_set {A} (tbl : list (string * A)) (key : string) (v : A)
  : list (string * A) :=
  match tbl with
  | [] => [(key, v)]
  | (k, x) :: r =>
      if String.eqb k key then (k, v) :: r else (k, x) :: table_set r key v
  end.

(** [Region.get_supported_regions]:
    [{region.value: region for region in cls}]. *)
Definition get_supported_regions : list (string * Region) :=
  fold_left (fun d region => table_set d (value region) region) members [].

End RegionCatalog.

Import RegionCatalog.

(** ** Python values and [bson.ObjectId] *)

Module Values.

(** An [ObjectId] is its twelve bytes read as one number. *)
Definition oid := N.

Inductive pyval : Type :=
| VNone
| VBool (b : bool)
| VInt (z : Z)
| VStr (s : string)
| VDate (t : Z)                        (* datetime, in milliseconds *)
| VOid (o : oid)                       (* bson.ObjectId *)
| VRegion (r : Region)                 (* a member of lib.region.Region *)
| VList (l : list pyval)
| VDict (d : list (string * pyval)).   (* a dict with text keys *)

Definition pydict := list (string * pyval).

(** [d.get(key)]: the first binding of [key]. *)
Definition dict_get (d : pydict) (key : string) : option pyval :=
  snd <$> List.find (fun kv => String.eqb (fst kv) key) d.

(** [d[key]] *)
Definition subscript (d : pydict) (key : string) : result pyval :=
  match dict_get d key with
  | Some v => Ok v
  | None => Raise KeyError
  end.

(** [d[key] = v] *)
Fixpoint dict_set (d : pydict) (key : string) (v : pyval) : pydict :=
  match d with
  | [] => [(key, v)]
  | (k, x) :: r =>
      if String.eqb k key then (k, v) :: r else (k, x) :: dict_set r key v
  end.

(** Truth value of an object, as [not x], [x or y] and [if x] test it. *)
Definition truthy (v : pyval) : bool :=
  match v with
  | VNone => false
  | VBool b => b
  | VInt z => negb (z =? 0)%Z
  | VStr s => negb (String.eqb s "")
  | VList l => match l with [] => false | _ => true end
  | VDict d => match d with [] => false | _ => true end
  | VDate _ | VOid _ | VRegion _ => true
  end.

Definition isinstance_str (v : pyval) : bool :=
  match v with VStr _ => true | _ => false end.

(** [bool] is a subclass of [int]. *)
Definition isinstance_int (v : pyval) : bool :=
  match v with VInt _ | VBool _ => true | _ => false end.

Definition isinstance_bool (v : pyval) : bool :=
  match v with VBool _ => true | _ => false end.

Definition isinstance_dict (v : pyval) : bool :=
  match v with VDict _ => true | _ => false end.

(** [int(v)] *)
Definition py_int (v : pyval) : result Z :=
  match v with
  | VInt z => Ok z
  | VBool b => Ok (if b then 1 else 0)
  | VStr s => int_of_text (chars s)
  | _ => Raise TypeError
  end.

(** *** ObjectId and its 24-digit hexadecimal text *)

Definition hex_char (d : N) : ascii :=
  if (d <? 10)%N then ascii_of_N (48 + d) else ascii_of_N (87 + d).

Definition hex_val (c : ascii) : option N :=
  let n := code c in
  if ((48 <=? n) && (n <=? 57))%N then Some (n - 48)%N
  else if ((97 <=? n) && (n <=? 102))%N then Some (n - 87)%N
  else if ((65 <=? n) && (n <=? 70))%N then Some (n - 55)%N
  else None.

(** The [k] low-order hexadecimal digits of [n], most significant first. *)
Fixpoint hex_digits (k : nat) (n : N) : text :=
  match k with
  | O => []
  | S k' => (hex_digits k' (n / 16) ++ [hex_char (n mod 16)])%list
  end.

(** [str(oid)] *)
Definition oid_str (o : oid) : string := str_of (hex_digits 24 o).

Fixpoint hex_value (acc : N) (t : text) : option N :=
  match t with
  | [] => Some acc
  | c :: r =>
      match hex_val c with
      | Some d => hex_value (16 * acc + d)%N r
      | None => None
      end
  end.

(** [ObjectId(s)] for text [s], as the driver documents it: [s] must be a
    24-character hexadecimal string, anything else raises [InvalidId]. *)
Definition ObjectId (s : string) : result oid :=
  let t := chars s in
  if (length t =? 24)%nat then
    match hex_value 0 t with
    | Some n => Ok n
    | None => Raise InvalidId
    end
  else Raise InvalidId.

(** Equality of values is decidable: the store needs it to tell whether an
    update changed a document. *)
Definition pyval_eq_dec : forall x y : pyval, {x = y} + {x <> y}.
Proof.
  fix IH 1.
  intros x y; decide equality.
  - apply Bool.bool_dec.
  - apply Z.eq_dec.
  - apply string_dec.
  - apply Z.eq_dec.
  - apply N.eq_dec.
  - decide equality.
  - apply (List.list_eq_dec IH).
  - apply List.list_eq_dec. intros [k1 v1] [k2 v2].
    destruct (string_dec k1 k2) as [->|Hk]; [|right; congruence].
    destruct (IH v1 v2) as [->|Hv]; [left; reflexivity|right; congruence].
Defined.

#[global] Instance pyval_eq_decision : EqDecision pyval := pyval_eq_dec.

(** *** Operations on a value whose type is not known *)

(** [key in d] on a dict. *)
Definition has_key (d : pydict) (key : string) : bool :=
  match dict_get d key with
  | Some _ => true
  | None => false
  end.

(** [v[key]] for a text key: only a dict can be subscripted by text. *)
Definition py_subscript (v : pyval) (key : string) : result pyval :=
  match v with
  | VDict d => subscript d key
  | _ => Raise TypeError
  end.

(** [v.get(key, default)]: only a dict has [get]. *)
Definition py_get (v : pyval) (key : string) (default : pyval)
  : result pyval :=
  match v with
  | VDict d =>
      Ok match dict_get d key with
         | Some x => x
         | None => default
         end
  | _ => Raise AttributeError
  end.

(** [key in v] for a text key: a key of a dict, a piece of a text, an
    element of a list. *)
Definition py_contains (key : string) (v : pyval) : result bool :=
  match v with
  | VDict d => Ok (has_key d key)
  | VStr s => Ok (has_substring (chars key) (chars s))
  | VList l => Ok (existsb (fun x => bool_decide (x = VStr key)) l)
  | _ => Raise TypeError
  end.

(** [for x in v]: the elements of a list, the keys of a dict, the
    characters of a text. *)
Definition py_iter (v : pyval) : result (list pyval) :=
  match v with
  | VList l => Ok l
  | VDict d => Ok (map (fun kv => VStr (fst kv)) d)
  | VStr s => Ok (map (fun c => VStr (String c "")) (chars s))
  | _ => Raise TypeError
  end.

(** [v[0]] *)
Definition py_first (v : pyval) : result pyval :=
  match v with
  | VList (x :: _) => Ok x
  | VList [] => Raise (OtherError "IndexError")
  | VStr (String c _) => Ok (VStr (String c ""))
  | VStr "" => Raise (OtherError "IndexError")
  | VDict _ => Raise KeyError
  | _ => Raise TypeError
  end.

End Values.

Import Values.

(** ** State and exceptions *)

Module Monad.

(** A computation over a state [S] that returns an [A] or raises.  The
    state that an exception leaves behind is kept. *)
Definition M (S A : Type) : Type := S -> result A * S.

Definition ret {S A} (a : A) : M S A := fun s => (Ok a, s).

Definition bind {S A B} (m : M S A) (k : A -> M S B) : M S B :=
  fun s =>
    match m s with
    | (Ok a, s') => k a s'
    | (Raise e, s') => (Raise e, s')
    end.

Definition raise {S A} (e : exn) : M S A := fun s => (Raise e, s).

Definition of_result {S A} (r : result A) : M S A := fun s => (r, s).

Definition get {S} : M S S := fun s => (Ok s, s).

Definition modify {S} (f : S -> S) : M S unit := fun s => (Ok tt, f s).

(** [try: body except <classes> as e: handler e] *)
Definition try_except {S A} (body : M S A) (catches : exn -> bool)
    (handler : exn -> M S A) : M S A :=
  fun s =>
    match body s with
    | (Raise e, s') => if catches e then handler e s' else (Raise e, s')
    | done => done
    end.

Notation "'let!' x ':=' m 'in' k" := (bind m (fun x => k))
  (at level 10, x binder, m at level 100, k at level 200,
   only parsing) : py_scope.
Notation "'do!' m 'in' k" := (bind m (fun _ => k))
  (at level 10, m at level 100, k at level 200, only parsing) : py_scope.

(** [for x in xs: body x]; a [continue] is the body returning early. *)
Fixpoint for_each {S A} (xs : list A) (body : A -> M S unit) : M S unit :=
  match xs with
  | [] => ret tt
  | x :: r => do! body x in for_each r body
  end.

(** [assert-like] guard: raise [e] unless [b]. *)
Definition require {S} (b : bool) (e : exn) : M S unit :=
  if b then ret tt else raise e.

(** [except Exception] *)
Definition any_exception (e : exn) : bool := true.

(** [except (ValueError, TypeError)] *)
Definition value_or_type_error (e : exn) : bool :=
  match e with
  | ValueError | TypeError => true
  | _ => false
  end.

End Monad.

Import Monad.

(** ** The world of a run: stores, clock, log, collaborators *)

Module World.

(** A stored document; the driver adds the key [_id]. *)
Abbreviation doc := (gmap string pyval).

(** A collection of the document store.  [next_oid] is the identifier that
    the driver assigns next; identifiers are never reused. *)
Record collection : Type := {
  docs : gmap oid doc;
  next_oid : oid;
}.

(** The collections [keywords], [videos], [transcripts] and [articles]. *)
Inductive coll_name : Type := Keywords | Videos | Transcripts | Articles.

#[global] Instance coll_name_eq_dec : EqDecision coll_name.
Proof. solve_decision. Defined.

(** A record as a keyword fetcher returns it ([KeywordsFetcher.fetch]): a
    dict with the keys [keyword], [rank], [score] and [metadata], the last a
    dict.  A key may be missing ([None] below), and [keyword], [rank] and
    [score] may hold any value. *)
Record raw_record : Type := {
  raw_keyword : option pyval;
  raw_rank : option pyval;
  raw_score : option pyval;
  raw_metadata : option pydict;
}.

Inductive level : Type := INFO | WARNING | ERROR.

(** What the loggers are asked to write: one constructor per call site of
    [workflow/daily.py], and [Repository_error] for the [logger.error] calls
    of the repositories.  [logger.debug] calls are left out. *)
Inductive message : Type :=
| Fetched_from (n : nat) (platform : string) (region : pyval)
| Inserted_keyword (keyword rank score : pyval) (platform : string)
    (region : pyval)
| Invalid_data_type (e : exn)
| Problematic_data (r : raw_record)
| Error_fetching (platform : string) (region : pyval) (e : exn)
| No_keywords_fetched
| Inserted_video (title : pyval)
| Downloaded_video_to (output : pydict)
| Transcribed_video (video_id : string)
| Failed_to_transcribe (video_id : string) (e : exn)
| Fetched_keywords (n : nat)
| Found_videos (n : nat)
| Downloaded_videos (n : nat)
| Workflow_completed
| Error_in_workflow (e : exn)
| Repository_error (c : coll_name) (e : exn).

(** A request to the driver of the document store. *)
Inductive driver_call : Type :=
| Insert_one (c : coll_name) (data : doc)
| Find_one (c : coll_name) (o : oid)
| Update_one (c : coll_name) (o : oid) (fields : doc).

Record world : Type := {
  store : coll_name -> collection;
  ticks : nat;                      (* clock readings taken so far *)
  log : list (level * message);     (* oldest entry first *)
}.

(** What a run does not control: the clock, the interpreter's rendering of
    objects as text, and the collaborators. *)
Record env : Type := {
  (* the [n]-th reading of the UTC clock, in milliseconds *)
  clock : nat -> Z;
  (* local time minus UTC, in milliseconds *)
  utc_offset : Z;
  (* [str(v)] for containers and dates *)
  py_repr : pyval -> string;
  (* what the driver raises, if anything, for a request made after [n]
     clock readings: the store cannot be reached, or it refuses the
     document (encoding, schema of the collection) *)
  driver_failure : nat -> driver_call -> option exn;
  (* [self.keyword_fetchers]: per region, per platform, what [fetch()]
     does when the run calls it *)
  keyword_fetchers : list (pyval * list (string * result (list raw_record)));
  (* [YouTubeSearcher.search(query, max_results, published_after,
     region_code)] *)
  search : pyval -> Z -> Z -> pyval -> result (list pydict);
  (* [YouTubeDownloader.download_video(url, extract_audio=False)] *)
  download_video : pyval -> result pydict;
  (* [Transcriber.transcribe(path)] *)
  transcribe : pyval -> result pydict;
}.

Definition empty_collection : collection := {| docs := ∅; next_oid := 0%N |}.

Definition empty_world : world :=
  {| store := fun _ => empty_collection; ticks := O; log := [] |}.

Definition set_store (c : coll_name) (x : collection) (w : world) : world :=
  {| store := fun c' => if decide (c' = c) then x else store w c';
     ticks := ticks w; log := log w |}.

Definition tick (w : world) : world :=
  {| store := store w; ticks := S (ticks w); log := log w |}.

Definition append_log (l : level) (m : message) (w : world) : world :=
  {| store := store w; ticks := ticks w; log := (log w ++ [(l, m)])%list |}.

(** [logger.info], [logger.warning], [logger.error] *)
Definition logger (l : level) (m : message) : M world unit :=
  modify (append_log l m).

(** [str(v)] *)
Definition py_str (E : env) (v : pyval) : string :=
  match v with
  | VNone => "None"
  | VBool true => "True"
  | VBool false => "False"
  | VInt z => pretty z
  | VStr s => s
  | VRegion r => value r
  | VOid o => oid_str o
  | VDate _ | VList _ | VDict _ => py_repr E v
  end.

End World.

Import World.

(** ** [db/base.py] and the four repositories *)

Module DB.

Section with_env.

Variable E : env.

(** [datetime.utcnow()] *)
Definition utcnow : M world Z :=
  fun w => (Ok (clock E (ticks w)), tick w).

(** [datetime.now()] *)
Definition now : M world Z :=
  fun w => (Ok (clock E (ticks w) + utc_offset E), tick w).

(** A request reaches the store unless the driver raises. *)
Definition driver_request (call : driver_call) : M world unit :=
  fun w =>
    match driver_failure E (ticks w) call with
    | Some e => (Raise e, w)
    | None => (Ok tt, w)
    end.

(** [collection.insert_one(data)] of the driver, for a document without
    [_id] (the repositories never set one): a fresh identifier is assigned,
    stored under [_id], and returned. *)
Definition driver_insert_one (c : coll_name) (data : doc) : M world oid :=
  do! driver_request (Insert_one c data) in
  fun w =>
    let col := store w c in
    let o := next_oid col in
    let col' := {| docs := <[o := <["_id" := VOid o]> data]> (docs col);
                   next_oid := N.succ o |} in
    (Ok o, set_store c col' w).

(** [collection.find_one({'_id': o})] *)
Definition driver_find_one (c : coll_name) (o : oid) : M world (option doc) :=
  do! driver_request (Find_one c o) in
  fun w => (Ok (docs (store w c) !! o), w).

(** [collection.update_one({'_id': o}, {'$set': fields})] of the driver;
    the result is [modified_count]: 1 when a document matched and the
    update changed it, else 0. *)
Definition driver_update_one (c : coll_name) (o : oid) (fields : doc)
  : M world nat :=
  do! driver_request (Update_one c o fields) in
  fun w =>
    let col := store w c in
    match docs col !! o with
    | None => (Ok O, w)
    | Some d =>
        let d' := fields ∪ d in
        if decide (d' = d) then (Ok O, w)
        else (Ok 1%nat,
              set_store c {| docs := <[o := d']> (docs col);
                             next_oid := next_oid col |} w)
    end.

(** [BaseDB.insert_one] *)
Definition insert_one (c : coll_name) (data : doc) : M world string :=
  let! created := utcnow in
  let data := <["created_at" := VDate created]> data in
  let! updated := utcnow in
  let data := <["updated_at" := VDate updated]> data in
  let! inserted_id := driver_insert_one c data in
  ret (oid_str inserted_id).

(** [BaseDB.update_one], for a query on [_id] *)
Definition update_one (c : coll_name) (o : oid) (update_data : doc)
  : M world bool :=
  let! t := utcnow in
  let update_data := <["updated_at" := VDate t]> update_data in
  let! modified_count := driver_update_one c o update_data in
  ret (0 <? modified_count)%nat.

(** [BaseDB.find_by_id] *)
Definition find_by_id (c : coll_name) (id : string) : M world (option doc) :=
  let! id := of_result (ObjectId id) in
  driver_find_one c id.

(** [if not isinstance(..): self.logger.error(..); raise TypeError(..)] *)
Definition check_type (c : coll_name) (b : bool) : M world unit :=
  if b then ret tt
  else do! logger ERROR (Repository_error c TypeError) in raise TypeError.

(** [except Exception as e: self.logger.error(..); raise] *)
Definition log_and_reraise {A} (c : coll_name) (e : exn) : M world A :=
  do! logger ERROR (Repository_error c e) in raise e.

(** The text of a value that passed [isinstance(.., str)]. *)
Definition text_of (v : pyval) : string :=
  match v with VStr s => s | _ => "" end.

(** [KeywordsDB.insert_keyword] *)
Definition insert_keyword (keyword rank score platform region metadata : pyval)
  : M world string :=
  do! check_type Keywords (isinstance_str keyword) in
  do! check_type Keywords (isinstance_int rank) in
  do! check_type Keywords (isinstance_int score) in
  do! check_type Keywords (isinstance_str platform) in
  do! check_type Keywords (isinstance_str region) in
  do! check_type Keywords
        (match metadata with VNone => true | _ => isinstance_dict metadata end) in
  let! now := now in
  let doc : doc := list_to_map
    [("keyword", keyword); ("rank", rank); ("score", score);
     ("platform", platform); ("region", region);
     ("metadata", if truthy metadata then metadata else VDict []);
     ("created_at", VDate now); ("updated_at", VDate now)] in
  try_except (insert_one Keywords doc) any_exception (log_and_reraise Keywords).

(** [VideosDB.insert_video] *)
Definition insert_video
    (keyword_id video_category video_thumbnail_url video_url video_youtube_id
     video_title video_duration video_views video_likes video_language
     video_comments : pyval) : M world string :=
  do! require (isinstance_str keyword_id) TypeError in
  do! require (isinstance_str video_category) TypeError in
  do! require (isinstance_str video_thumbnail_url) TypeError in
  do! require (isinstance_str video_url) TypeError in
  do! require (isinstance_str video_youtube_id) TypeError in
  do! require (isinstance_str video_title) TypeError in
  do! require (isinstance_int video_duration) TypeError in
  do! require (isinstance_int video_views) TypeError in
  do! require (isinstance_int video_likes) TypeError in
  do! require (isinstance_str video_language) TypeError in
  do! require (isinstance_int video_comments) TypeError in
  let! now := now in
  let! kid := of_result (ObjectId (text_of keyword_id)) in
  let doc : doc := list_to_map
    [("keyword_id", VOid kid); ("video_category", video_category);
     ("video_thumbnail_url", video_thumbnail_url); ("video_url", video_url);
     ("video_youtube_id", video_youtube_id); ("video_title", video_title);
     ("video_duration", video_duration); ("video_views", video_views);
     ("video_likes", video_likes); ("video_language", video_language);
     ("video_comments", video_comments);
     ("created_at", VDate now); ("updated_at", VDate now)] in
  try_except (insert_one Videos doc) any_exception (log_and_reraise Videos).

(** [TranscriptsDB.insert_transcript] *)
Definition insert_transcript (video_id transcript language : pyval)
  : M world string :=
  do! check_type Transcripts (isinstance_str video_id) in
  do! check_type Transcripts (isinstance_str transcript) in
  do! check_type Transcripts (isinstance_str language) in
  let! now := now in
  let! vid := of_result (ObjectId (text_of video_id)) in
  let doc : doc := list_to_map
    [("video_id", VOid vid); ("transcript", transcript);
     ("language", language);
     ("created_at", VDate now); ("updated_at", VDate now)] in
  try_except (insert_one Transcripts doc) any_exception
    (log_and_reraise Transcripts).

(** [ArticlesDB.insert_article] *)
Definition insert_article
    (keyword_id transcript_id video_id article_language title content tags
     seo_metadata published : pyval) : M world string :=
  do! check_type Articles (isinstance_str keyword_id) in
  do! check_type Articles (isinstance_str transcript_id) in
  do! check_type Articles (isinstance_str video_id) in
  do! check_type Articles (isinstance_str article_language) in
  do! check_type Articles (isinstance_str title) in
  do! check_type Articles (isinstance_str content) in
  do! check_type Articles (isinstance_str tags) in
  do! check_type Articles (isinstance_dict seo_metadata) in
  do! check_type Articles (isinstance_bool published) in
  let! now := now in
  let! kid := of_result (ObjectId (text_of keyword_id)) in
  let! tid := of_result (ObjectId (text_of transcript_id)) in
  let! vid := of_result (ObjectId (text_of video_id)) in
  let doc : doc := list_to_map
    [("keyword_id", VOid kid); ("transcript_id", VOid tid);
     ("video_id", VOid vid); ("article_language", article_language);
     ("title", title); ("content", content); ("tags", tags);
     ("seo_metadata", seo_metadata); ("published", published);
     ("created_at", VDate now); ("updated_at", VDate now)] in
  try_except (insert_one Articles doc) any_exception (log_and_reraise Articles).

(** [ArticlesDB.update_publish_status] *)
Definition update_publish_status (article_id : string) (published : pyval)
  : M world bool :=
  try_except
    (let! id := of_result (ObjectId article_id) in
     update_one Articles id {["published" := published]})
    any_exception
    (fun e => do! logger ERROR (Repository_error Articles e) in ret false).

End with_env.

End DB.

(** ** [lib/keywords/base.py] and [lib/keywords/google_trends.py] *)

Module Fetchers.

(** The region of [KeywordsFetcher.__init__]:
    [self.region = region if isinstance(region, Region)
                   else Region.from_code(region)], then
    [if not self.region: raise ValueError("Invalid region code: ...")].
    A value that is neither a [Region] nor text has no [upper]. *)
Definition init_region (region : pyval) : result Region :=
  match region with
  | VRegion r => Ok r
  | VStr s =>
      let? found := from_code s in
      match found with
      | Some r => Ok r
      | None => Raise ValueError
      end
  | _ => Raise AttributeError
  end.

(** [KeywordsFetcher.clean_keyword] *)
Definition clean_keyword (keyword : string) : string := strip keyword.

(** [trending[:limit]] *)
Definition slice_to {A} (limit : Z) (l : list A) : list A :=
  if (limit <? 0)%Z then take (Z.to_nat (Z.of_nat (length l) + limit)) l
  else take (Z.to_nat limit) l.

(** [enumerate(l, start)] *)
Fixpoint enumerate {A} (start : Z) (l : list A) : list (Z * A) :=
  match l with
  | [] => []
  | x :: r => (start, x) :: enumerate (start + 1) r
  end.

Section with_env.

Variable E : env.

(** How a [datetime] is written by [isoformat()]. *)
Variable isoformat : Z -> string.

(** The loop of [GoogleTrendsFetcher.fetch] over the trending searches,
    once the response has been turned into a list. *)
Definition fetch_results (region : Region) (limit : Z) (trending : list pyval)
  : M (world * list raw_record) unit :=
  for_each (enumerate 1 (slice_to limit trending)) (fun '(rank, keyword) =>
    match keyword with
    | VStr keyword =>
        let clean := clean_keyword keyword in
        if negb (truthy (VStr clean)) then ret tt          (* continue *)
        else fun '(w, results) =>
          let '(t, w) := (clock E (ticks w) + utc_offset E, tick w) in
          (Ok tt,
           (w, (results ++
             [{| raw_keyword := Some (VStr clean);
                 raw_rank := Some (VInt rank);
                 raw_score := Some VNone;
                 raw_metadata := Some
                   [("platform", VStr "google_trends");
                    ("region", VStr (value region));
                    ("type", VStr "trending");
                    ("timestamp", VStr (isoformat t))] |}])%list))
    | _ => ret tt                                          (* continue *)
    end).

(** [GoogleTrendsFetcher.fetch(limit)].  [response] is what
    [pytrends.trending_searches] does: it raises, returns [None], or returns
    the trending searches.  Whatever is raised inside is caught and an
    empty list returned.  What the fetcher writes to its own logger is left
    out. *)
Definition fetch (region : Region) (limit : Z)
    (response : result (option (list pyval))) : M world (list raw_record) :=
  fun w =>
    match response with
    | Raise _ => (Ok [], w)
    | Ok None => (Ok [], w)
    | Ok (Some trending) =>
        match fetch_results region limit trending (w, []) with
        | (Ok _, (w', results)) => (Ok results, w')
        | (Raise _, (w', _)) => (Ok [], w')
        end
    end.

(** [item['metadata'].update({'start_time': .., 'end_time': .., 'type':
    'historical'})] of [fetch_with_time]; [end_time or datetime.now()]
    reads the clock when no end time is given. *)
Definition with_time (start_time : Z) (end_time : option Z)
    (item : raw_record) : M world raw_record :=
  match raw_metadata item with
  | None => raise KeyError
  | Some metadata =>
      let start := isoformat start_time in
      let! finish :=
        match end_time with
        | Some t => ret t
        | None => DB.now E
        end in
      let metadata := dict_set metadata "start_time" (VStr start) in
      let metadata := dict_set metadata "end_time" (VStr (isoformat finish)) in
      let metadata := dict_set metadata "type" (VStr "historical") in
      ret {| raw_keyword := raw_keyword item;
             raw_rank := raw_rank item;
             raw_score := raw_score item;
             raw_metadata := Some metadata |}
  end.

(** The loop of [fetch_with_time] over the records. *)
Fixpoint with_times (start_time : Z) (end_time : option Z)
    (items : list raw_record) : M world (list raw_record) :=
  match items with
  | [] => ret []
  | item :: rest =>
      let! item := with_time start_time end_time item in
      let! rest := with_times start_time end_time rest in
      ret (item :: rest)
  end.

(** [GoogleTrendsFetcher.fetch_with_time(start_time, end_time, limit)] *)
Definition fetch_with_time (region : Region) (start_time : Z)
    (end_time : option Z) (limit : Z)
    (response : result (option (list pyval))) : M world (list raw_record) :=
  let! results := fetch region limit response in
  with_times start_time end_time results.

End with_env.

(** [KeywordsFetcher.validate_result]: a list of dicts that all have the
    keys [keyword] and [rank]. *)
Definition validate_result (result : pyval) : bool :=
  match result with
  | VList items =>
      forallb (fun item =>
                 match item with
                 | VDict d => has_key d "keyword" && has_key d "rank"
                 | _ => false
                 end) items
  | _ => false
  end.

(** A fetched record as the dict that Python holds. *)
Definition record_dict (r : raw_record) : pyval :=
  let entry (key : string) (v : option pyval) : pydict :=
    match v with
    | Some x => [(key, x)]
    | None => []
    end in
  VDict (entry "keyword" (raw_keyword r) ++ entry "rank" (raw_rank r)
         ++ entry "score" (raw_score r)
         ++ entry "metadata" (VDict <$> raw_metadata r))%list.




End Fetchers.

(** ** [workflow/daily.py] *)

Module Workflow.

Section with_env.

Variable E : env.

(** A world operation inside a function that also has a local variable. *)
Definition in_world {L A} (m : M world A) : M (world * L) A :=
  fun '(w, l) => let '(r, w') := m w in (r, (w', l)).

(** An update of the local variable. *)
Definition local {L} (f : L -> L) : M (world * L) unit :=
  modify (fun '(w, l) => (w, f l)).

(** Run a function body from the initial value of its local variable and
    return the final value: [x = init; ...; return x]. *)
Definition returning {L} (init : L) (body : M (world * L) unit) : M world L :=
  fun w =>
    match body (w, init) with
    | (Ok _, (w', l)) => (Ok l, w')
    | (Raise e, (w', _)) => (Raise e, w')
    end.

(** Lines 113-115 of [fetch_trending_keywords]: the metadata of a record,
    with a [Region] under the key [region] replaced by its code. *)
Definition metadata_of (keyword_data : raw_record) : pydict :=
  let metadata := default [] (raw_metadata keyword_data) in
  match dict_get metadata "region" with
  | Some (VRegion r) => dict_set metadata "region" (VStr (value r))
  | _ => metadata
  end.

(** Lines 118-120: [score = keyword_data.get('score')], [None] becoming 0. *)
Definition score_of (keyword_data : raw_record) : pyval :=
  match raw_score keyword_data with
  | None | Some VNone => VInt 0
  | Some score => score
  end.

(** [keyword_data[key]] for a key that may be missing. *)
Definition field (v : option pyval) : result pyval :=
  match v with
  | Some x => Ok x
  | None => Raise KeyError
  end.

(** The arguments that [fetch_trending_keywords] builds for
    [insert_keyword] (the dict [insert_data], lines 124-131), in the order
    in which Python evaluates them. *)
Record insert_data : Type := {
  d_keyword : string;
  d_rank : Z;
  d_score : Z;
  d_platform : string;
  d_region : string;
  d_metadata : pydict;
}.

Definition normalize (platform : string) (region : pyval)
    (keyword_data : raw_record) : result insert_data :=
  let metadata := metadata_of keyword_data in
  let score := score_of keyword_data in
  let? keyword := field (raw_keyword keyword_data) in
  let keyword := py_str E keyword in
  let? rank := field (raw_rank keyword_data) in
  let? rank := py_int rank in
  let? score := py_int score in
  let region :=
    py_str E (match region with VRegion r => VStr (value r) | _ => region end) in
  Ok {| d_keyword := keyword; d_rank := rank; d_score := score;
        d_platform := platform; d_region := region;
        d_metadata := metadata |}.

(** The record as it stands after line 115: its metadata dict, when it has
    one, was updated in place. *)
Definition after_metadata (keyword_data : raw_record) : raw_record :=
  {| raw_keyword := raw_keyword keyword_data;
     raw_rank := raw_rank keyword_data;
     raw_score := raw_score keyword_data;
     raw_metadata := (fun _ => metadata_of keyword_data)
                       <$> raw_metadata keyword_data |}.

(** The body of the loop over the records of one fetch (lines 109-144). *)
Definition process_keyword (platform : string) (region : pyval)
    (keyword_data : raw_record) : M (world * list string) unit :=
  let score := score_of keyword_data in
  try_except
    (let! d := of_result (normalize platform region keyword_data) in
     let! keyword_id := in_world
       (DB.insert_keyword E (VStr (d_keyword d)) (VInt (d_rank d))
          (VInt (d_score d)) (VStr (d_platform d)) (VStr (d_region d))
          (VDict (d_metadata d))) in
     do! local (fun keyword_ids => (keyword_ids ++ [keyword_id])%list) in
     in_world (logger INFO
       (Inserted_keyword (default VNone (raw_keyword keyword_data))
          (default VNone (raw_rank keyword_data)) score platform region)))
    value_or_type_error
    (fun e =>
       do! in_world (logger ERROR (Invalid_data_type e)) in
       in_world (logger ERROR (Problematic_data (after_metadata keyword_data)))).

(** The body of the loop over the fetchers of one region (lines 104-150). *)
Definition process_fetcher (region : pyval)
    (entry : string * result (list raw_record)) : M (world * list string) unit :=
  let '(platform, fetched) := entry in
  try_except
    (let! keywords := of_result fetched in
     do! in_world (logger INFO (Fetched_from (length keywords) platform region)) in
     for_each keywords (process_keyword platform region))
    any_exception
    (fun e => in_world (logger ERROR (Error_fetching platform region e))).

(** [DailyWorkflow.fetch_trending_keywords] *)
Definition fetch_trending_keywords : M world (list string) :=
  let! keyword_ids := returning []
    (for_each (keyword_fetchers E) (fun '(region, fetchers) =>
       for_each fetchers (process_fetcher region))) in
  do! (if negb (truthy (VList (VStr <$> keyword_ids)))
       then logger WARNING No_keywords_fetched else ret tt) in
  ret keyword_ids.

(** [if not data: continue] on what [find_by_id] returned. *)
Definition found (data : option doc) : option doc :=
  match data with
  | Some d => if decide (d = ∅) then None else Some d
  | None => None
  end.

(** [data[key]] on a stored document *)
Definition doc_field (d : doc) (key : string) : result pyval :=
  match d !! key with
  | Some v => Ok v
  | None => Raise KeyError
  end.

(** [parse_duration(v)]: a value without [replace] has no such attribute. *)
Definition parse_duration_of (v : pyval) : result Z :=
  match v with
  | VStr s => FmtParser.parse_duration s
  | _ => Raise AttributeError
  end.

Definition seven_days : Z := 7 * 24 * 60 * 60 * 1000.

(** The body of the loop over the search results (lines 173-190). *)
Definition process_video (keyword_id : string) (video : pydict)
  : M (world * list string) unit :=
  let! thumbnail_url := of_result (subscript video "thumbnail_url") in
  let! url := of_result (subscript video "url") in
  let! youtube_id := of_result (subscript video "video_id") in
  let! title := of_result (subscript video "title") in
  let! duration := of_result (subscript video "duration") in
  let! duration := of_result (parse_duration_of duration) in
  let! views := of_result (subscript video "view_count") in
  let! views := of_result (py_int views) in
  let! likes := of_result (subscript video "like_count") in
  let! likes := of_result (py_int likes) in
  let! comments := of_result (subscript video "comment_count") in
  let! comments := of_result (py_int comments) in
  let! video_id := in_world
    (DB.insert_video E (VStr keyword_id) (VStr "education") thumbnail_url url
       youtube_id title (VInt duration) (VInt views) (VInt likes) (VStr "en")
       (VInt comments)) in
  do! local (fun video_ids => (video_ids ++ [video_id])%list) in
  in_world (logger INFO (Inserted_video title)).

(** The body of the loop over the keyword ids (lines 161-190). *)
Definition search_keyword (keyword_id : string) : M (world * list string) unit :=
  let! keyword_data := in_world (DB.find_by_id E Keywords keyword_id) in
  match found keyword_data with
  | None => ret tt                                             (* continue *)
  | Some keyword_data =>
      let! query := of_result (doc_field keyword_data "keyword") in
      let! now := in_world (DB.now E) in
      let! region_code := of_result (doc_field keyword_data "region") in
      let! videos_found :=
        of_result (search E query 3 (now - seven_days) region_code) in
      for_each videos_found (process_video keyword_id)
  end.

(** [DailyWorkflow.search_videos] *)
Definition search_videos (keyword_ids : list string) : M world (list string) :=
  returning [] (for_each keyword_ids search_keyword).

(** The body of the loop of [download_videos] (lines 198-208). *)
Definition download_one (video_id : string)
  : M (world * gmap string pyval) unit :=
  let! video_data := in_world (DB.find_by_id E Videos video_id) in
  match found video_data with
  | None => ret tt                                             (* continue *)
  | Some video_data =>
      let! url := of_result (doc_field video_data "video_url") in
      let! output_path := of_result (download_video E url) in
      let! path := of_result (subscript output_path "video") in
      do! local (fun path_map => <[video_id := path]> path_map) in
      in_world (logger INFO (Downloaded_video_to output_path))
  end.

(** [DailyWorkflow.download_videos] *)
Definition download_videos (video_ids : list string)
  : M world (gmap string pyval) :=
  returning ∅ (for_each video_ids download_one).

(** The body of the loop of [transcribe_videos] (lines 214-234). *)
Definition transcribe_one (video_paths : gmap string pyval)
    (video_id : string) : M world unit :=
  match video_paths !! video_id with
  | None => ret tt                                             (* continue *)
  | Some video_path =>
      if negb (truthy video_path) then ret tt                  (* continue *)
      else
        try_except
          (let! transcript := of_result (transcribe E video_path) in
           let! text := of_result (subscript transcript "text") in
           let! language := of_result (subscript transcript "language") in
           do! DB.insert_transcript E (VStr video_id) text language in
           logger INFO (Transcribed_video video_id))
          any_exception
          (fun e => logger ERROR (Failed_to_transcribe video_id e))
  end.

(** [DailyWorkflow.transcribe_videos] *)
Definition transcribe_videos (video_ids : list string)
    (video_paths : gmap string pyval) : M world unit :=
  for_each video_ids (transcribe_one video_paths).

(** [DailyWorkflow.run]: the four stages in sequence; whatever escapes a
    stage is logged and raised again. *)
Definition run : M world unit :=
  try_except
    (let! keyword_ids := fetch_trending_keywords in
     do! logger INFO (Fetched_keywords (length keyword_ids)) in
     let! video_ids := search_videos keyword_ids in
     do! logger INFO (Found_videos (length video_ids)) in
     let! video_paths := download_videos video_ids in
     do! logger INFO (Downloaded_videos (size video_paths)) in
     do! transcribe_videos video_ids video_paths in
     logger INFO Workflow_completed)
    any_exception
    (fun e => do! logger ERROR (Error_in_workflow e) in raise e).

End with_env.

End Workflow.

(** ** [lib/youtube/yt_search.py] *)

Module YtSearch.

Section with_env.

Variable E : env.

Definition qualities : list string :=
  ["maxres"; "standard"; "high"; "medium"; "default"].

(** The loop over the thumbnail qualities, best first: the URL of the first
    quality that [thumbnails] holds, [None] when it holds none of them, and
    the value of the loop variable [quality] when the loop ends. *)
Fixpoint pick_thumbnail (thumbnails : pyval) (qs : list string)
    (quality : string) : result (pyval * string) :=
  match qs with
  | [] => Ok (VNone, quality)
  | q :: rest =>
      let? here := py_contains q thumbnails in
      if here then
        let? entry := py_subscript thumbnails q in
        let? url := py_subscript entry "url" in
        Ok (url, q)
      else pick_thumbnail thumbnails rest q
  end.

(** The dict [video_data] that [search] builds from one item of the
    response of [videos().list] (lines 97-124), in the order in which
    Python evaluates its parts. *)
Definition video_data (item : pyval) : result pydict :=
  let? snippet := py_subscript item "snippet" in
  let? thumbnails := py_get snippet "thumbnails" (VDict []) in
  let? '(thumbnail_url, quality) := pick_thumbnail thumbnails qualities "" in
  let? video_id := py_subscript item "id" in
  let? title := py_subscript snippet "title" in
  let? description := py_subscript snippet "description" in
  let? channel_id := py_subscript snippet "channelId" in
  let? channel_title := py_subscript snippet "channelTitle" in
  let? published_at := py_subscript snippet "publishedAt" in
  let? statistics := py_subscript item "statistics" in
  let? views := py_get statistics "viewCount" (VInt 0) in
  let? view_count := py_int views in
  let? likes := py_get statistics "likeCount" (VInt 0) in
  let? like_count := py_int likes in
  let? comments := py_get statistics "commentCount" (VInt 0) in
  let? comment_count := py_int comments in
  let? details := py_subscript item "contentDetails" in
  let? duration := py_subscript details "duration" in
  let? tags := py_get snippet "tags" (VList []) in
  let url := "https://www.youtube.com/watch?v=" +:+ py_str E video_id in
  let? thumbnail :=
    if truthy thumbnail_url then
      let? entry := py_get thumbnails quality (VDict []) in
      let? width := py_get entry "width" VNone in
      let? height := py_get entry "height" VNone in
      Ok (VDict [("url", thumbnail_url); ("width", width);
                 ("height", height)])
    else Ok VNone in
  Ok [("video_id", video_id);
      ("title", title);
      ("description", description);
      ("channel_id", channel_id);
      ("channel_title", channel_title);
      ("published_at", published_at);
      ("view_count", VInt view_count);
      ("like_count", VInt like_count);
      ("comment_count", VInt comment_count);
      ("duration", duration);
      ("tags", tags);
      ("url", VStr url);
      ("thumbnail_url", thumbnail_url);
      ("thumbnail", thumbnail)].

(** The loop over the items (lines 93-128): an item on which building the
    dict raises [KeyError] or [ValueError] is skipped, after a warning that
    reads [item.get('id')]; any other exception leaves the loop. *)
Fixpoint format_items (items : list pyval) : result (list pydict) :=
  match items with
  | [] => Ok []
  | item :: rest =>
      match video_data item with
      | Ok data =>
          let? results := format_items rest in
          Ok (data :: results)
      | Raise KeyError | Raise ValueError =>
          let? _ := py_get item "id" VNone in
          format_items rest
      | Raise e => Raise e
      end
  end.

(** [[item['id']['videoId'] for item in items]] *)
Fixpoint video_ids_of (items : list pyval) : result (list pyval) :=
  match items with
  | [] => Ok []
  | item :: rest =>
      let? id := py_subscript item "id" in
      let? video_id := py_subscript id "videoId" in
      let? ids := video_ids_of rest in
      Ok (video_id :: ids)
  end.

(** [','.join(video_ids)]: every element has to be text. *)
Fixpoint texts_of (vs : list pyval) : result (list string) :=
  match vs with
  | [] => Ok []
  | VStr s :: rest =>
      let? texts := texts_of rest in
      Ok (s :: texts)
  | _ :: _ => Raise TypeError
  end.

(** [YouTubeSearcher.search], from the answer of the first request on.
    [search_response] is what building the parameters and
    [search().list(..).execute()] do for the arguments of the call
    (lines 55-77), [videos_list ids] what
    [videos().list(.., id=ids).execute()] does.  Both handlers of the
    outer [try] log and raise again, so that whatever is raised inside
    reaches the caller.  What the searcher logs is left out. *)
Definition search (search_response : result pyval)
    (videos_list : string -> result pyval) : result (list pydict) :=
  let? search_response := search_response in
  let? items := py_get search_response "items" VNone in
  if negb (truthy items) then Ok []
  else
    let? items := py_subscript search_response "items" in
    let? items := py_iter items in
    let? video_ids := video_ids_of items in
    let? video_ids := texts_of video_ids in
    let? videos_response := videos_list (join "," video_ids) in
    let? items := py_get videos_response "items" (VList []) in
    let? items := py_iter items in
    format_items items.

End with_env.

End YtSearch.

(** ** [lib/transcript/transcriber.py] *)

Module Transcription.

Section with_collaborators.

(** [os.path.exists] *)
Variable path_exists : string -> bool.

(** [self.model.generate(input=audio_path, language=language, ..)] *)
Variable generate : string -> string -> result pyval.

(** [rich_transcription_postprocess] *)
Variable postprocess : pyval -> result string.

(** [Path(audio_path).name] *)
Variable file_name : string -> string.

(** [str(e)] for an exception *)
Variable message : exn -> string.

(** [Transcriber.transcribe(audio_path, language)]: a missing file raises
    [FileNotFoundError]; whatever is raised after that test becomes a
    [RuntimeError]. *)
Definition transcribe (audio_path language : string) : result pydict :=
  if negb (path_exists audio_path)
  then Raise (OtherError "FileNotFoundError")
  else
    match
      (let? result := generate audio_path language in
       let? first := py_first result in
       let? text := py_subscript first "text" in
       let? processed_text := postprocess text in
       let? segments := py_get first "segments" (VList []) in
       let? lang := py_get first "lang" (VStr language) in
       Ok [("text", VStr processed_text);
           ("segments", segments);
           ("language", lang);
           ("audio_path", VStr audio_path);
           ("file_name", VStr (file_name audio_path))])
    with
    | Ok transcript => Ok transcript
    | Raise _ => Raise (OtherError "RuntimeError")
    end.

(** [Transcriber.transcribe_batch(audio_files, language)]: a file whose
    transcription raises is answered with a dict that reports the error.
    What is printed is left out. *)
Fixpoint transcribe_batch (audio_files : list string) (language : string)
  : list pydict :=
  match audio_files with
  | [] => []
  | audio_path :: rest =>
      match transcribe audio_path language with
      | Ok result => result
      | Raise e =>
          [("error", VStr (message e));
           ("audio_path", VStr audio_path);
           ("file_name", VStr (file_name audio_path))]
      end :: transcribe_batch rest language
  end.

End with_collaborators.

End Transcription.

(** * Properties

    The vocabulary in which the properties are stated comes first, the
    lemmas and theorems follow. *)

Local Open Scope list_scope.

(** The value of a run of decimal digits. *)
Definition decimal_value (t : text) : Z :=
  fold_left (fun acc c => 10 * acc + digit_val c) t 0.

(** A number of a duration: one or more decimal digits. *)
Definition number (t : text) : Prop :=
  t <> [] /\ Forall (fun c => is_digit c = true) t.

(** An optional token [<number><unit>] of a duration, and what it is
    worth. *)
Definition token (unit : ascii) (n : option text) : text :=
  match n with
  | Some t => t ++ [unit]
  | None => []
  end.

Definition token_value (n : option text) : Z :=
  match n with
  | Some t => decimal_value t
  | None => 0
  end.

Definition token_ok (n : option text) : Prop :=
  match n with
  | Some t => number t
  | None => True
  end.

(** A letter, or any character that is not a digit. *)
Definition not_a_digit (u : ascii) : Prop :=
  (code u <? 48)%N || (57 <? code u)%N = true.

(** A hexadecimal digit, in either case. *)
Definition hex_digit (c : ascii) : bool :=
  existsb (Ascii.eqb c) (chars "0123456789abcdefABCDEF").

(** The native text form of a store identifier: 24 hexadecimal digits. *)
Definition native_form (id : string) : Prop :=
  length (chars id) = 24%nat /\ Forall (fun c => hex_digit c = true) (chars id).

(** The store can be reached and accepts every document: the driver never
    raises. *)
Definition reliable_store (E : env) : Prop :=
  forall n call, driver_failure E n call = None.

(** A clock that advances by one millisecond between two readings. *)
Definition ticking_clock (n : nat) : Z := 1700000000000 + Z.of_nat n.

(** A clock that stands still. *)
Definition frozen_clock (n : nat) : Z := 1700000000000.

(** An environment with the given clock and no collaborator that answers. *)
Definition idle_env (clk : nat -> Z) : env :=
  {| clock := clk;
     utc_offset := 0;
     py_repr := fun _ => "";
     driver_failure := fun _ _ => None;
     keyword_fetchers := [];
     search := fun _ _ _ _ => Ok [];
     download_video := fun _ => Raise (OtherError "download");
     transcribe := fun _ => Raise (OtherError "transcribe") |}.

(** A world with one article, inserted unpublished, and its identifier. *)
Definition one_article (E : env) : world :=
  snd (DB.insert_article E
         (VStr "0123456789abcdef01234567") (VStr "0123456789abcdef01234568")
         (VStr "0123456789abcdef01234569") (VStr "en") (VStr "A title")
         (VStr "Some content") (VStr "tag") (VDict []) (VBool false)
         empty_world).

Definition the_article : string := oid_str 0%N.

(** A computation keeps an invariant of its state, whether it returns or
    raises. *)
Definition preserves {S A} (I : S -> Prop) (m : M S A) : Prop :=
  forall s, I s -> I (snd (m s)).

(** A computation returns from every state: it never raises. *)
Definition never_raises {S A} (m : M S A) : Prop :=
  forall s, exists a, fst (m s) = Ok a.

(** An invariant of the world, seen from a function with a local
    variable. *)
Definition on_world {L} (I : world -> Prop) : world * L -> Prop :=
  fun s => I (fst s).

(** A video record as the search stage writes it. *)
Definition tagged_video (d : doc) : Prop :=
  d !! "video_language" = Some (VStr "en")
  /\ d !! "video_category" = Some (VStr "education").

(** Every video record of [w] was already in [w0] or is tagged. *)
Definition videos_since (w0 w : world) : Prop :=
  forall o d, docs (store w Videos) !! o = Some d ->
    docs (store w0 Videos) !! o = Some d \/ tagged_video d.

(** The log of [w] starts with the entries [base]. *)
Definition log_from (base : list (level * message)) (w : world) : Prop :=
  base `prefix_of` log w.

(** An optional value is there. *)
Definition present {A} (x : option A) : bool :=
  match x with Some _ => true | None => false end.

(** *** A small run, used to evaluate the pipeline *)

(** A well-formed record of a fetcher. *)
Definition demo_record (keyword : string) (rank : Z) : raw_record :=
  {| raw_keyword := Some (VStr keyword);
     raw_rank := Some (VInt rank);
     raw_score := None;
     raw_metadata := Some [("platform", VStr "google_trends")] |}.

(** A search result, as [YouTubeSearcher.search] builds it. *)
Definition demo_video (name : string) : pydict :=
  [("video_id", VStr name);
   ("title", VStr name);
   ("url", VStr ("https://www.youtube.com/watch?v=" +:+ name));
   ("thumbnail_url", VStr "https://i.ytimg.com/vi/default.jpg");
   ("duration", VStr "PT7M32S");
   ("view_count", VInt 10);
   ("like_count", VInt 2);
   ("comment_count", VInt 1)].

(** One region, one platform, one keyword; the collaborators are given. *)
Definition demo_env (batch : list raw_record)
    (searcher : pyval -> result (list pydict))
    (downloader : pyval -> result pydict) : env :=
  {| clock := ticking_clock;
     utc_offset := 0;
     py_repr := fun _ => "";
     driver_failure := fun _ _ => None;
     keyword_fetchers := [(VStr "US", [("google_trends", Ok batch)])];
     search := fun query _ _ _ => searcher query;
     download_video := downloader;
     transcribe := fun path =>
       Ok [("text", VStr "a transcript"); ("language", VStr "en")] |}.

(** The search finds the videos A and B for every keyword. *)
Definition finds_A_and_B (query : pyval) : result (list pydict) :=
  Ok [demo_video "A"; demo_video "B"].

(** The download collaborator fails on video A and succeeds on the
    others. *)
Definition fails_on_A (url : pyval) : result pydict :=
  if decide (url = VStr "https://www.youtube.com/watch?v=A")
  then Raise (OtherError "Failed to download video")
  else Ok [("video", VStr "/downloads/B.mp4")].

(** A download collaborator that always succeeds. *)
Definition downloads_all (url : pyval) : result pydict :=
  Ok [("video", VStr "/downloads/video.mp4")].


(** The world after the fetch stage and the search stage of a run. *)
Definition after_search (E : env) : list string * world :=
  match Workflow.fetch_trending_keywords E empty_world with
  | (Ok keyword_ids, w) =>
      match Workflow.search_videos E keyword_ids w with
      | (Ok video_ids, w') => (video_ids, w')
      | (Raise _, w') => ([], w')
      end
  | (Raise _, w) => ([], w)
  end.

(** *** The keyword normalizer *)

(** [int(v)] succeeds. *)
Definition numeric (v : pyval) : bool := is_ok (py_int v).

(** The record carries the keys [keyword] and [rank]. *)
Definition has_keys (r : raw_record) : Prop :=
  raw_keyword r <> None /\ raw_rank r <> None.

(** The rank of the record is numeric, and so is its score unless it is
    absent or [None]. *)
Definition well_formed (r : raw_record) : bool :=
  match raw_rank r with
  | Some rank => numeric rank
  | None => false
  end
  && match raw_score r with
     | None | Some VNone => true
     | Some score => numeric score
     end.

(** The integer that [int(v)] gives for a numeric [v]. *)
Definition int_value (v : pyval) : Z :=
  match py_int v with
  | Ok z => z
  | Raise _ => 0
  end.

(** What is inserted for a well-formed record: the keyword as text, rank
    and score as integers, platform and region as text, the metadata. *)
Definition payload (E : env) (platform : string) (region : pyval)
    (r : raw_record) : Workflow.insert_data :=
  {| Workflow.d_keyword := py_str E (default VNone (raw_keyword r));
     Workflow.d_rank := int_value (default VNone (raw_rank r));
     Workflow.d_score :=
       match raw_score r with
       | None | Some VNone => 0
       | Some score => int_value score
       end;
     Workflow.d_platform := platform;
     Workflow.d_region :=
       match region with
       | VRegion code => value code
       | _ => py_str E region
       end;
     Workflow.d_metadata := Workflow.metadata_of r |}.

(** Inserting one payload and keeping the identifier. *)
Definition insert_payload (E : env) (d : Workflow.insert_data)
  : M (world * list string) unit :=
  let! keyword_id := Workflow.in_world
    (DB.insert_keyword E (VStr (Workflow.d_keyword d))
       (VInt (Workflow.d_rank d)) (VInt (Workflow.d_score d))
       (VStr (Workflow.d_platform d)) (VStr (Workflow.d_region d))
       (VDict (Workflow.d_metadata d))) in
  Workflow.local (fun keyword_ids => keyword_ids ++ [keyword_id]).

(** Two worlds with the same stores and the same clock; their logs may
    differ. *)
Definition same_data (w w' : world) : Prop :=
  (forall c, store w c = store w' c) /\ ticks w = ticks w'.

(** The document that [insert_keyword] builds at local time [now]. *)
Definition keyword_doc (keyword rank score platform region metadata : pyval)
    (now : Z) : doc :=
  list_to_map
    [("keyword", keyword); ("rank", rank); ("score", score);
     ("platform", platform); ("region", region);
     ("metadata", if truthy metadata then metadata else VDict []);
     ("created_at", VDate now); ("updated_at", VDate now)].


(** A record whose rank is not a number. *)
Definition record_with_bad_rank : raw_record :=
  {| raw_keyword := Some (VStr "golang");
     raw_rank := Some (VStr "first");
     raw_score := None;
     raw_metadata := None |}.


(** The field [key] of the record stored under [o] in a collection. *)
Definition stored_field (w : world) (c : coll_name) (o : oid) (key : string)
  : option pyval :=
  docs (store w c) !! o ≫= fun d : doc => d !! key.


(** *** Durations *)

(** How often the character [u] occurs in [t]. *)
Definition occurrences (u : ascii) (t : text) : nat :=
  length (List.filter (Ascii.eqb u) t).

(** A unit letter of a duration. *)
Definition unit_letter (u : ascii) : Prop :=
  u = "H"%char \/ u = "M"%char \/ u = "S"%char.

(** The text that [parse_duration] works on, once [PT] is removed. *)
Definition duration_body (duration : string) : text :=
  chars (replace "PT" "" duration).

(** A character that [int] does not accept: not a digit, not white space,
    not a sign, not an underscore. *)
Definition plain_letter (u : ascii) : Prop :=
  is_digit u = false /\ is_space u = false
  /\ u <> "_"%char /\ u <> "+"%char /\ u <> "-"%char.

(** *** Tables *)

(** [tbl.get(key)] on a table. *)
Definition table_lookup {A} (tbl : list (string * A)) (key : string)
  : option A :=
  snd <$> List.find (fun kv => String.eqb (fst kv) key) tbl.

(** *** The repositories *)

(** The type tests of [insert_video], all together. *)
Definition video_types_ok
    (keyword_id video_category video_thumbnail_url video_url video_youtube_id
     video_title video_duration video_views video_likes video_language
     video_comments : pyval) : bool :=
  isinstance_str keyword_id && isinstance_str video_category
  && isinstance_str video_thumbnail_url && isinstance_str video_url
  && isinstance_str video_youtube_id && isinstance_str video_title
  && isinstance_int video_duration && isinstance_int video_views
  && isinstance_int video_likes && isinstance_str video_language
  && isinstance_int video_comments.

(** The type tests of [insert_keyword], all together. *)
Definition keyword_types_ok
    (keyword rank score platform region metadata : pyval) : bool :=
  isinstance_str keyword && isinstance_int rank && isinstance_int score
  && isinstance_str platform && isinstance_str region
  && match metadata with
     | VNone => true
     | _ => isinstance_dict metadata
     end.

(** [m], started in a state that satisfies [P], ends in a state that
    satisfies [Q a] when it returns [a], and [R] when it raises. *)
Definition triple {S A} (P : S -> Prop) (m : M S A) (Q : A -> S -> Prop)
    (R : S -> Prop) : Prop :=
  forall s, P s ->
    match m s with
    | (Ok a, s') => Q a s'
    | (Raise _, s') => R s'
    end.

(** Two worlds with the same stores. *)
Definition same_stores (w w' : world) : Prop :=
  forall c, store w c = store w' c.

(** The identifiers in use are below the next one to be assigned. *)
Definition wf_collection (col : collection) : Prop :=
  forall o, is_Some (docs col !! o) -> (o < next_oid col)%N.

(** [w'] is [w] with the document [d] added to [c] under the next
    identifier. *)
Definition inserted (c : coll_name) (d : doc) (w w' : world) : Prop :=
  store w' c
  = {| docs := <[next_oid (store w c) := d]> (docs (store w c));
       next_oid := N.succ (next_oid (store w c)) |}
  /\ forall c', c' <> c -> store w' c' = store w c'.

(** [d] is [data] as the store keeps it: with an identifier and the two
    stamps. *)
Definition stored_copy (data d : doc) : Prop :=
  is_Some (d !! "_id") /\ is_Some (d !! "created_at")
  /\ is_Some (d !! "updated_at")
  /\ forall key, key <> "_id" -> key <> "created_at" -> key <> "updated_at" ->
       d !! key = data !! key.

(** The collections outside [cs] are in [w] as they are in [w0]. *)
Definition frame (cs : list coll_name) (w0 w : world) : Prop :=
  forall c, c ∉ cs -> store w c = store w0 c.

(** *** The stages, record by record *)

(** The identifiers [ids] are those of the records added to [c] since
    [w0], one record each and every record added; the records added
    satisfy [P], and nothing else has changed in the stores. *)
Definition accounted (c : coll_name) (P : doc -> Prop) (w0 : world)
    (s : world * list string) : Prop :=
  wf_collection (store (fst s) c)
  /\ size (docs (store (fst s) c))
     = (size (docs (store w0 c)) + length (snd s))%nat
  /\ (forall o d, docs (store w0 c) !! o = Some d ->
        docs (store (fst s) c) !! o = Some d)
  /\ (forall c', c' <> c -> store (fst s) c' = store w0 c')
  /\ Forall (fun id => exists o d,
               id = oid_str o
               /\ docs (store (fst s) c) !! o = Some d
               /\ docs (store w0 c) !! o = None
               /\ P d) (snd s)
  /\ exists os,
       snd s = map oid_str os /\ NoDup os
       /\ forall o, o ∈ os
                    <-> is_Some (docs (store (fst s) c) !! o)
                        /\ docs (store w0 c) !! o = None.

(** A keyword record as the keyword stage writes it: text, two integers,
    two texts. *)
Definition keyword_record (d : doc) : Prop :=
  exists keyword rank score platform region,
    d !! "keyword" = Some (VStr keyword) /\ d !! "rank" = Some (VInt rank)
    /\ d !! "score" = Some (VInt score)
    /\ d !! "platform" = Some (VStr platform)
    /\ d !! "region" = Some (VStr region).

(** A video record that refers to a keyword record of [w0] whose
    identifier is one of [keyword_ids]. *)
Definition refers_to_keyword (keyword_ids : list string) (w0 : world)
    (d : doc) : Prop :=
  exists k keyword_id,
    d !! "keyword_id" = Some (VOid k)
    /\ keyword_id ∈ keyword_ids
    /\ ObjectId keyword_id = Ok k
    /\ is_Some (docs (store w0 Keywords) !! k).

(** The account that the search stage keeps of the video records. *)
Definition videos_accounted (keyword_ids : list string) (w0 : world)
  : world * list string -> Prop :=
  accounted Videos (refers_to_keyword keyword_ids w0) w0.

(** An entry of the mapping that [download_videos] returns: the video
    record that the identifier resolves to, and what the download of its
    URL returned. *)
Definition downloaded (E : env) (w0 : world) (video_id : string)
    (path : pyval) : Prop :=
  exists o d url output,
    ObjectId video_id = Ok o
    /\ docs (store w0 Videos) !! o = Some d
    /\ d !! "video_url" = Some url
    /\ download_video E url = Ok output
    /\ subscript output "video" = Ok path.

(** In the download stage the stores stay those of [w0], and every entry
    of the mapping comes from the download of a stored video of the
    list. *)
Definition download_mapping (E : env) (w0 : world) (video_ids : list string)
    (s : world * gmap string pyval) : Prop :=
  same_stores w0 (fst s)
  /\ forall video_id path, snd s !! video_id = Some path ->
       video_id ∈ video_ids /\ downloaded E w0 video_id path.

(** A transcript record as the transcription stage writes it for one of
    [video_ids]. *)
Definition transcript_of (E : env) (video_ids : list string)
    (video_paths : gmap string pyval) (d : doc) : Prop :=
  exists video_id k path output text language,
    video_id ∈ video_ids
    /\ video_paths !! video_id = Some path
    /\ truthy path = true
    /\ transcribe E path = Ok output
    /\ subscript output "text" = Ok text
    /\ subscript output "language" = Ok language
    /\ ObjectId video_id = Ok k
    /\ d !! "video_id" = Some (VOid k)
    /\ d !! "transcript" = Some text
    /\ d !! "language" = Some language.

(** Every transcript record of [w] was already in [w0] or was written for
    one of [video_ids]. *)
Definition transcripts_since (E : env) (video_ids : list string)
    (video_paths : gmap string pyval) (w0 w : world) : Prop :=
  forall o d, docs (store w Transcripts) !! o = Some d ->
    docs (store w0 Transcripts) !! o = Some d
    \/ transcript_of E video_ids video_paths d.

(** A fetch that brings no record: it raises, or it returns an empty
    list. *)
Definition brings_nothing (fetched : result (list raw_record)) : Prop :=
  match fetched with
  | Ok [] | Raise _ => True
  | Ok (_ :: _) => False
  end.

(** No fetcher of the run brings a record. *)
Definition fetches_nothing (E : env) : Prop :=
  Forall (fun entry => Forall (fun fetcher => brings_nothing (snd fetcher))
                         (snd entry))
    (keyword_fetchers E).

(** Since [w0] nothing was stored, no identifier kept and the clock not
    read; the log only grew. *)
Definition nothing_kept (w0 : world) (s : world * list string) : Prop :=
  same_data (fst s) w0 /\ log_from (log w0) (fst s) /\ snd s = [].


(** *** The records of the Google Trends fetcher *)

(** The rank of a record, when it is an integer. *)
Definition rank_value (r : raw_record) : Z :=
  match raw_rank r with
  | Some (VInt rank) => rank
  | _ => 0
  end.

(** A record as [GoogleTrendsFetcher.fetch] builds it for [region]. *)
Definition trending_record (region : Region) (r : raw_record) : Prop :=
  exists keyword rank timestamp,
    r = {| raw_keyword := Some (VStr keyword);
           raw_rank := Some (VInt rank);
           raw_score := Some VNone;
           raw_metadata := Some
             [("platform", VStr "google_trends");
              ("region", VStr (value region));
              ("type", VStr "trending");
              ("timestamp", VStr timestamp)] |}.

(** Records of the Google Trends fetcher, in the order of their ranks,
    which lie between [start] and [start + n - 1]; there are at most [n]
    of them. *)
Definition ranked_from (region : Region) (start : Z) (n : nat)
    (results : list raw_record) : Prop :=
  Forall (trending_record region) results
  /\ StronglySorted Z.lt (rank_value <$> results)
  /\ Forall (fun r => start <= rank_value r < start + Z.of_nat n) results
  /\ (length results <= n)%nat.

(** [w] after [n] more readings of the clock. *)
Definition after_readings (n : nat) (w : world) : world :=
  {| store := store w; ticks := (ticks w + n)%nat; log := log w |}.

(** The body of the loop of [GoogleTrendsFetcher.fetch], by itself. *)
Definition fetch_body (E : env) (isoformat : Z -> string) (region : Region)
  : Z * pyval -> M (world * list raw_record) unit :=
  fun '(rank, keyword) =>
    match keyword with
    | VStr keyword =>
        let clean := Fetchers.clean_keyword keyword in
        if negb (truthy (VStr clean)) then ret tt
        else fun '(w, results) =>
          let '(t, w) := (clock E (ticks w) + utc_offset E, tick w) in
          (Ok tt,
           (w, (results ++
             [{| raw_keyword := Some (VStr clean);
                 raw_rank := Some (VInt rank);
                 raw_score := Some VNone;
                 raw_metadata := Some
                   [("platform", VStr "google_trends");
                    ("region", VStr (value region));
                    ("type", VStr "trending");
                    ("timestamp", VStr (isoformat t))] |}])%list))
    | _ => ret tt
    end.

(** [r] is the record [b] of [fetch] after [fetch_with_time] has marked
    it: same keyword, rank and score, and a metadata dict that keeps
    platform, region and timestamp, is of type [historical], and carries
    the time range. *)
Definition marked_historical (isoformat : Z -> string) (region : Region)
    (start_time : Z) (end_time : option Z) (b r : raw_record) : Prop :=
  raw_keyword r = raw_keyword b /\ raw_rank r = raw_rank b
  /\ raw_score r = raw_score b
  /\ exists metadata base,
       raw_metadata r = Some metadata /\ raw_metadata b = Some base
       /\ dict_get metadata "platform" = Some (VStr "google_trends")
       /\ dict_get metadata "region" = Some (VStr (value region))
       /\ dict_get metadata "timestamp" = dict_get base "timestamp"
       /\ dict_get metadata "type" = Some (VStr "historical")
       /\ dict_get metadata "start_time" = Some (VStr (isoformat start_time))
       /\ match end_time with
          | Some t => dict_get metadata "end_time" = Some (VStr (isoformat t))
          | None => is_Some (dict_get metadata "end_time")
          end.

(** *** Search results and transcripts *)

(** A search result has the keys that [search_videos] reads, its three
    counters are integers, its URL is built from its identifier, and it
    has thumbnail details exactly when its thumbnail URL is truthy. *)
Definition search_result (E : env) (video : pydict) : Prop :=
  exists video_id title duration thumbnail_url views likes comments thumbnail,
    subscript video "video_id" = Ok video_id
    /\ subscript video "title" = Ok title
    /\ subscript video "duration" = Ok duration
    /\ subscript video "thumbnail_url" = Ok thumbnail_url
    /\ subscript video "view_count" = Ok (VInt views)
    /\ subscript video "like_count" = Ok (VInt likes)
    /\ subscript video "comment_count" = Ok (VInt comments)
    /\ subscript video "url"
       = Ok (VStr ("https://www.youtube.com/watch?v=" +:+ py_str E video_id))
    /\ subscript video "thumbnail" = Ok thumbnail
    /\ (truthy thumbnail_url = false <-> thumbnail = VNone).

(** What [transcribe_batch] answers for one file, given what [transcribe]
    did on it: the transcript, or a report with the message of the
    error. *)
Definition batch_answer (file_name : string -> string)
    (message : exn -> string) (audio_path : string)
    (outcome : result pydict) (answer : pydict) : Prop :=
  subscript answer "audio_path" = Ok (VStr audio_path)
  /\ subscript answer "file_name" = Ok (VStr (file_name audio_path))
  /\ match outcome with
     | Ok transcript =>
         answer = transcript
         /\ is_ok (subscript answer "text") = true
         /\ is_ok (subscript answer "language") = true
         /\ dict_get answer "error" = None
     | Raise e =>
         dict_get answer "error" = Some (VStr (message e))
         /\ dict_get answer "text" = None
     end.

(** ** Text *)

Lemma chars_str_of (t : text) : chars (str_of t) = t.
Proof. apply list_ascii_of_string_of_list_ascii. Qed.

Lemma str_of_chars (s : string) : str_of (chars s) = s.
Proof. apply string_of_list_ascii_of_string. Qed.

Lemma ascii_eqb_code (a b : ascii) :
  Ascii.eqb a b = (code a =? code b)%N.
Proof.
  unfold code. destruct (Ascii.eqb_spec a b) as [->|Hne].
  - symmetry. apply N.eqb_refl.
  - symmetry. apply N.eqb_neq. intros Heq. apply Hne.
    rewrite <- (ascii_N_embedding a), <- (ascii_N_embedding b). now f_equal.
Qed.

(** A decimal digit is neither white space nor one of the letters that
    [parse_duration] looks for. *)
Lemma digit_not_space c : is_digit c = true -> is_space c = false.
Proof. unfold is_digit, is_space. cbv zeta. lia. Qed.

Lemma digit_not_char c (u : ascii) :
  is_digit c = true -> (code u <? 48)%N || (57 <? code u)%N = true ->
  Ascii.eqb u c = false /\ Ascii.eqb c u = false.
Proof. unfold is_digit. rewrite !ascii_eqb_code. cbv zeta. lia. Qed.

Lemma lstrip_digits t : Forall (fun c => is_digit c = true) t -> lstrip t = t.
Proof.
  intros H. destruct H as [|c r Hc Hr]; [reflexivity|].
  simpl. now rewrite (digit_not_space c Hc).
Qed.

Lemma strip_text_digits t :
  Forall (fun c => is_digit c = true) t -> strip_text t = t.
Proof.
  intros H. unfold strip_text, rstrip. rewrite (lstrip_digits t H).
  rewrite lstrip_digits; [apply rev_involutive|].
  now apply List.Forall_rev.
Qed.

(** ** [parse_duration] *)

Lemma digits_after_digits t : forall acc,
  Forall (fun c => is_digit c = true) t ->
  digits_after acc t = Some (fold_left (fun a c => 10 * a + digit_val c) t acc).
Proof.
  induction t as [|c r IH]; intros acc H; [reflexivity|].
  inversion H as [|? ? Hc Hr]; subst. simpl. rewrite Hc. now apply IH.
Qed.

Lemma int_of_text_number t : number t -> int_of_text t = Ok (decimal_value t).
Proof.
  intros [Hne Hd]. unfold int_of_text. rewrite (strip_text_digits t Hd).
  destruct t as [|c r]; [congruence|].
  inversion Hd as [|? ? Hc Hr]; subst.
  destruct (digit_not_char c "-" Hc eq_refl) as [_ ->].
  destruct (digit_not_char c "+" Hc eq_refl) as [_ ->].
  unfold unsigned_of_text. rewrite Hc, (digits_after_digits r _ Hr).
  unfold decimal_value. simpl. do 2 f_equal.
Qed.

Lemma contains_digits u t :
  not_a_digit u -> Forall (fun c => is_digit c = true) t -> contains u t = false.
Proof.
  intros Hu H. induction H as [|c r Hc Hr IH]; [reflexivity|].
  simpl. destruct (digit_not_char c u Hc Hu) as [-> _]. exact IH.
Qed.

Lemma contains_app u a b : contains u (a ++ b) = contains u a || contains u b.
Proof. apply existsb_app. Qed.

Lemma split_none u t : contains u t = false -> split u t = [t].
Proof.
  induction t as [|c r IH]; intros H; [reflexivity|].
  simpl in *. apply orb_false_iff in H as [Hc Hr].
  rewrite Ascii.eqb_sym, Hc, (IH Hr). reflexivity.
Qed.

Lemma split_at u a b :
  contains u a = false -> contains u b = false ->
  split u (a ++ u :: b) = [a; b].
Proof.
  intros Ha Hb. induction a as [|c r IH]; simpl in *.
  - now rewrite Ascii.eqb_refl, (split_none u b Hb).
  - apply orb_false_iff in Ha as [Hc Hr].
    rewrite Ascii.eqb_sym, Hc, (IH Hr). reflexivity.
Qed.

Lemma contains_token u v n :
  not_a_digit u -> Ascii.eqb u v = false -> token_ok n ->
  contains u (token v n) = false.
Proof.
  intros Hu Huv Hn. destruct n as [t|]; [|reflexivity].
  destruct Hn as [_ Hd]. simpl. rewrite contains_app, (contains_digits u t Hu Hd).
  simpl. now rewrite Huv.
Qed.

(** One block of [parse_duration] on a duration that starts with the
    optional token of its unit. *)
Lemma take_unit_token u factor acc n rest :
  not_a_digit u -> token_ok n -> contains u rest = false ->
  FmtParser.take_unit u factor (@pair Z text acc (token u n ++ rest))
  = Ok (acc + token_value n * factor, rest).
Proof.
  intros Hu Hn Hrest. unfold FmtParser.take_unit. destruct n as [t|]; simpl.
  - destruct Hn as [Hne Hd].
    rewrite <- app_assoc. simpl.
    rewrite contains_app. simpl. rewrite Ascii.eqb_refl, orb_true_r.
    rewrite (split_at u t rest (contains_digits u t Hu Hd) Hrest). simpl.
    rewrite (int_of_text_number t (conj Hne Hd)). reflexivity.
  - rewrite Hrest. do 2 f_equal. lia.
Qed.

Lemma replace_from_absent old new t c0 :
  old = c0 :: tl old -> contains c0 t = false -> replace_from old new O t = t.
Proof.
  intros Hold. induction t as [|c r IH]; intros H; [reflexivity|].
  simpl in H. apply orb_false_iff in H as [Hc Hr].
  simpl. rewrite Hold. simpl. rewrite Hc. simpl. rewrite <- Hold.
  now rewrite (IH Hr).
Qed.

(** [duration.replace('PT', '')] on a duration [PT<tokens>]. *)
Lemma replace_PT body :
  contains "P" body = false ->
  chars (replace "PT" "" (str_of ("P" :: "T" :: body)%char)) = body.
Proof.
  intros H. unfold replace. rewrite !chars_str_of. simpl.
  now apply (replace_from_absent _ _ _ "P"%char).
Qed.

(** C4. [parse_duration] turns an ISO-8601 duration [PT#H#M#S] into
    seconds: each of the tokens [H], [M], [S] may be present or not, a
    missing token counts for zero, and a duration without tokens is 0
    seconds.  In particular PT7M32S is 452, PT1H2M10S is 3730, PT45S is 45,
    PT2H is 7200 and PT is 0. *)
Theorem parse_duration_tokens :
  (forall h m s : option text,
     token_ok h -> token_ok m -> token_ok s ->
     FmtParser.parse_duration
       (str_of ("P" :: "T" :: token "H" h ++ token "M" m ++ token "S" s)%char)
     = Ok (token_value h * 3600 + token_value m * 60 + token_value s))
  /\ FmtParser.parse_duration "PT7M32S" = Ok 452
  /\ FmtParser.parse_duration "PT1H2M10S" = Ok 3730
  /\ FmtParser.parse_duration "PT45S" = Ok 45
  /\ FmtParser.parse_duration "PT2H" = Ok 7200
  /\ FmtParser.parse_duration "PT" = Ok 0.
Proof.
  split; [|repeat split; reflexivity].
  intros h m s Hh Hm Hs. unfold FmtParser.parse_duration.
  assert (HM : contains "M" (token "S" s) = false)
    by now apply contains_token.
  assert (HH : contains "H" (token "M" m ++ token "S" s) = false)
    by now rewrite contains_app, !contains_token.
  assert (HP : contains "P" (token "H" h ++ token "M" m ++ token "S" s) = false)
    by now rewrite !contains_app, !contains_token.
  rewrite (replace_PT _ HP). cbv zeta. 
  rewrite (take_unit_token "H" 3600 0 h _ eq_refl Hh HH). cbn [rbind].
  rewrite (take_unit_token "M" 60 _ m _ eq_refl Hm HM). cbn [rbind].
  rewrite <- (app_nil_r (token "S" s)).
  rewrite (take_unit_token "S" 1 _ s [] eq_refl Hs eq_refl). cbn [rbind].
  f_equal. lia.
Qed.

Lemma parse_duration_tokens_witness :
  token_ok (Some (chars "1")) /\ token_ok None /\ token_ok (Some (chars "30"))
  /\ FmtParser.parse_duration "PT1H30S" = Ok 3630.
Proof.
  assert (H1 : token_ok (Some (chars "1"))).
  { split; [discriminate|]. repeat constructor. }
  assert (H3 : token_ok (Some (chars "30"))).
  { split; [discriminate|]. repeat constructor. }
  split; [exact H1|]. split; [exact I|]. split; [exact H3|].
  exact (proj1 parse_duration_tokens _ None _ H1 I H3).
Defined.


(** ** The region catalog *)

Lemma code_ascii_of_N n : (n < 256)%N -> code (ascii_of_N n) = n.
Proof. intros H. unfold code. now apply N_ascii_embedding. Qed.

Lemma code_bound c : (code c < 256)%N.
Proof. apply N_ascii_bounded. Qed.

Lemma upper_char_idem c : upper_char (upper_char c) = upper_char c.
Proof.
  assert (Hup : forall d, (97 <=? code d)%N && (code d <=? 122)%N = false ->
                          upper_char d = d).
  { intros d Hd. unfold upper_char. cbv zeta. now rewrite Hd. }
  destruct ((97 <=? code c)%N && (code c <=? 122)%N) eqn:Hlow.
  - apply Hup. unfold upper_char. cbv zeta. rewrite Hlow.
    pose proof (code_bound c). rewrite code_ascii_of_N by lia. lia.
  - now rewrite !(Hup c Hlow).
Qed.

Lemma upper_idem s : upper (upper s) = upper s.
Proof.
  unfold upper. rewrite chars_str_of, map_map. f_equal.
  apply map_ext. intros c. apply upper_char_idem.
Qed.

Lemma of_value_value r : of_value (value r) = Ok r.
Proof. destruct r; reflexivity. Qed.

Lemma of_value_inv v r : of_value v = Ok r -> v = value r.
Proof.
  unfold of_value. destruct (List.find _ members) as [r'|] eqn:Hf; [|discriminate].
  intros [= <-]. apply List.find_some in Hf as [_ Hf].
  symmetry. now apply String.eqb_eq.
Qed.

Lemma of_value_raises v e : of_value v = Raise e -> e = ValueError.
Proof.
  unfold of_value. destruct (List.find _ members); [discriminate|]. congruence.
Qed.

Lemma from_code_some code r :
  from_code code = Ok (Some r) <-> upper code = value r.
Proof.
  unfold from_code. split.
  - destruct (of_value (upper code)) as [r'|e] eqn:Hv.
    + intros [= <-]. now apply of_value_inv.
    + destruct e; discriminate.
  - intros ->. now rewrite of_value_value.
Qed.

Lemma from_code_total code :
  from_code code = Ok None \/ exists r, from_code code = Ok (Some r).
Proof.
  unfold from_code. destruct (of_value (upper code)) as [r|e] eqn:Hv.
  - right. now exists r.
  - left. now rewrite (of_value_raises _ _ Hv).
Qed.

Lemma is_valid_code_true code :
  is_valid_code code = true <-> exists r, upper code = value r.
Proof.
  unfold is_valid_code. rewrite existsb_exists. split.
  - intros (v & Hin & Heq). apply String.eqb_eq in Heq. subst v.
    apply in_map_iff in Hin as (r & Hr & _). now exists r.
  - intros [r Hr]. exists (value r). split.
    + apply in_map. destruct r; simpl; tauto.
    + now apply String.eqb_eq.
Qed.

(** C5. Region resolution does not depend on the case of the code, the
    catalog keeps the codes in upper case, and a code outside the closed set
    TW, HK, JP, KR, US, SG, GLOBAL (such as ZZ) is rejected instead of being
    given a default: [from_code] answers [None], [is_valid_code] answers
    [False], and the construction of a fetcher for it raises [ValueError]
    (invalid region code). *)
Theorem region_resolution :
  (forall c1 c2, upper c1 = upper c2 -> from_code c1 = from_code c2)
  /\ (forall code r, from_code code = Ok (Some r) <-> upper code = value r)
  /\ (forall r, upper (value r) = value r
                /\ In (value r) ["TW"; "HK"; "JP"; "KR"; "US"; "SG"; "GLOBAL"])
  /\ (forall code,
        ~ In (upper code) ["TW"; "HK"; "JP"; "KR"; "US"; "SG"; "GLOBAL"] ->
        from_code code = Ok None
        /\ is_valid_code code = false
        /\ Fetchers.init_region (VStr code) = Raise ValueError)
  /\ from_code "tw" = from_code "TW"
  /\ from_code "TW" = Ok (Some TAIWAN)
  /\ from_code "ZZ" = Ok None
  /\ Fetchers.init_region (VStr "ZZ") = Raise ValueError.
Proof.
  split; [|split; [|split; [|split]]].
  - intros c1 c2 H. unfold from_code. now rewrite H.
  - apply from_code_some.
  - intros r. destruct r; simpl; split; try reflexivity; tauto.
  - intros code Hout.
    assert (Hnone : from_code code = Ok None).
    { destruct (from_code_total code) as [H|[r H]]; [exact H|].
      exfalso. apply Hout. apply from_code_some in H. rewrite H.
      destruct r; simpl; tauto. }
    split; [exact Hnone|]. split.
    + destruct (is_valid_code code) eqn:Hv; [|reflexivity].
      apply is_valid_code_true in Hv as [r Hr].
      apply from_code_some in Hr. congruence.
    + unfold Fetchers.init_region. now rewrite Hnone.
  - repeat split; reflexivity.
Qed.

Lemma region_resolution_witness :
  ~ In (upper "zz") ["TW"; "HK"; "JP"; "KR"; "US"; "SG"; "GLOBAL"]
  /\ from_code "zz" = Ok None
  /\ (upper "us" = upper "Us" -> from_code "us" = from_code "Us").
Proof.
  assert (Hout : ~ In (upper "zz") ["TW"; "HK"; "JP"; "KR"; "US"; "SG"; "GLOBAL"]).
  { vm_compute. intros H. repeat (destruct H as [H|H]; [discriminate|]). exact H. }
  split; [exact Hout|]. split.
  - exact (proj1 (proj1 (proj2 (proj2 (proj2 region_resolution))) "zz" Hout)).
  - exact (proj1 region_resolution "us" "Us").
Defined.

(** ** Store identifiers *)

Lemma hex_val_digit c : hex_digit c = true <-> exists d, hex_val c = Some d.
Proof.
  unfold hex_digit, hex_val. cbv zeta. simpl. rewrite !ascii_eqb_code.
  change (code "0") with 48%N. change (code "1") with 49%N.
  change (code "2") with 50%N. change (code "3") with 51%N.
  change (code "4") with 52%N. change (code "5") with 53%N.
  change (code "6") with 54%N. change (code "7") with 55%N.
  change (code "8") with 56%N. change (code "9") with 57%N.
  change (code "a") with 97%N. change (code "b") with 98%N.
  change (code "c") with 99%N. change (code "d") with 100%N.
  change (code "e") with 101%N. change (code "f") with 102%N.
  change (code "A") with 65%N. change (code "B") with 66%N.
  change (code "C") with 67%N. change (code "D") with 68%N.
  change (code "E") with 69%N. change (code "F") with 70%N.
  destruct ((48 <=? code c)%N && (code c <=? 57)%N) eqn:H1;
    [split; [eauto|intros _; lia]|].
  destruct ((97 <=? code c)%N && (code c <=? 102)%N) eqn:H2;
    [split; [eauto|intros _; lia]|].
  destruct ((65 <=? code c)%N && (code c <=? 70)%N) eqn:H3;
    [split; [eauto|intros _; lia]|].
  split; [intros H; exfalso; lia|intros [d Hd]; discriminate].
Qed.

Lemma hex_val_char d : (d < 16)%N -> hex_val (hex_char d) = Some d.
Proof.
  intros Hd. unfold hex_val, hex_char. cbv zeta.
  destruct (d <? 10)%N eqn:H10.
  - rewrite code_ascii_of_N by lia.
    replace ((48 <=? 48 + d)%N && (48 + d <=? 57)%N) with true by lia.
    f_equal. lia.
  - rewrite code_ascii_of_N by lia.
    replace ((48 <=? 87 + d)%N && (87 + d <=? 57)%N) with false by lia.
    replace ((97 <=? 87 + d)%N && (87 + d <=? 102)%N) with true by lia.
    f_equal. lia.
Qed.

Lemma length_hex_digits k : forall n, length (hex_digits k n) = k.
Proof.
  induction k as [|k IH]; intros n; simpl; [reflexivity|].
  rewrite length_app, IH. simpl. lia.
Qed.

Lemma hex_value_app a b : forall acc,
  hex_value acc (a ++ b) =
  match hex_value acc a with
  | Some x => hex_value x b
  | None => None
  end.
Proof.
  induction a as [|c r IH]; intros acc; simpl; [reflexivity|].
  destruct (hex_val c); [apply IH|reflexivity].
Qed.

Lemma hex_value_digits k : forall n acc,
  hex_value acc (hex_digits k n)
  = Some (acc * 16 ^ N.of_nat k + n mod 16 ^ N.of_nat k)%N.
Proof.
  induction k as [|k IH]; intros n acc.
  - simpl. f_equal. rewrite N.mod_1_r. lia.
  - cbn [hex_digits]. rewrite hex_value_app, IH. cbn [hex_value].
    rewrite hex_val_char by (apply N.mod_lt; lia). f_equal.
    rewrite Nat2N.inj_succ, N.pow_succ_r'.
    set (p := (16 ^ N.of_nat k)%N).
    assert (E16 : (n mod (16 * p) = n mod 16 + 16 * ((n / 16) mod p))%N)
      by apply N.Div0.mod_mul_r.
    rewrite E16. lia.
Qed.

(** The text of an identifier is read back as the identifier. *)
Lemma ObjectId_oid_str o : ObjectId (oid_str o) = Ok (o mod 2 ^ 96)%N.
Proof.
  unfold ObjectId, oid_str. rewrite chars_str_of, length_hex_digits.
  simpl Nat.eqb. cbv iota. rewrite hex_value_digits. reflexivity.
Qed.

Lemma hex_value_some t : forall acc,
  Forall (fun c => hex_digit c = true) t -> exists n, hex_value acc t = Some n.
Proof.
  induction t as [|c r IH]; intros acc H; simpl; [eauto|].
  inversion H as [|? ? Hc Hr]; subst.
  apply hex_val_digit in Hc as [d ->]. now apply IH.
Qed.


Lemma ObjectId_native id : native_form id -> exists o, ObjectId id = Ok o.
Proof.
  intros [Hlen Hhex]. unfold ObjectId. rewrite Hlen. simpl.
  destruct (hex_value_some _ 0%N Hhex) as [n ->]. eauto.
Qed.



Lemma reliable_idle clk : reliable_store (idle_env clk).
Proof. intros n call. reflexivity. Defined.

Lemma native_form_example : native_form "0123456789abcdef01234567".
Proof. split; [reflexivity|]. repeat constructor. Defined.




(** ** The repositories *)

Lemma store_set_store_eq c x w : store (set_store c x w) c = x.
Proof. unfold set_store. simpl. now rewrite decide_True. Qed.

Lemma store_set_store_ne c c' x w : c' <> c -> store (set_store c x w) c' = store w c'.
Proof. intros H. unfold set_store. simpl. now rewrite decide_False. Qed.

(** The document that [BaseDB.insert_one] hands to the driver after [n]
    clock readings: it reads the clock twice, once for each stamp. *)
Lemma insert_one_spec E c (data : doc) w :
  DB.insert_one E c data w =
  let stamped : doc :=
    <["updated_at" := VDate (clock E (S (ticks w)))]>
      (<["created_at" := VDate (clock E (ticks w))]> data) in
  match driver_failure E (S (S (ticks w))) (Insert_one c stamped) with
  | Some e => (Raise e, tick (tick w))
  | None =>
      (Ok (oid_str (next_oid (store w c))),
       set_store c
         {| docs := <[next_oid (store w c) :=
                       <["_id" := VOid (next_oid (store w c))]> stamped]>
                      (docs (store w c));
            next_oid := N.succ (next_oid (store w c)) |}
         (tick (tick w)))
  end.
Proof.
  unfold DB.insert_one, DB.driver_insert_one, DB.driver_request, bind,
    DB.utcnow.
  cbn [tick ticks store]. cbv zeta.
  destruct (driver_failure E _ _); reflexivity.
Qed.

(** What [insert_keyword] does with arguments of the right types: the
    identifier it returns resolves, through [find_by_id], to the stored
    record, whose two stamps are the second and the third clock reading of
    the call. *)
Lemma insert_keyword_resolvable E k r s p rg md w :
  reliable_store E ->
  (next_oid (store w Keywords) < 2 ^ 96)%N ->
  exists id w' d,
    DB.insert_keyword E (VStr k) (VInt r) (VInt s) (VStr p) (VStr rg) (VDict md) w
      = (Ok id, w')
    /\ DB.find_by_id E Keywords id w' = (Ok (Some d), w')
    /\ d !! "keyword" = Some (VStr k)
    /\ d !! "created_at" = Some (VDate (clock E (S (ticks w))))
    /\ d !! "updated_at" = Some (VDate (clock E (S (S (ticks w))))).
Proof.
  intros HE Hbound.
  unfold DB.insert_keyword, DB.check_type, DB.now.
  cbn [isinstance_str isinstance_int isinstance_dict].
  unfold bind at 1 2 3 4 5 6 7. cbn [ret].
  unfold try_except. rewrite insert_one_spec. cbv zeta. rewrite HE.
  cbn [tick ticks store].
  eexists _, _, _. split; [reflexivity|].
  unfold DB.find_by_id, DB.driver_find_one, DB.driver_request, bind, of_result.
  rewrite ObjectId_oid_str, N.mod_small by exact Hbound.
  rewrite HE, store_set_store_eq. cbn [docs]. rewrite lookup_insert_eq.
  split; [reflexivity|].
  split; [|split]; reflexivity.
Qed.

(** C6 at a clock that advances between two readings. The identifier that
    [insert_keyword] returns resolves through [find_by_id], but the record
    it resolves to has [created_at] and [updated_at] one millisecond apart:
    [insert_one] reads the clock once for each stamp, over the single
    reading that [insert_keyword] had put in both. *)
Theorem insert_keyword_stamps_differ :
  exists id w d,
    DB.insert_keyword (idle_env ticking_clock) (VStr "python") (VInt 1)
      (VInt 0) (VStr "google_trends") (VStr "US") (VDict []) empty_world
      = (Ok id, w)
    /\ DB.find_by_id (idle_env ticking_clock) Keywords id w = (Ok (Some d), w)
    /\ d !! "created_at" = Some (VDate 1700000000001)
    /\ d !! "updated_at" = Some (VDate 1700000000002)
    /\ d !! "created_at" <> d !! "updated_at".
Proof.
  destruct (insert_keyword_resolvable (idle_env ticking_clock) "python" 1 0
              "google_trends" "US" [] empty_world (reliable_idle _) eq_refl)
    as (id & w & d & Hins & Hfind & _ & Hc & Hu).
  exists id, w, d. repeat (split; [assumption|]).
  rewrite Hc, Hu. discriminate.
Qed.

(** With a clock that stands still the two stamps agree. *)
Lemma insert_keyword_stamps_agree_frozen :
  exists id w d,
    DB.insert_keyword (idle_env frozen_clock) (VStr "python") (VInt 1)
      (VInt 0) (VStr "google_trends") (VStr "US") (VDict []) empty_world
      = (Ok id, w)
    /\ DB.find_by_id (idle_env frozen_clock) Keywords id w = (Ok (Some d), w)
    /\ d !! "created_at" = d !! "updated_at".
Proof.
  destruct (insert_keyword_resolvable (idle_env frozen_clock) "python" 1 0
              "google_trends" "US" [] empty_world (reliable_idle _) eq_refl)
    as (id & w & d & Hins & Hfind & _ & Hc & Hu).
  exists id, w, d. repeat (split; [assumption|]).
  now rewrite Hc, Hu.
Qed.

(** [update_publish_status], case by case. *)
Lemma update_publish_status_spec E id (v : pyval) w :
  DB.update_publish_status E id v w =
  match ObjectId id with
  | Raise e => (Ok false, append_log ERROR (Repository_error Articles e) w)
  | Ok o =>
      let fields : doc :=
        <["updated_at" := VDate (clock E (ticks w))]> {["published" := v]} in
      match driver_failure E (S (ticks w)) (Update_one Articles o fields) with
      | Some e =>
          (Ok false, append_log ERROR (Repository_error Articles e) (tick w))
      | None =>
          match docs (store w Articles) !! o with
          | None => (Ok false, tick w)
          | Some d =>
              if decide (fields ∪ d = d) then (Ok false, tick w)
              else (Ok true,
                    set_store Articles
                      {| docs := <[o := fields ∪ d]> (docs (store w Articles));
                         next_oid := next_oid (store w Articles) |} (tick w))
          end
      end
  end.
Proof.
  unfold DB.update_publish_status, try_except, bind at 1, of_result.
  destruct (ObjectId id) as [o|e]; [|reflexivity].
  unfold DB.update_one, DB.driver_update_one, DB.driver_request, bind,
    DB.utcnow.
  cbn [tick store ticks]. cbv zeta.
  destruct (driver_failure E _ _); [reflexivity|].
  cbn [tick store ticks].
  destruct (docs (store w Articles) !! o) as [d|]; [|reflexivity].
  destruct (decide _); reflexivity.
Qed.

Lemma set_fields_twice (t : Z) (v : pyval) (d : doc) :
  let fields : doc := <["updated_at" := VDate t]> {["published" := v]} in
  fields ∪ (fields ∪ d) = fields ∪ d.
Proof. cbv zeta. now rewrite (assoc_L (∪)), (idemp_L (∪)). Qed.

Lemma set_fields_updated_at (t : Z) (v : pyval) (d : doc) :
  (<["updated_at" := VDate t]> {["published" := v]} ∪ d : doc) !! "updated_at"
  = Some (VDate t).
Proof.
  apply lookup_union_Some_l. apply lookup_insert_eq.
Qed.

Lemma set_fields_published (t : Z) (v : pyval) (d : doc) :
  (<["updated_at" := VDate t]> {["published" := v]} ∪ d : doc) !! "published"
  = Some v.
Proof.
  apply lookup_union_Some_l. rewrite lookup_insert_ne by discriminate.
  apply lookup_singleton_eq.
Qed.

(** After a first update that reached the store, the article, when there
    is one, is the old document with the two fields set. *)
Lemma update_publish_status_first E id v w o :
  reliable_store E ->
  ObjectId id = Ok o ->
  let w1 := snd (DB.update_publish_status E id v w) in
  ticks w1 = S (ticks w)
  /\ docs (store w1 Articles) !! o
     = (fun d => <["updated_at" := VDate (clock E (ticks w))]>
                   {["published" := v]} ∪ d)
       <$> docs (store w Articles) !! o.
Proof.
  intros HE Ho. cbv zeta. rewrite update_publish_status_spec, Ho. cbv zeta.
  rewrite HE.
  destruct (docs (store w Articles) !! o) as [d|] eqn:Hd.
  - destruct (decide _) as [Heq|Hne]; cbn [snd].
    + split; [reflexivity|]. cbn [tick store]. rewrite Hd. simpl. now rewrite Heq.
    + split; [reflexivity|]. rewrite store_set_store_eq. cbn [docs].
      now rewrite lookup_insert_eq.
  - cbn [snd]. split; [reflexivity|]. cbn [tick store]. now rewrite Hd.
Qed.

(** Whatever the identifier and the state of the store,
    [update_publish_status] returns. *)
Lemma update_publish_status_ok E id v w :
  exists changed, fst (DB.update_publish_status E id v w) = Ok changed.
Proof.
  rewrite update_publish_status_spec.
  destruct (ObjectId id) as [o|e]; [|eauto]. cbv zeta.
  destruct (driver_failure E _ _); [eauto|].
  destruct (docs (store w Articles) !! o) as [d|]; [|eauto].
  destruct (decide _); eauto.
Qed.

(** C7, as the code has it.  Two publish-status updates in a row with the
    same value never raise.  When the store can be reached, the article,
    if there is one, has [published] at that value after each of them, and
    the second call reports "no change" only when there is no such
    article, when the identifier is not in native form, or when the clock
    shows the same reading as at the first call; otherwise it reports a
    modification, because every update stamps [updated_at] anew. *)
Theorem update_publish_status_twice (E : env) (id : string) (b : bool)
    (w : world) :
  let w1 := snd (DB.update_publish_status E id (VBool b) w) in
  let r2 := fst (DB.update_publish_status E id (VBool b) w1) in
  let w2 := snd (DB.update_publish_status E id (VBool b) w1) in
  (exists changed1 changed2,
      fst (DB.update_publish_status E id (VBool b) w) = Ok changed1
      /\ r2 = Ok changed2)
  /\ (reliable_store E ->
      (r2 = Ok true <->
       exists o, ObjectId id = Ok o
         /\ is_Some (docs (store w Articles) !! o)
         /\ clock E (S (ticks w)) <> clock E (ticks w))
      /\ (forall o d2, ObjectId id = Ok o ->
            docs (store w2 Articles) !! o = Some d2 ->
            d2 !! "published" = Some (VBool b)
            /\ exists d1, docs (store w1 Articles) !! o = Some d1
                 /\ d1 !! "published" = Some (VBool b))).
Proof.
  cbv zeta. split; [|intros HE; split].
  - destruct (update_publish_status_ok E id (VBool b) w) as [c1 H1].
    destruct (update_publish_status_ok E id (VBool b)
                (snd (DB.update_publish_status E id (VBool b) w))) as [c2 H2].
    eauto.
  - destruct (ObjectId id) as [o|e] eqn:Ho.
    2:{ rewrite (update_publish_status_spec E id _ (snd _)), Ho. cbn [fst].
        split; [discriminate|]. intros (o & Hcontra & _). discriminate. }
    destruct (update_publish_status_first E id (VBool b) w o HE Ho)
      as [Hticks Hdocs].
    rewrite (update_publish_status_spec E id _ (snd _)), Ho. cbv zeta.
    rewrite HE, Hdocs, Hticks.
    destruct (docs (store w Articles) !! o) as [d|] eqn:Hd;
      cbn [fmap option_fmap option_map].
    + destruct (decide _) as [Heq|Hne]; cbn [fst].
      * split; [discriminate|]. intros (o' & _ & _ & Hclock). exfalso.
        apply Hclock. apply (f_equal (fun m : doc => m !! "updated_at")) in Heq.
        rewrite !set_fields_updated_at in Heq. congruence.
      * split; [|reflexivity]. intros _. exists o. split; [reflexivity|].
        split; [eauto|]. intros Hclock. apply Hne. rewrite Hclock.
        apply set_fields_twice.
    + cbn [fst]. split; [discriminate|].
      intros (o' & Heq & [d Hsome] & _). injection Heq as <-. congruence.
  - intros o d2 Ho Hd2.
    destruct (update_publish_status_first E id (VBool b) w o HE Ho)
      as [_ Hdocs1].
    destruct (update_publish_status_first E id (VBool b)
                (snd (DB.update_publish_status E id (VBool b) w)) o HE Ho)
      as [_ Hdocs2].
    cbv zeta in Hdocs2. rewrite Hd2 in Hdocs2.
    destruct (docs (store (snd (DB.update_publish_status E id (VBool b) w))
                      Articles) !! o) as [d1|] eqn:Hd1; [|discriminate].
    injection Hdocs2 as ->. split; [apply set_fields_published|].
    exists d1. split; [reflexivity|].
    destruct (docs (store w Articles) !! o) as [d|]; [|discriminate].
    injection Hdocs1 as ->. apply set_fields_published.
Qed.

(** C7, as stated, fails: on an article that exists, with a clock that
    advances, the second of two identical updates reports a modification. *)
Lemma second_publish_update_reports_change :
  let E := idle_env ticking_clock in
  let w1 := snd (DB.update_publish_status E the_article (VBool true)
                   (one_article E)) in
  fst (DB.update_publish_status E the_article (VBool true) (one_article E))
    = Ok true
  /\ fst (DB.update_publish_status E the_article (VBool true) w1) = Ok true
  /\ fst (DB.update_publish_status E the_article (VBool true) w1) <> Ok false.
Proof.
  cbv zeta.
  assert (H : fst (DB.update_publish_status (idle_env ticking_clock) the_article
                     (VBool true)
                     (snd (DB.update_publish_status (idle_env ticking_clock)
                             the_article (VBool true)
                             (one_article (idle_env ticking_clock)))))
              = Ok true) by (vm_compute; reflexivity).
  split; [vm_compute; reflexivity|]. split; [exact H|]. rewrite H. discriminate.
Qed.

(** The second half of the equivalence at a concrete article: with a clock
    that stands still the second update reports no change. *)
Lemma update_publish_status_twice_witness :
  let E := idle_env frozen_clock in
  let w1 := snd (DB.update_publish_status E the_article (VBool true)
                   (one_article E)) in
  reliable_store E
  /\ fst (DB.update_publish_status E the_article (VBool true) w1) <> Ok true.
Proof.
  cbv zeta. split; [apply reliable_idle|]. intros H.
  apply (proj1 (proj1 (proj2 (update_publish_status_twice
                   (idle_env frozen_clock) the_article true
                   (one_article (idle_env frozen_clock)))
                   (reliable_idle frozen_clock)))) in H.
  destruct H as (o & _ & _ & Hclock). apply Hclock. reflexivity.
Defined.

(** ** Reasoning about computations *)

Section computations.

Context {S : Type}.

Lemma preserves_ret {A} (I : S -> Prop) (a : A) : preserves I (ret a).
Proof. intros s Hs. exact Hs. Qed.

Lemma preserves_raise {A} (I : S -> Prop) e : preserves I (@raise S A e).
Proof. intros s Hs. exact Hs. Qed.

Lemma preserves_of_result {A} (I : S -> Prop) (r : result A) :
  preserves I (of_result r).
Proof. intros s Hs. exact Hs. Qed.

Lemma preserves_require (I : S -> Prop) b e : preserves I (require b e).
Proof. destruct b; [apply preserves_ret|apply preserves_raise]. Qed.

Lemma preserves_modify (I : S -> Prop) (f : S -> S) :
  (forall s, I s -> I (f s)) -> preserves I (modify f).
Proof. intros H s Hs. now apply H. Qed.

Lemma preserves_bind {A B} (I : S -> Prop) (m : M S A) (k : A -> M S B) :
  preserves I m -> (forall a, preserves I (k a)) -> preserves I (bind m k).
Proof.
  intros Hm Hk s Hs. unfold bind. specialize (Hm s Hs).
  destruct (m s) as [[a|e] s']; [now apply Hk|exact Hm].
Qed.

Lemma preserves_try_except {A} (I : S -> Prop) (body : M S A) catches handler :
  preserves I body -> (forall e, preserves I (handler e)) ->
  preserves I (try_except body catches handler).
Proof.
  intros Hb Hh s Hs. unfold try_except. specialize (Hb s Hs).
  destruct (body s) as [[a|e] s']; [exact Hb|].
  destruct (catches e); [now apply Hh|exact Hb].
Qed.

Lemma preserves_for_each {A} (I : S -> Prop) (xs : list A) body :
  (forall x, preserves I (body x)) -> preserves I (for_each xs body).
Proof.
  intros Hb. induction xs as [|x r IH]; [apply preserves_ret|].
  apply preserves_bind; [apply Hb|intros _; exact IH].
Qed.

Lemma never_raises_ret {A} (a : A) : never_raises (@ret S A a).
Proof. intros s. now exists a. Qed.

Lemma never_raises_bind {A B} (m : M S A) (k : A -> M S B) :
  never_raises m -> (forall a, never_raises (k a)) -> never_raises (bind m k).
Proof.
  intros Hm Hk s. unfold bind. destruct (Hm s) as [a Ha].
  destruct (m s) as [[a'|e] s']; [apply Hk|discriminate].
Qed.

Lemma never_raises_modify (f : S -> S) : never_raises (modify f).
Proof. intros s. now exists tt. Qed.

(** [try: ... except Exception] with a handler that returns. *)
Lemma never_raises_try_except {A} (body : M S A) handler :
  (forall e, never_raises (handler e)) ->
  never_raises (try_except body any_exception handler).
Proof.
  intros Hh s. unfold try_except.
  destruct (body s) as [[a|e] s']; [now exists a|apply Hh].
Qed.

Lemma never_raises_for_each {A} (xs : list A) (body : A -> M S unit) :
  (forall x, never_raises (body x)) -> never_raises (for_each xs body).
Proof.
  intros Hb. induction xs as [|x r IH]; [apply never_raises_ret|].
  apply never_raises_bind; [apply Hb|intros _; exact IH].
Qed.

End computations.

Section with_local.

Context {L : Type}.

Lemma preserves_in_world {A} (I : world -> Prop) (m : M world A) :
  preserves I m -> preserves (on_world (L:=L) I) (Workflow.in_world m).
Proof.
  intros Hm [w l] Hs. unfold Workflow.in_world, on_world in *. simpl in *.
  specialize (Hm w Hs). now destruct (m w).
Qed.

Lemma preserves_local (I : world -> Prop) (f : L -> L) :
  preserves (on_world I) (Workflow.local f).
Proof. intros [w l] Hs. exact Hs. Qed.

Lemma preserves_returning (I : world -> Prop) (init : L) body :
  preserves (on_world I) body -> preserves I (Workflow.returning init body).
Proof.
  intros Hb w Hw. unfold Workflow.returning. specialize (Hb (w, init) Hw).
  unfold on_world in Hb. now destruct (body (w, init)) as [[?|?] [w' l]].
Qed.

Lemma never_raises_in_world {A} (m : M world A) :
  never_raises m -> never_raises (Workflow.in_world (L:=L) m).
Proof.
  intros Hm [w l]. unfold Workflow.in_world. destruct (Hm w) as [a Ha].
  destruct (m w) as [r w']. simpl in *. now exists a.
Qed.


End with_local.

Lemma never_raises_logger l m : never_raises (logger l m).
Proof. apply never_raises_modify. Qed.

(** One step in the proof that a computation keeps an invariant. *)
Ltac preserves_step :=
  lazymatch goal with
  | |- preserves _ (bind _ _) => apply preserves_bind; [|intros ?]
  | |- preserves _ (ret _) => apply preserves_ret
  | |- preserves _ (raise _) => apply preserves_raise
  | |- preserves _ (of_result _) => apply preserves_of_result
  | |- preserves _ (require _ _) => apply preserves_require
  | |- preserves _ (try_except _ _ _) =>
      apply preserves_try_except; [|intros ?]
  | |- preserves _ (for_each _ _) => apply preserves_for_each; intros ?
  | |- preserves _ (Workflow.in_world _) => apply preserves_in_world
  | |- preserves _ (Workflow.local _) => apply preserves_local
  | |- preserves _ (Workflow.returning _ _) => apply preserves_returning
  | |- preserves _ (if ?b then _ else _) => destruct b
  | |- preserves _ (match ?x with _ => _ end) => destruct x
  end.

(** *** Invariants that only look at the stores, or only at the log *)

Section store_invariants.

Variable E : env.
Variable I : world -> Prop.

(** [I] is not affected by a clock reading or a log entry. *)
Hypothesis I_tick : forall w, I w -> I (tick w).
Hypothesis I_log : forall w l m, I w -> I (append_log l m w).

Lemma preserves_logger l m : preserves I (logger l m).
Proof. apply preserves_modify. intros w. apply I_log. Qed.

Lemma preserves_now : preserves I (DB.now E).
Proof. intros w Hw. now apply I_tick. Qed.

Lemma preserves_utcnow : preserves I (DB.utcnow E).
Proof. intros w Hw. now apply I_tick. Qed.

Lemma preserves_driver_request call : preserves I (DB.driver_request E call).
Proof.
  intros w Hw. unfold DB.driver_request.
  now destruct (driver_failure E (ticks w) call).
Qed.

Lemma preserves_find_by_id c id : preserves I (DB.find_by_id E c id).
Proof.
  unfold DB.find_by_id, DB.driver_find_one.
  preserves_step; [preserves_step|].
  preserves_step; [apply preserves_driver_request|].
  intros w Hw. exact Hw.
Qed.

Lemma preserves_check_type c b : preserves I (DB.check_type c b).
Proof.
  unfold DB.check_type. repeat preserves_step. apply preserves_logger.
Qed.

Lemma preserves_log_and_reraise {A} c e :
  preserves I (@DB.log_and_reraise A c e).
Proof. unfold DB.log_and_reraise. repeat preserves_step. apply preserves_logger. Qed.

End store_invariants.

(** ** The search stage *)

Lemma videos_since_tick w0 w : videos_since w0 w -> videos_since w0 (tick w).
Proof. intros H. exact H. Qed.

Lemma videos_since_log w0 w l m :
  videos_since w0 w -> videos_since w0 (append_log l m w).
Proof. intros H. exact H. Qed.

Create HintDb world_inv discriminated.

#[local] Hint Resolve videos_since_tick videos_since_log : world_inv.

Lemma tagged_video_insert (k : string) (v : pyval) (d : doc) :
  k <> "video_language" -> k <> "video_category" ->
  tagged_video d -> tagged_video (<[k := v]> d).
Proof.
  intros H1 H2 [Hl Hc]. split; now rewrite lookup_insert_ne.
Qed.

(** Storing a tagged record keeps every video record old or tagged. *)
Lemma insert_one_videos_since E w0 (data : doc) :
  tagged_video data -> preserves (videos_since w0) (DB.insert_one E Videos data).
Proof.
  intros Hdata w Hw. rewrite insert_one_spec. cbv zeta.
  destruct (driver_failure E _ _); [exact Hw|]. cbn [snd].
  intros o d. rewrite store_set_store_eq. cbn [docs].
  destruct (decide (o = next_oid (store w Videos))) as [->|Hne].
  - rewrite lookup_insert_eq. intros [= <-]. right.
    repeat (apply tagged_video_insert; [discriminate|discriminate|]).
    exact Hdata.
  - rewrite lookup_insert_ne by congruence. apply Hw.
Qed.

Lemma insert_video_videos_since E w0
    keyword_id thumbnail_url url youtube_id title duration views likes comments :
  preserves (videos_since w0)
    (DB.insert_video E keyword_id (VStr "education") thumbnail_url url
       youtube_id title duration views likes (VStr "en") comments).
Proof.
  unfold DB.insert_video.
  repeat first
    [ apply preserves_now; solve [auto with world_inv]
    | apply preserves_log_and_reraise; solve [auto with world_inv]
    | apply insert_one_videos_since; split; reflexivity
    | preserves_step ].
Qed.

Lemma process_video_videos_since E w0 keyword_id video :
  preserves (on_world (videos_since w0)) (Workflow.process_video E keyword_id video).
Proof.
  unfold Workflow.process_video.
  repeat first
    [ apply insert_video_videos_since
    | apply preserves_logger; solve [auto with world_inv]
    | preserves_step ].
Qed.

Lemma search_videos_videos_since E w0 keyword_ids :
  preserves (videos_since w0) (Workflow.search_videos E keyword_ids).
Proof.
  unfold Workflow.search_videos, Workflow.search_keyword.
  repeat first
    [ apply process_video_videos_since
    | apply preserves_find_by_id
    | apply preserves_now; solve [auto with world_inv]
    | preserves_step ].
Qed.

(** C10. Whatever the keywords, the search results and the state of the
    stores, a video record that the search stage has added carries the
    language [en] and the category [education]; this also holds for the
    records added before a failure interrupts the stage. *)
Theorem search_videos_tags_every_video (E : env) (keyword_ids : list string)
    (w : world) (o : oid) (d : doc) :
  docs (store (snd (Workflow.search_videos E keyword_ids w)) Videos) !! o = Some d ->
  docs (store w Videos) !! o = Some d
  \/ (d !! "video_language" = Some (VStr "en")
      /\ d !! "video_category" = Some (VStr "education")).
Proof.
  apply (search_videos_videos_since E w keyword_ids w).
  intros o' d' H. now left.
Qed.

Lemma search_videos_tags_every_video_witness :
  let E := demo_env [demo_record "python" 1] finds_A_and_B downloads_all in
  exists d,
    docs (store (snd (Workflow.search_videos E [oid_str 0%N]
                        (snd (Workflow.fetch_trending_keywords E empty_world))))
            Videos) !! 1%N = Some d
    /\ d !! "video_language" = Some (VStr "en")
    /\ d !! "video_category" = Some (VStr "education").
Proof.
  cbv zeta.
  set (E := demo_env [demo_record "python" 1] finds_A_and_B downloads_all).
  set (w := snd (Workflow.fetch_trending_keywords E empty_world)).
  assert (Hsome : present
             (docs (store (snd (Workflow.search_videos E [oid_str 0%N] w)) Videos)
                !! 1%N) = true)
    by (vm_compute; reflexivity).
  assert (Hnew : docs (store w Videos) !! 1%N = None)
    by (vm_compute; reflexivity).
  destruct (docs (store (snd (Workflow.search_videos E [oid_str 0%N] w)) Videos)
              !! 1%N) as [d|] eqn:Hd; [|discriminate Hsome].
  exists d. split; [reflexivity|].
  destruct (search_videos_tags_every_video E [oid_str 0%N] w 1%N d Hd)
    as [Hold|Htagged]; [|exact Htagged].
  discriminate (eq_trans (eq_sym Hold) Hnew).
Defined.

(** ** The stages that isolate their failures *)

Lemma never_raises_process_fetcher E region entry :
  never_raises (Workflow.process_fetcher E region entry).
Proof.
  destruct entry as [platform fetched]. unfold Workflow.process_fetcher.
  apply never_raises_try_except. intros e.
  apply never_raises_in_world, never_raises_logger.
Qed.


(** No failure of the transcriber or of the transcript store leaves
    [transcribe_videos]. *)
Lemma never_raises_transcribe_videos E video_ids video_paths :
  never_raises (Workflow.transcribe_videos E video_ids video_paths).
Proof.
  unfold Workflow.transcribe_videos. apply never_raises_for_each.
  intros video_id. unfold Workflow.transcribe_one.
  destruct (video_paths !! video_id) as [video_path|]; [|apply never_raises_ret].
  destruct (negb (truthy video_path)); [apply never_raises_ret|].
  apply never_raises_try_except. intros e. apply never_raises_logger.
Qed.

(** *** The log only grows *)

Lemma log_from_tick base w : log_from base w -> log_from base (tick w).
Proof. intros H. exact H. Qed.

Lemma log_from_log base w l m :
  log_from base w -> log_from base (append_log l m w).
Proof. intros H. unfold log_from in *. simpl. now apply prefix_app_r. Qed.

Lemma log_from_set_store base c x w :
  log_from base w -> log_from base (set_store c x w).
Proof. intros H. exact H. Qed.

#[local] Hint Resolve log_from_tick log_from_log log_from_set_store : world_inv.

Lemma insert_one_log_from E base c (data : doc) :
  preserves (log_from base) (DB.insert_one E c data).
Proof.
  intros w Hw. rewrite insert_one_spec. cbv zeta.
  now destruct (driver_failure E _ _).
Qed.

(** The steps that keep [log_from]. *)
Ltac log_from_step :=
  lazymatch goal with
  | |- preserves _ (DB.now _) =>
      apply preserves_now; solve [auto with world_inv]
  | |- preserves _ (DB.utcnow _) =>
      apply preserves_utcnow; solve [auto with world_inv]
  | |- preserves _ (logger _ _) =>
      apply preserves_logger; solve [auto with world_inv]
  | |- preserves _ (DB.find_by_id _ _ _) => apply preserves_find_by_id
  | |- preserves _ (DB.check_type _ _) =>
      apply preserves_check_type; solve [auto with world_inv]
  | |- preserves _ (DB.log_and_reraise _ _) =>
      apply preserves_log_and_reraise; solve [auto with world_inv]
  | |- preserves _ (DB.insert_one _ _ _) => apply insert_one_log_from
  | |- _ => preserves_step
  end.

Lemma insert_video_log_from E base a1 a2 a3 a4 a5 a6 a7 a8 a9 a10 a11 :
  preserves (log_from base) (DB.insert_video E a1 a2 a3 a4 a5 a6 a7 a8 a9 a10 a11).
Proof. unfold DB.insert_video. repeat log_from_step. Qed.

Lemma insert_transcript_log_from E base video_id transcript language :
  preserves (log_from base) (DB.insert_transcript E video_id transcript language).
Proof. unfold DB.insert_transcript. repeat log_from_step. Qed.

Lemma search_videos_log_from E base keyword_ids :
  preserves (log_from base) (Workflow.search_videos E keyword_ids).
Proof.
  unfold Workflow.search_videos, Workflow.search_keyword,
    Workflow.process_video.
  repeat first [apply insert_video_log_from | log_from_step].
Qed.

Lemma download_videos_log_from E base video_ids :
  preserves (log_from base) (Workflow.download_videos E video_ids).
Proof.
  unfold Workflow.download_videos, Workflow.download_one.
  repeat log_from_step.
Qed.

Lemma transcribe_videos_log_from E base video_ids video_paths :
  preserves (log_from base) (Workflow.transcribe_videos E video_ids video_paths).
Proof.
  unfold Workflow.transcribe_videos, Workflow.transcribe_one.
  repeat first [apply insert_transcript_log_from | log_from_step].
Qed.

Lemma log_from_refl w : log_from (log w) w.
Proof. unfold log_from. reflexivity. Qed.

Lemma log_from_elem base w entry :
  log_from base w -> entry ∈ base -> entry ∈ log w.
Proof.
  intros [rest ->] Hin. apply elem_of_app. now left.
Qed.

(** ** The run *)

Lemma pair_of_fst {A B} (p : A * B) (a : A) : fst p = a -> p = (a, snd p).
Proof. intros <-. now destruct p. Qed.




(** C3 at its failing input.  The search stage has stored the videos A and
    B; the download collaborator fails on A and would succeed on B.  The
    failure on A leaves [download_videos], so that no mapping at all reaches
    the transcription stage, B is never downloaded, [run] raises, and no
    transcript is stored. *)
Theorem download_failure_leaves_the_stage :
  let E := demo_env [demo_record "python" 1] finds_A_and_B fails_on_A in
  fst (after_search E) = [oid_str 0%N; oid_str 1%N]
  /\ is_ok (fails_on_A (VStr "https://www.youtube.com/watch?v=B")) = true
  /\ fst (Workflow.download_videos E (fst (after_search E)) (snd (after_search E)))
     = Raise (OtherError "Failed to download video")
  /\ fst (Workflow.run E empty_world)
     = Raise (OtherError "Failed to download video")
  /\ size (docs (store (snd (Workflow.run E empty_world)) Videos)) = 2%nat
  /\ size (docs (store (snd (Workflow.run E empty_world)) Transcripts)) = 0%nat.
Proof. cbv zeta. repeat split; vm_compute; reflexivity. Qed.

(** With a download collaborator that succeeds on both videos the same run
    completes and stores two transcripts. *)
Lemma run_with_all_downloads :
  let E := demo_env [demo_record "python" 1] finds_A_and_B downloads_all in
  fst (Workflow.run E empty_world) = Ok tt
  /\ size (docs (store (snd (Workflow.run E empty_world)) Transcripts)) = 2%nat.
Proof. cbv zeta. split; vm_compute; reflexivity. Qed.

(** ** The keyword normalizer *)

Lemma int_of_text_raises t e : int_of_text t = Raise e -> e = ValueError.
Proof.
  unfold int_of_text. cbv zeta.
  destruct (match strip_text t with [] => _ | _ => _ end); congruence.
Qed.

(** What [int(v)] raises is caught by [except (ValueError, TypeError)]. *)
Lemma py_int_raises v e : py_int v = Raise e -> value_or_type_error e = true.
Proof.
  destruct v; simpl; try (intros [= <-]; reflexivity); try discriminate.
  intros H. now rewrite (int_of_text_raises _ _ H).
Qed.

Lemma py_int_numeric v : numeric v = true -> py_int v = Ok (int_value v).
Proof. unfold numeric, int_value. now destruct (py_int v). Qed.

(** The normalizer only looks at rank and score: a record with its keys is
    accepted exactly when it is well formed, whatever its keyword holds. *)
Lemma normalize_well_formed E platform region r :
  has_keys r -> well_formed r = true ->
  Workflow.normalize E platform region r = Ok (payload E platform region r).
Proof.
  intros [Hk Hr] Hwf. unfold Workflow.normalize, payload, well_formed in *.
  destruct r as [[keyword|] [rank|] score metadata]; cbn in *; try congruence.
  apply andb_true_iff in Hwf as [Hrank Hscore].
  rewrite (py_int_numeric rank Hrank). cbn.
  unfold Workflow.score_of. cbn.
  assert (Hs : py_int match score with
                      | Some VNone | None => VInt 0
                      | Some s => s
                      end
               = Ok match score with
                    | Some VNone | None => 0
                    | Some s => int_value s
                    end).
  { destruct score as [[]|]; try reflexivity; now apply py_int_numeric. }
  rewrite Hs. cbn. destruct region; reflexivity.
Qed.

Lemma normalize_ill_formed E platform region r :
  has_keys r -> well_formed r = false ->
  exists e, Workflow.normalize E platform region r = Raise e
            /\ value_or_type_error e = true.
Proof.
  intros [Hk Hr] Hwf. unfold Workflow.normalize, well_formed in *.
  destruct r as [[keyword|] [rank|] score metadata];
    cbn [raw_keyword raw_rank raw_score raw_metadata] in *; try congruence.
  cbn [Workflow.field rbind]. unfold numeric in Hwf.
  destruct (py_int rank) as [z|e] eqn:Hrank; cbn [rbind is_ok andb] in *.
  - destruct score as [s|]; [|discriminate].
    assert (Hnn : s <> VNone) by (intros ->; discriminate).
    assert (Hso : Workflow.score_of
                    {| raw_keyword := Some keyword; raw_rank := Some rank;
                       raw_score := Some s; raw_metadata := metadata |} = s)
      by (destruct s; try reflexivity; congruence).
    assert (Hnum : is_ok (py_int s) = false)
      by (destruct s; try exact Hwf; congruence).
    rewrite Hso. destruct (py_int s) as [z'|e'] eqn:Hs; [discriminate|].
    exists e'. split; [reflexivity|]. now apply (py_int_raises s).
  - exists e. split; [reflexivity|]. now apply (py_int_raises rank).
Qed.

Lemma same_data_refl w : same_data w w.
Proof. now split. Qed.

Lemma same_data_log w w' l m : same_data w w' -> same_data (append_log l m w) w'.
Proof. intros H. exact H. Qed.

(** With arguments of the right types and a store that can be reached,
    [insert_keyword] comes down to [insert_one] on the document it
    builds. *)
Lemma insert_keyword_spec E k r s p rg md w :
  reliable_store E ->
  DB.insert_keyword E (VStr k) (VInt r) (VInt s) (VStr p) (VStr rg) (VDict md) w
  = DB.insert_one E Keywords
      (keyword_doc (VStr k) (VInt r) (VInt s) (VStr p) (VStr rg) (VDict md)
         (clock E (ticks w) + utc_offset E))
      (tick w).
Proof.
  intros HE. unfold DB.insert_keyword, DB.check_type, DB.now.
  cbn [isinstance_str isinstance_int isinstance_dict].
  unfold bind at 1 2 3 4 5 6 7. cbn [ret]. unfold try_except.
  fold (keyword_doc (VStr k) (VInt r) (VInt s) (VStr p) (VStr rg) (VDict md)
          (clock E (ticks w) + utc_offset E)).
  rewrite insert_one_spec. cbv zeta. now rewrite HE.
Qed.

(** [insert_one] reads the stores and the clock only. *)
Lemma insert_one_same_data E c (data : doc) w w' :
  reliable_store E ->
  same_data w w' ->
  fst (DB.insert_one E c data w) = fst (DB.insert_one E c data w')
  /\ same_data (snd (DB.insert_one E c data w)) (snd (DB.insert_one E c data w')).
Proof.
  intros HE [Hstore Hticks]. rewrite !insert_one_spec. cbv zeta.
  rewrite !HE. cbn [fst snd].
  rewrite (Hstore c), Hticks. split; [reflexivity|].
  split; [|cbn; now rewrite Hticks].
  intros c'. unfold set_store. cbn [store tick].
  destruct (decide (c' = c)); [reflexivity|apply Hstore].
Qed.

Lemma insert_keyword_same_data E k r s p rg md w w' :
  reliable_store E ->
  same_data w w' ->
  exists id w1 w1',
    DB.insert_keyword E (VStr k) (VInt r) (VInt s) (VStr p) (VStr rg) (VDict md) w
      = (Ok id, w1)
    /\ DB.insert_keyword E (VStr k) (VInt r) (VInt s) (VStr p) (VStr rg)
         (VDict md) w' = (Ok id, w1')
    /\ same_data w1 w1'.
Proof.
  intros HE Hsame. rewrite !insert_keyword_spec by exact HE.
  assert (Hsame' : same_data (tick w) (tick w')).
  { destruct Hsame as [Hs Ht]. split; [exact Hs|]. cbn. now rewrite Ht. }
  destruct Hsame as [_ Hticks]. rewrite <- Hticks.
  set (data := keyword_doc _ _ _ _ _ _ _).
  destruct (insert_one_same_data E Keywords data _ _ HE Hsame') as [Hfst Hsnd].
  exists (oid_str (next_oid (store (tick w) Keywords))),
         (snd (DB.insert_one E Keywords data (tick w))),
         (snd (DB.insert_one E Keywords data (tick w'))).
  split; [|split; [|exact Hsnd]]; apply pair_of_fst;
    [|rewrite <- Hfst]; rewrite insert_one_spec; cbv zeta; now rewrite HE.
Qed.

(** A well-formed record is inserted: the loop body does what
    [insert_payload] does, and writes a log entry. *)
Lemma process_keyword_well_formed E platform region r w w' ids :
  reliable_store E ->
  has_keys r -> well_formed r = true -> same_data w w' ->
  exists id w1 w1',
    Workflow.process_keyword E platform region r (w, ids)
      = (Ok tt, (w1, ids ++ [id]))
    /\ insert_payload E (payload E platform region r) (w', ids)
      = (Ok tt, (w1', ids ++ [id]))
    /\ same_data w1 w1'.
Proof.
  intros HE Hkeys Hwf Hsame.
  set (d := payload E platform region r).
  destruct (insert_keyword_same_data E (Workflow.d_keyword d)
              (Workflow.d_rank d) (Workflow.d_score d) (Workflow.d_platform d)
              (Workflow.d_region d) (Workflow.d_metadata d) w w' HE Hsame)
    as (id & w1 & w1' & H1 & H1' & Hsame1).
  eexists id, _, w1'. split; [|split].
  - unfold Workflow.process_keyword, try_except, bind at 1, of_result.
    rewrite (normalize_well_formed E platform region r Hkeys Hwf). fold d.
    unfold bind at 1, Workflow.in_world at 1. rewrite H1. reflexivity.
  - unfold insert_payload, bind, Workflow.in_world. rewrite H1'. reflexivity.
  - cbn. exact Hsame1.
Qed.

(** A record that is not well formed is dropped: the loop body writes two
    log entries and nothing else. *)
Lemma process_keyword_ill_formed E platform region r w ids :
  has_keys r -> well_formed r = false ->
  exists w1,
    Workflow.process_keyword E platform region r (w, ids) = (Ok tt, (w1, ids))
    /\ same_data w1 w.
Proof.
  intros Hkeys Hwf.
  destruct (normalize_ill_formed E platform region r Hkeys Hwf) as (e & He & Hc).
  eexists. split.
  - unfold Workflow.process_keyword, try_except, bind at 1, of_result.
    rewrite He, Hc. reflexivity.
  - now split.
Qed.

Lemma same_data_trans w1 w2 w3 :
  same_data w1 w2 -> same_data w2 w3 -> same_data w1 w3.
Proof.
  intros [Hs Ht] [Hs' Ht']. split; [|congruence].
  intros c. now rewrite Hs.
Qed.

(** The loop over a batch against the insertion of the payloads of its
    well-formed records. *)
Lemma batch_loop E platform region batch : forall w w' ids,
  reliable_store E -> Forall has_keys batch -> same_data w w' ->
  exists w1 w1' new_ids,
    for_each batch (Workflow.process_keyword E platform region) (w, ids)
      = (Ok tt, (w1, ids ++ new_ids))
    /\ for_each (payload E platform region <$> filter (fun r => well_formed r = true) batch)
         (insert_payload E) (w', ids)
      = (Ok tt, (w1', ids ++ new_ids))
    /\ same_data w1 w1'
    /\ length new_ids = length (filter (fun r => well_formed r = true) batch).
Proof.
  induction batch as [|r batch IH]; intros w w' ids HE Hkeys Hsame.
  - exists w, w', []. rewrite app_nil_r. repeat split; try reflexivity.
    + apply Hsame.
    + apply Hsame.
  - inversion Hkeys as [|? ? Hr Hrest]; subst.
    destruct (well_formed r) eqn:Hwf.
    + destruct (process_keyword_well_formed E platform region r w w' ids
                  HE Hr Hwf Hsame) as (id & w1 & w1' & H1 & H1' & Hsame1).
      destruct (IH w1 w1' (ids ++ [id]) HE Hrest Hsame1)
        as (w2 & w2' & new_ids & H2 & H2' & Hsame2 & Hlen).
      exists w2, w2', (id :: new_ids).
      rewrite filter_cons_True by exact Hwf.
      rewrite (cons_middle id ids new_ids), app_assoc.
      rewrite fmap_cons. cbn [for_each]. unfold bind.
      rewrite H1, H1'. repeat split; try assumption; try apply Hsame2.
      cbn. now rewrite Hlen.
    + destruct (process_keyword_ill_formed E platform region r w ids Hr Hwf)
        as (w1 & H1 & Hsame1).
      destruct (IH w1 w' ids HE Hrest (same_data_trans _ _ _ Hsame1 Hsame))
        as (w2 & w2' & new_ids & H2 & H2' & Hsame2 & Hlen).
      exists w2, w2', new_ids.
      rewrite filter_cons_False by (rewrite Hwf; discriminate).
      cbn [for_each]. unfold bind at 1. rewrite H1.
      repeat split; try assumption; apply Hsame2.
Qed.





(** ** Trimming *)








(** ** The Google Trends fetcher *)





(** ** More on durations *)

Lemma take_unit_raises u factor st e :
  FmtParser.take_unit u factor st = Raise e -> e = ValueError.
Proof.
  destruct st as [seconds duration]. unfold FmtParser.take_unit.
  destruct (contains u duration); [|discriminate].
  unfold unpack2.
  destruct (split u duration) as [|a [|b [|c parts]]]; cbn [rbind];
    try congruence.
  destruct (int_of_text a) as [n|e'] eqn:Hn; cbn [rbind]; [discriminate|].
  intros [= <-]. exact (int_of_text_raises _ _ Hn).
Qed.

(** Whatever [parse_duration] raises is a [ValueError]. *)
Lemma parse_duration_raises (duration : string) (e : exn) :
  FmtParser.parse_duration duration = Raise e -> e = ValueError.
Proof.
  unfold FmtParser.parse_duration. cbv zeta.
  destruct (FmtParser.take_unit "H" 3600 _) as [st1|e1] eqn:H1; cbn [rbind].
  2:{ intros [= <-]. exact (take_unit_raises _ _ _ _ H1). }
  destruct (FmtParser.take_unit "M" 60 st1) as [st2|e2] eqn:H2; cbn [rbind].
  2:{ intros [= <-]. exact (take_unit_raises _ _ _ _ H2). }
  destruct (FmtParser.take_unit "S" 1 st2) as [[seconds rest]|e3] eqn:H3;
    cbn [rbind]; [discriminate|].
  intros [= <-]. exact (take_unit_raises _ _ _ _ H3).
Qed.


Lemma replace_from_keeps_absent old c t : forall skip,
  contains c t = false -> contains c (replace_from old [] skip t) = false.
Proof.
  induction t as [|a r IH]; intros skip H; [reflexivity|].
  simpl in H. apply orb_false_iff in H as [Ha Hr].
  destruct skip as [|k]; cbn [replace_from]; [|now apply IH].
  destruct (starts_with old (a :: r)); cbn [app]; [now apply IH|].
  simpl. rewrite Ha. now apply IH.
Qed.

Lemma occurrences_app u a b :
  occurrences u (a ++ b) = (occurrences u a + occurrences u b)%nat.
Proof. unfold occurrences. now rewrite List.filter_app, length_app. Qed.

Lemma occurrences_absent u t : contains u t = false -> occurrences u t = O.
Proof.
  unfold occurrences. induction t as [|c r IH]; [reflexivity|].
  simpl. intros H. apply orb_false_iff in H as [Hc Hr].
  rewrite Hc. now apply IH.
Qed.

Lemma contains_occurrences u t : contains u t = true -> (1 <= occurrences u t)%nat.
Proof.
  unfold occurrences. induction t as [|c r IH]; [discriminate|].
  simpl. destruct (Ascii.eqb u c); simpl; [lia|]. exact IH.
Qed.

Lemma split_not_nil u t : split u t <> [].
Proof.
  destruct t as [|c r]; [discriminate|]. simpl.
  destruct (Ascii.eqb c u); [discriminate|].
  destruct (split u r); discriminate.
Qed.

Lemma split_one u t b : split u t = [b] -> t = b /\ contains u b = false.
Proof.
  revert b. induction t as [|c r IH]; intros b H.
  - simpl in H. injection H as <-. now split.
  - simpl in H. destruct (Ascii.eqb c u) eqn:Hc.
    + injection H as _ H. now apply split_not_nil in H.
    + destruct (split u r) as [|p ps] eqn:Hs;
      [now apply split_not_nil in Hs|].
      injection H as <- ->. destruct (IH p eq_refl) as [-> Hp].
      split; [reflexivity|]. simpl. now rewrite Ascii.eqb_sym, Hc.
Qed.

(** [split] cuts at every separator: two parts mean one separator. *)
Lemma split_two u t a b :
  split u t = [a; b] ->
  t = a ++ u :: b /\ contains u a = false /\ contains u b = false.
Proof.
  revert a. induction t as [|c r IH]; intros a H; [discriminate|].
  simpl in H. destruct (Ascii.eqb c u) eqn:Hc.
  - apply Ascii.eqb_eq in Hc. subst c. injection H as <- Hb.
    destruct (split_one u r b Hb) as [-> Hr]. now split.
  - destruct (split u r) as [|p ps] eqn:Hs;
      [now apply split_not_nil in Hs|].
    injection H as <- ->. destruct (IH p eq_refl) as (-> & Ha & Hb).
    split; [reflexivity|]. split; [|exact Hb].
    simpl. now rewrite Ascii.eqb_sym, Hc.
Qed.

(** What [int] accepts holds no letter. *)
Lemma digits_after_no_letter u t : forall acc z,
  plain_letter u -> digits_after acc t = Some z -> contains u t = false.
Proof.
  intros acc z (Hd & _ & Hu & _).
  assert (Hne : forall d, is_digit d = true -> Ascii.eqb u d = false).
  { intros d Hdd. apply Ascii.eqb_neq. intros ->. congruence. }
  remember (length t) as k eqn:Hk. revert t acc Hk.
  induction k as [k IH] using lt_wf_ind. intros t acc Hk H.
  destruct t as [|c r]; [reflexivity|].
  simpl in H, Hk. simpl.
  destruct (is_digit c) eqn:Hc.
  - rewrite (Hne c Hc). simpl.
    apply (IH (length r)) with (acc := 10 * acc + digit_val c);
      [lia|reflexivity|exact H].
  - destruct (Ascii.eqb c "_") eqn:Hus; [|discriminate].
    apply Ascii.eqb_eq in Hus. subst c.
    assert (Ascii.eqb u "_" = false) as -> by now apply Ascii.eqb_neq.
    destruct r as [|d r']; [discriminate|].
    destruct (is_digit d) eqn:Hdd; [|discriminate].
    simpl. rewrite (Hne d Hdd). simpl. simpl in Hk.
    apply (IH (length r')) with (acc := 10 * acc + digit_val d);
      [lia|reflexivity|exact H].
Qed.

Lemma unsigned_no_letter u t z :
  plain_letter u -> unsigned_of_text t = Some z -> contains u t = false.
Proof.
  intros Hu H. destruct t as [|c r]; [reflexivity|].
  simpl in H. destruct (is_digit c) eqn:Hc; [|discriminate].
  simpl. rewrite (digits_after_no_letter u r _ z Hu H), orb_false_r.
  apply Ascii.eqb_neq. intros ->. destruct Hu as [Hd _]. congruence.
Qed.

Lemma contains_lstrip u t :
  is_space u = false -> contains u (lstrip t) = contains u t.
Proof.
  intros Hu. induction t as [|c r IH]; [reflexivity|].
  simpl. destruct (is_space c) eqn:Hc; [|reflexivity].
  rewrite IH. assert (Ascii.eqb u c = false) as ->; [|reflexivity].
  apply Ascii.eqb_neq. intros ->. congruence.
Qed.

Lemma contains_rev u t : contains u (rev t) = contains u t.
Proof.
  induction t as [|c r IH]; [reflexivity|].
  simpl. rewrite contains_app, IH. simpl. rewrite orb_false_r. apply orb_comm.
Qed.

Lemma contains_strip_text u t :
  is_space u = false -> contains u (strip_text t) = contains u t.
Proof.
  intros Hu. unfold strip_text, rstrip.
  now rewrite contains_rev, contains_lstrip, contains_rev, contains_lstrip.
Qed.

Lemma int_of_text_no_letter u t z :
  plain_letter u -> int_of_text t = Ok z -> contains u t = false.
Proof.
  intros Hu H. pose proof Hu as (_ & Hs & _ & Hp & Hm).
  rewrite <- (contains_strip_text u t Hs).
  unfold int_of_text in H. cbv zeta in H.
  destruct (strip_text t) as [|c r] eqn:Hbody; [reflexivity|].
  destruct (Ascii.eqb c "-") eqn:Hc1.
  { apply Ascii.eqb_eq in Hc1. subst c.
    destruct (unsigned_of_text r) as [n|] eqn:Hr; [|discriminate].
    simpl. rewrite (unsigned_no_letter u r n Hu Hr), orb_false_r.
    now apply Ascii.eqb_neq. }
  destruct (Ascii.eqb c "+") eqn:Hc2.
  { apply Ascii.eqb_eq in Hc2. subst c.
    destruct (unsigned_of_text r) as [n|] eqn:Hr; [|discriminate].
    simpl. rewrite (unsigned_no_letter u r n Hu Hr), orb_false_r.
    now apply Ascii.eqb_neq. }
  destruct (unsigned_of_text (c :: r)) as [n|] eqn:Hr; [|discriminate].
  exact (unsigned_no_letter u (c :: r) n Hu Hr).
Qed.

Lemma unit_letter_plain u : unit_letter u -> plain_letter u.
Proof.
  intros [-> | [-> | ->]]; repeat split; try reflexivity; discriminate.
Qed.

(** One block of [parse_duration] that returns: its letter occurred at
    most once, the other letters of the text are all in what is left, and
    the letter itself is not. *)
Lemma take_unit_returns u factor seconds duration seconds' rest :
  FmtParser.take_unit u factor (seconds, duration) = Ok (seconds', rest) ->
  (occurrences u duration <= 1)%nat
  /\ contains u rest = false
  /\ forall v, plain_letter v -> v <> u ->
       occurrences v duration = occurrences v rest.
Proof.
  unfold FmtParser.take_unit.
  destruct (contains u duration) eqn:Hu.
  - unfold unpack2.
    destruct (split u duration) as [|a [|b [|c parts]]] eqn:Hs; cbn [rbind];
      try discriminate.
    destruct (int_of_text a) as [n|e] eqn:Hn; cbn [rbind]; [|discriminate].
    intros [= <- <-]. destruct (split_two u duration a b Hs) as (-> & Ha & Hb).
    split; [|split; [exact Hb|]].
    + rewrite occurrences_app, (occurrences_absent u a Ha).
      change (u :: b) with ([u] ++ b). rewrite occurrences_app.
      rewrite (occurrences_absent u b Hb). unfold occurrences. simpl.
      rewrite Ascii.eqb_refl. simpl. lia.
    + intros v Hv Hne. rewrite occurrences_app.
      rewrite (occurrences_absent v a (int_of_text_no_letter v a n Hv Hn)).
      change (u :: b) with ([u] ++ b). rewrite occurrences_app.
      unfold occurrences at 1. simpl.
      assert (Ascii.eqb v u = false) as -> by now apply Ascii.eqb_neq.
      reflexivity.
  - intros [= <- <-]. split; [|split; [exact Hu|reflexivity]].
    rewrite (occurrences_absent u duration Hu). lia.
Qed.

(** A duration that [parse_duration] accepts holds each unit letter at
    most once. *)
Lemma parse_duration_units_once (duration : string) (n : Z) (u : ascii) :
  FmtParser.parse_duration duration = Ok n ->
  unit_letter u ->
  (occurrences u (duration_body duration) <= 1)%nat.
Proof.
  unfold FmtParser.parse_duration, duration_body. cbv zeta.
  set (t0 := chars (replace "PT" "" duration)).
  destruct (FmtParser.take_unit "H" 3600 (0, t0)) as [[s1 t1]|e1] eqn:H1;
    cbn [rbind]; [|discriminate].
  destruct (FmtParser.take_unit "M" 60 (s1, t1)) as [[s2 t2]|e2] eqn:H2;
    cbn [rbind]; [|discriminate].
  destruct (FmtParser.take_unit "S" 1 (s2, t2)) as [[s3 t3]|e3] eqn:H3;
    cbn [rbind]; [|discriminate].
  intros _ Hu.
  destruct (take_unit_returns _ _ _ _ _ _ H1) as (HcH & _ & HoH).
  destruct (take_unit_returns _ _ _ _ _ _ H2) as (HcM & _ & HoM).
  destruct (take_unit_returns _ _ _ _ _ _ H3) as (HcS & _ & _).
  destruct Hu as [-> | [-> | ->]].
  - exact HcH.
  - rewrite (HoH "M"%char) by (try apply unit_letter_plain; unfold unit_letter;
      first [tauto|discriminate]). exact HcM.
  - rewrite (HoH "S"%char), (HoM "S"%char)
      by (try apply unit_letter_plain; unfold unit_letter;
          first [tauto|discriminate]).
    exact HcS.
Qed.

(** X1. [parse_duration] fails in one way only: whatever it raises is a
    [ValueError].  It raises it, in particular, for every duration in
    which one of the unit letters H, M, S occurs twice or more once [PT]
    is removed, such as PT1H1H: each unit is read by one
    [duration.split(letter)] that has to give exactly two parts. *)
Theorem parse_duration_rejects_with_value_error (duration : string) :
  (forall e, FmtParser.parse_duration duration = Raise e -> e = ValueError)
  /\ (forall u, unit_letter u ->
        (2 <= occurrences u (duration_body duration))%nat ->
        FmtParser.parse_duration duration = Raise ValueError).
Proof.
  split; [intros e; apply parse_duration_raises|].
  intros u Hu Htwice.
  destruct (FmtParser.parse_duration duration) as [n|e] eqn:Hrun.
  - pose proof (parse_duration_units_once duration n u Hrun Hu). lia.
  - f_equal. exact (parse_duration_raises duration e Hrun).
Qed.

Lemma parse_duration_rejects_with_value_error_witness :
  unit_letter "H" /\ (2 <= occurrences "H" (duration_body "PT1H1H"))%nat
  /\ FmtParser.parse_duration "PT1H1H" = Raise ValueError.
Proof.
  assert (Hu : unit_letter "H") by (left; reflexivity).
  assert (Htwice : (2 <= occurrences "H" (duration_body "PT1H1H"))%nat)
    by (vm_compute; lia).
  split; [exact Hu|]. split; [exact Htwice|].
  exact (proj2 (parse_duration_rejects_with_value_error "PT1H1H") "H"%char
           Hu Htwice).
Defined.

(** X2. A duration without any of the letters H, M and S is worth 0
    seconds, whatever else it holds: none of the three blocks of
    [parse_duration] runs.  So the empty text, PT, and durations in days
    or weeks only, such as P1DT or P2W, are read as 0 without an error. *)
Theorem parse_duration_without_unit_letters (duration : string) :
  contains "H" (chars duration) = false ->
  contains "M" (chars duration) = false ->
  contains "S" (chars duration) = false ->
  FmtParser.parse_duration duration = Ok 0.
Proof.
  intros HH HM HS. unfold FmtParser.parse_duration, replace. cbv zeta.
  rewrite chars_str_of.
  set (body := replace_from (chars "PT") (chars "") 0 (chars duration)).
  assert (HbH : contains "H" body = false)
    by now apply replace_from_keeps_absent.
  assert (HbM : contains "M" body = false)
    by now apply replace_from_keeps_absent.
  assert (HbS : contains "S" body = false)
    by now apply replace_from_keeps_absent.
  unfold FmtParser.take_unit. rewrite HbH. cbn [rbind].
  rewrite HbM. cbn [rbind]. rewrite HbS. reflexivity.
Qed.

Lemma parse_duration_without_unit_letters_witness :
  FmtParser.parse_duration "P1DT" = Ok 0.
Proof.
  apply parse_duration_without_unit_letters; reflexivity.
Defined.

(** ** More on the region catalog *)

Lemma get_supported_regions_eq :
  get_supported_regions = map (fun r => (value r, r)) members.
Proof. reflexivity. Qed.

Lemma table_lookup_regions key :
  table_lookup get_supported_regions key
  = match of_value key with
    | Ok r => Some r
    | Raise _ => None
    end.
Proof.
  rewrite get_supported_regions_eq. unfold table_lookup, of_value.
  induction members as [|r ms IH]; [reflexivity|].
  cbn [map List.find fst]. destruct (String.eqb (value r) key); [reflexivity|].
  exact IH.
Qed.

(** X3. The three class methods of [Region] that look a code up agree.
    [get_supported_regions] maps each code to its region, with the codes
    in definition order and no code twice; [from_code] returns what that
    mapping holds for the upper-cased code, [None] when it holds nothing;
    and [is_valid_code] answers whether it holds something. *)
Theorem supported_regions_agree_with_from_code :
  (forall code,
     from_code code = Ok (table_lookup get_supported_regions (upper code))
     /\ is_valid_code code
        = present (table_lookup get_supported_regions (upper code)))
  /\ (forall r, table_lookup get_supported_regions (value r) = Some r)
  /\ map fst get_supported_regions = map value members
  /\ NoDup (map value members).
Proof.
  split; [|split; [|split]].
  - intros code. rewrite table_lookup_regions. split.
    + unfold from_code. destruct (of_value (upper code)) as [r|e] eqn:Hv;
        [reflexivity|].
      now rewrite (of_value_raises _ _ Hv).
    + destruct (of_value (upper code)) as [r|e] eqn:Hv; cbn [present].
      * apply is_valid_code_true. exists r. now apply of_value_inv.
      * destruct (is_valid_code code) eqn:Hc; [|reflexivity].
        apply is_valid_code_true in Hc as [r Hr].
        rewrite Hr, of_value_value in Hv. discriminate.
  - intros r. now rewrite table_lookup_regions, of_value_value.
  - reflexivity.
  - apply (bool_decide_unpack _). vm_compute. reflexivity.
Qed.

(** X4. The three platform tables have an entry for every region, so that
    the default of their [get] is never used.  For every region but
    GLOBAL the Google Trends code and the YouTube code are the region's
    own code; GLOBAL has WOEID 1, the Google Trends code WORLDWIDE and no
    YouTube code.  Distinct regions have distinct WOEIDs and distinct
    Google Trends codes. *)
Theorem platform_tables_cover_every_region (r : Region) :
  (forall d, table_get TWITTER_WOEID (value r) d = get_twitter_woeid r)
  /\ (forall d, table_get GOOGLE_TRENDS_CODE (value r) d = get_google_code r)
  /\ (forall d, table_get YOUTUBE_REGION_CODE (value r) d = get_youtube_code r)
  /\ (r <> GLOBAL ->
      get_google_code r = value r /\ get_youtube_code r = Some (value r))
  /\ (r = GLOBAL ->
      get_twitter_woeid r = 1 /\ get_google_code r = "WORLDWIDE"
      /\ get_youtube_code r = None)
  /\ (forall r', get_twitter_woeid r' = get_twitter_woeid r -> r' = r)
  /\ (forall r', get_google_code r' = get_google_code r -> r' = r).
Proof.
  split; [|split; [|split; [|split; [|split; [|split]]]]].
  - intros d. now destruct r.
  - intros d. now destruct r.
  - intros d. now destruct r.
  - intros H. destruct r; try (split; reflexivity). congruence.
  - intros ->. repeat split.
  - intros r'. destruct r, r'; try reflexivity; discriminate.
  - intros r'. destruct r, r'; try reflexivity; discriminate.
Qed.

Lemma platform_tables_cover_every_region_witness :
  get_google_code JAPAN = "JP" /\ get_youtube_code JAPAN = Some "JP"
  /\ get_youtube_code GLOBAL = None.
Proof.
  split; [|split].
  - apply (proj1 (proj2 (proj2 (proj2 (platform_tables_cover_every_region JAPAN))))).
    discriminate.
  - apply (proj1 (proj2 (proj2 (proj2 (platform_tables_cover_every_region JAPAN))))).
    discriminate.
  - apply (proj1 (proj2 (proj2 (proj2 (proj2
             (platform_tables_cover_every_region GLOBAL)))))).
    reflexivity.
Defined.

(** ** The country code of the Google Trends fetcher *)





(** ** More on the repositories *)








(** X9. [update_publish_status] touches nothing but the fields
    [published] and [updated_at] of the one article that its identifier
    names.  Whatever the identifier, the value and the state of the
    store, and whether or not the driver fails: the other collections are
    as before, no article is created or removed, no identifier is used
    up, the other articles are as before, and every other field of every
    article is as before. *)
Theorem update_publish_status_frame (E : env) (id : string) (v : pyval)
    (w : world) :
  let w' := snd (DB.update_publish_status E id v w) in
  (forall c, c <> Articles -> store w' c = store w c)
  /\ next_oid (store w' Articles) = next_oid (store w Articles)
  /\ (forall o, ObjectId id <> Ok o ->
        docs (store w' Articles) !! o = docs (store w Articles) !! o)
  /\ (forall o,
        docs (store w' Articles) !! o = None
        <-> docs (store w Articles) !! o = None)
  /\ (forall o key,
        key <> "published" -> key <> "updated_at" ->
        stored_field w' Articles o key = stored_field w Articles o key).
Proof.
  cbv zeta. rewrite update_publish_status_spec.
  destruct (ObjectId id) as [o0|e]; cbv zeta.
  2:{ cbn [snd append_log store]. repeat split; try tauto; intros; congruence. }
  destruct (driver_failure E _ _).
  { cbn [snd append_log tick store]. repeat split; try tauto; intros; congruence. }
  destruct (docs (store w Articles) !! o0) as [d0|] eqn:Hd0.
  2:{ cbn [snd tick store]. repeat split; try tauto; intros; congruence. }
  destruct (decide _) as [Heq|Hne].
  { cbn [snd tick store]. repeat split; try tauto; intros; congruence. }
  cbn [snd]. split; [|split; [|split; [|split]]].
  - intros c Hc. now rewrite store_set_store_ne.
  - now rewrite store_set_store_eq.
  - intros o Ho. rewrite store_set_store_eq. cbn [docs tick store].
    rewrite lookup_insert_ne; [reflexivity|]. intros ->. now apply Ho.
  - intros o. rewrite store_set_store_eq. cbn [docs tick store].
    destruct (decide (o = o0)) as [->|Ho].
    + rewrite lookup_insert_eq, Hd0. split; discriminate.
    + now rewrite lookup_insert_ne by congruence.
  - intros o key Hp Hu. unfold stored_field.
    rewrite store_set_store_eq. cbn [docs tick store].
    destruct (decide (o = o0)) as [->|Ho].
    + rewrite lookup_insert_eq, Hd0. cbn [mbind option_bind].
      rewrite lookup_union_r; [reflexivity|].
      rewrite lookup_insert_ne by congruence.
      now rewrite lookup_singleton_ne by congruence.
    + now rewrite lookup_insert_ne by congruence.
Qed.

Lemma update_publish_status_frame_witness :
  let E := idle_env ticking_clock in
  let w' := snd (DB.update_publish_status E the_article (VBool true)
                   (one_article E)) in
  stored_field w' Articles 0%N "title" = Some (VStr "A title").
Proof.
  cbv zeta.
  rewrite (proj2 (proj2 (proj2 (proj2
            (update_publish_status_frame (idle_env ticking_clock) the_article
               (VBool true) (one_article (idle_env ticking_clock))))))
            0%N "title") by discriminate.
  vm_compute. reflexivity.
Defined.

(** ** Articles, from insertion to publication *)

(** X10. From insertion to publication.  With a store that can be reached
    and three references in native form, [insert_article] returns an
    identifier and stores the article with the publication flag as
    passed; [update_publish_status] on that identifier returns and sets
    the flag to the new value, and the article keeps its references, its
    title, its content and its creation stamp. *)
Theorem article_is_published_after_insert (E : env)
    (keyword_id transcript_id video_id language title content tags : string)
    (seo_metadata : pydict) (published b : bool) (w : world) :
  reliable_store E ->
  (next_oid (store w Articles) < 2 ^ 96)%N ->
  native_form keyword_id -> native_form transcript_id ->
  native_form video_id ->
  let o := next_oid (store w Articles) in
  exists id w1 w2 changed kid,
    DB.insert_article E (VStr keyword_id) (VStr transcript_id) (VStr video_id)
      (VStr language) (VStr title) (VStr content) (VStr tags)
      (VDict seo_metadata) (VBool published) w = (Ok id, w1)
    /\ DB.update_publish_status E id (VBool b) w1 = (Ok changed, w2)
    /\ ObjectId keyword_id = Ok kid
    /\ stored_field w1 Articles o "published" = Some (VBool published)
    /\ stored_field w2 Articles o "published" = Some (VBool b)
    /\ stored_field w2 Articles o "keyword_id" = Some (VOid kid)
    /\ stored_field w2 Articles o "title" = Some (VStr title)
    /\ stored_field w2 Articles o "content" = Some (VStr content)
    /\ stored_field w2 Articles o "created_at"
       = stored_field w1 Articles o "created_at".
Proof.
  intros HE Hbound Hk Ht Hv. cbv zeta.
  destruct (ObjectId_native _ Hk) as [kid Hkid].
  destruct (ObjectId_native _ Ht) as [tid Htid].
  destruct (ObjectId_native _ Hv) as [vid Hvid].
  unfold DB.insert_article, DB.check_type, DB.now.
  cbn [isinstance_str isinstance_dict isinstance_bool DB.text_of].
  unfold bind at 1 2 3 4 5 6 7 8 9 10. cbn [ret].
  unfold bind at 1 2 3, of_result. rewrite Hkid, Htid, Hvid.
  unfold try_except. rewrite insert_one_spec. cbv zeta. rewrite HE.
  cbn [tick ticks store].
  set (o := next_oid (store w Articles)).
  set (d := <["_id" := VOid o]> _).
  set (w1 := set_store Articles _ _).
  assert (Hid : ObjectId (oid_str o) = Ok o)
    by now rewrite ObjectId_oid_str, N.mod_small.
  assert (Hd1 : docs (store w1 Articles) !! o = Some d).
  { unfold w1. rewrite store_set_store_eq. cbn [docs]. apply lookup_insert_eq. }
  destruct (update_publish_status_ok E (oid_str o) (VBool b) w1)
    as [changed Hchanged].
  destruct (update_publish_status_first E (oid_str o) (VBool b) w1 o HE Hid)
    as [_ Hd2].
  rewrite Hd1 in Hd2. cbn [fmap option_fmap option_map] in Hd2.
  exists (oid_str o), w1, (snd (DB.update_publish_status E (oid_str o)
                                  (VBool b) w1)), changed, kid.
  split; [reflexivity|]. split; [now apply pair_of_fst|].
  split; [reflexivity|].
  unfold stored_field. rewrite Hd1, Hd2. cbn [mbind option_bind].
  split; [reflexivity|]. split; [apply set_fields_published|].
  assert (Hkeep : forall key, key <> "published" -> key <> "updated_at" ->
            (<["updated_at" := VDate (clock E (ticks w1))]>
               {["published" := VBool b]} ∪ d : doc) !! key = d !! key).
  { intros key H1 H2. rewrite lookup_union_r; [reflexivity|].
    rewrite lookup_insert_ne by congruence.
    now rewrite lookup_singleton_ne by congruence. }
  rewrite !Hkeep by discriminate. repeat split; reflexivity.
Qed.

Lemma article_is_published_after_insert_witness :
  exists id w1 w2 changed,
    DB.insert_article (idle_env ticking_clock)
      (VStr "0123456789abcdef01234567") (VStr "0123456789abcdef01234567")
      (VStr "0123456789abcdef01234567") (VStr "en") (VStr "A title")
      (VStr "Some content") (VStr "tag") (VDict []) (VBool false)
      empty_world = (Ok id, w1)
    /\ DB.update_publish_status (idle_env ticking_clock) id (VBool true) w1
       = (Ok changed, w2)
    /\ stored_field w2 Articles 0%N "published" = Some (VBool true).
Proof.
  destruct (article_is_published_after_insert (idle_env ticking_clock)
              "0123456789abcdef01234567" "0123456789abcdef01234567"
              "0123456789abcdef01234567" "en" "A title" "Some content" "tag"
              [] false true empty_world (reliable_idle ticking_clock) eq_refl
              native_form_example native_form_example native_form_example)
    as (id & w1 & w2 & changed & kid & Hins & Hupd & _ & _ & Hpub & _).
  exists id, w1, w2, changed. split; [exact Hins|]. split; [exact Hupd|].
  exact Hpub.
Defined.

(** ** Stating what a computation does *)

Section triples.

Context {S : Type}.

Lemma triple_ret {A} (P : S -> Prop) (a : A) Q R :
  (forall s, P s -> Q a s) -> triple P (ret a) Q R.
Proof. intros H s Hs. now apply H. Qed.

Lemma triple_raise {A} (P : S -> Prop) e (Q : A -> S -> Prop) (R : S -> Prop) :
  (forall s, P s -> R s) -> triple P (raise e) Q R.
Proof. intros H s Hs. now apply H. Qed.

Lemma triple_of_result {A} (P : S -> Prop) (r : result A) Q (R : S -> Prop) :
  (forall a s, r = Ok a -> P s -> Q a s) -> (forall s, P s -> R s) ->
  triple P (of_result r) Q R.
Proof.
  intros HQ HR s Hs. unfold of_result. destruct r; [now apply HQ|now apply HR].
Qed.

Lemma triple_bind {A B} (P : S -> Prop) (m : M S A) (k : A -> M S B)
    (Q1 : A -> S -> Prop) Q R :
  triple P m Q1 R -> (forall a, triple (Q1 a) (k a) Q R) ->
  triple P (bind m k) Q R.
Proof.
  intros Hm Hk s Hs. unfold bind. specialize (Hm s Hs).
  destruct (m s) as [[a|e] s']; [now apply Hk|exact Hm].
Qed.

Lemma triple_modify (P : S -> Prop) (f : S -> S) Q (R : S -> Prop) :
  (forall s, P s -> Q tt (f s)) -> triple P (modify f) Q R.
Proof. intros H s Hs. now apply H. Qed.

Lemma triple_try_except {A} (P : S -> Prop) (body : M S A) catches handler
    Q (R1 R : S -> Prop) :
  triple P body Q R1 ->
  (forall e, catches e = true -> triple R1 (handler e) Q R) ->
  (forall s, R1 s -> R s) ->
  triple P (try_except body catches handler) Q R.
Proof.
  intros Hb Hh HR s Hs. unfold try_except. specialize (Hb s Hs).
  destruct (body s) as [[a|e] s']; [exact Hb|].
  destruct (catches e) eqn:Hc; [now apply Hh|now apply HR].
Qed.

Lemma triple_for_each {A} (I : S -> Prop) (xs : list A) body (R : S -> Prop) :
  (forall x, x ∈ xs -> triple I (body x) (fun _ => I) R) ->
  triple I (for_each xs body) (fun _ => I) R.
Proof.
  induction xs as [|x r IH]; intros Hb; [now apply triple_ret|].
  cbn [for_each]. apply triple_bind with (Q1 := fun _ => I).
  - apply Hb. apply list_elem_of_here.
  - intros _. apply IH. intros y Hy. apply Hb. now apply list_elem_of_further.
Qed.

Lemma triple_weaken {A} (P P' : S -> Prop) (m : M S A)
    (Q Q' : A -> S -> Prop) (R R' : S -> Prop) :
  triple P' m Q' R' -> (forall s, P s -> P' s) ->
  (forall a s, Q' a s -> Q a s) -> (forall s, R' s -> R s) ->
  triple P m Q R.
Proof.
  intros Hm HP HQ HR s Hs. specialize (Hm s (HP s Hs)).
  destruct (m s) as [[a|e] s']; [now apply HQ|now apply HR].
Qed.

End triples.

Section triples_with_local.

Context {L : Type}.

Lemma triple_in_world {A} (P : world * L -> Prop) (m : M world A) Q R :
  (forall l, triple (fun w => P (w, l)) m (fun a w => Q a (w, l))
               (fun w => R (w, l))) ->
  triple P (Workflow.in_world m) Q R.
Proof.
  intros Hm [w l] Hs. unfold Workflow.in_world. specialize (Hm l w Hs).
  now destruct (m w) as [[a|e] w'].
Qed.

Lemma triple_local (P : world * L -> Prop) (f : L -> L) Q
    (R : world * L -> Prop) :
  (forall w l, P (w, l) -> Q tt (w, f l)) -> triple P (Workflow.local f) Q R.
Proof. intros H [w l] Hs. now apply H. Qed.

Lemma triple_returning (P : world -> Prop) (init : L) body
    (I : world * L -> Prop) (Q : L -> world -> Prop) (R : world -> Prop) :
  triple I body (fun _ => I) I ->
  (forall w, P w -> I (w, init)) ->
  (forall w l, I (w, l) -> Q l w) -> (forall w l, I (w, l) -> R w) ->
  triple P (Workflow.returning init body) Q R.
Proof.
  intros Hb HP HQ HR w Hw. unfold Workflow.returning.
  specialize (Hb (w, init) (HP w Hw)).
  destruct (body (w, init)) as [[[]|e] [w' l]]; [now apply HQ|now apply (HR w' l)].
Qed.

End triples_with_local.

(** *** What the repositories do to the stores *)

Lemma same_stores_refl w : same_stores w w.
Proof. now intros c. Qed.

Lemma same_stores_trans w1 w2 w3 :
  same_stores w1 w2 -> same_stores w2 w3 -> same_stores w1 w3.
Proof. intros H1 H2 c. now rewrite H1. Qed.

Lemma inserted_same_stores c d w0 w w' w1 :
  same_stores w0 w -> inserted c d w w' -> same_stores w' w1 ->
  inserted c d w0 w1.
Proof.
  intros H0 [Hc Hother] H1. split.
  - now rewrite <- H1, Hc, H0.
  - intros c' Hc'. now rewrite <- H1, Hother, H0.
Qed.

Lemma insert_one_effect E c (data : doc) w :
    match DB.insert_one E c data w with
    | (Ok id, w') =>
        id = oid_str (next_oid (store w c))
        /\ exists d, inserted c d w w' /\ stored_copy data d
    | (Raise _, w') => same_stores w w'
    end.
Proof.
  rewrite insert_one_spec. cbv zeta.
  destruct (driver_failure E _ _); [intros c'; reflexivity|].
  split; [reflexivity|]. eexists. split.
  - split.
    + rewrite store_set_store_eq. reflexivity.
    + intros c' Hc. now rewrite store_set_store_ne.
  - split; [rewrite lookup_insert_eq; eauto|].
    split; [rewrite !lookup_insert_ne by discriminate;
            rewrite lookup_insert_eq; eauto|].
    split; [rewrite lookup_insert_ne by discriminate;
            rewrite lookup_insert_eq; eauto|].
    intros key H1 H2 H3. now rewrite !lookup_insert_ne by congruence.
Qed.

(** ** Effects *)

Lemma guarded_insert_effect E c (data : doc) w :
  match try_except (DB.insert_one E c data) any_exception
          (DB.log_and_reraise c) w with
  | (Ok id, w') =>
      id = oid_str (next_oid (store w c))
      /\ exists d, inserted c d w w' /\ stored_copy data d
  | (Raise _, w') => same_stores w w'
  end.
Proof.
  unfold try_except. pose proof (insert_one_effect E c data w) as H.
  destruct (DB.insert_one E c data w) as [[id|e] w']; [exact H|].
  cbn. exact H.
Qed.

Lemma stored_copy_lookup (data d : doc) key v :
  stored_copy data d -> data !! key = Some v ->
  key <> "_id" -> key <> "created_at" -> key <> "updated_at" ->
  d !! key = Some v.
Proof. intros (_ & _ & _ & H) Hv H1 H2 H3. now rewrite H. Qed.

Lemma insert_keyword_effect E k r s p rg md w :
  match DB.insert_keyword E k r s p rg md w with
  | (Ok id, w') =>
      id = oid_str (next_oid (store w Keywords))
      /\ keyword_types_ok k r s p rg md = true
      /\ exists d, inserted Keywords d w w'
           /\ d !! "keyword" = Some k /\ d !! "rank" = Some r
           /\ d !! "score" = Some s /\ d !! "platform" = Some p
           /\ d !! "region" = Some rg
  | (Raise _, w') => same_stores w w'
  end.
Proof.
  unfold DB.insert_keyword, keyword_types_ok.
  repeat match goal with
  | |- context [bind (DB.check_type _ ?b) _ _] =>
      destruct b eqn:?;
      [unfold bind at 1; cbn [DB.check_type ret]|intros c'; reflexivity]
  end.
  unfold bind at 1, DB.now.
  match goal with
  | |- context [try_except (DB.insert_one E Keywords ?data) _ _ ?w1] =>
      pose proof (guarded_insert_effect E Keywords data w1) as H;
      destruct (try_except (DB.insert_one E Keywords data) any_exception
                  (DB.log_and_reraise Keywords) w1) as [[id|e] w']
  end.
  - destruct H as (-> & d & Hins & Hd). split; [reflexivity|].
    split; [reflexivity|]. exists d. split; [exact Hins|].
    repeat split; (eapply stored_copy_lookup; [exact Hd|reflexivity|..]);
      discriminate.
  - exact H.
Qed.

Lemma insert_video_effect E a1 a2 a3 a4 a5 a6 a7 a8 a9 a10 a11 w :
  match DB.insert_video E a1 a2 a3 a4 a5 a6 a7 a8 a9 a10 a11 w with
  | (Ok id, w') =>
      id = oid_str (next_oid (store w Videos))
      /\ video_types_ok a1 a2 a3 a4 a5 a6 a7 a8 a9 a10 a11 = true
      /\ exists d kid, inserted Videos d w w'
           /\ ObjectId (DB.text_of a1) = Ok kid
           /\ d !! "keyword_id" = Some (VOid kid)
           /\ d !! "video_url" = Some a4
           /\ d !! "video_youtube_id" = Some a5
           /\ d !! "video_title" = Some a6
  | (Raise _, w') => same_stores w w'
  end.
Proof.
  unfold DB.insert_video, video_types_ok.
  repeat match goal with
  | |- context [bind (require ?b _) _ _] =>
      destruct b eqn:?;
      [unfold bind at 1; cbn [require ret]|intros c'; reflexivity]
  end.
  unfold bind at 1, DB.now. unfold bind at 1, of_result.
  destruct (ObjectId (DB.text_of a1)) as [kid|e]; [|intros c'; reflexivity].
  match goal with
  | |- context [try_except (DB.insert_one E Videos ?data) _ _ ?w1] =>
      pose proof (guarded_insert_effect E Videos data w1) as H;
      destruct (try_except (DB.insert_one E Videos data) any_exception
                  (DB.log_and_reraise Videos) w1) as [[id|e] w']
  end.
  - destruct H as (-> & d & Hins & Hd). split; [reflexivity|].
    split; [reflexivity|]. exists d, kid. split; [exact Hins|].
    split; [reflexivity|].
    repeat split; (eapply stored_copy_lookup; [exact Hd|reflexivity|..]);
      discriminate.
  - exact H.
Qed.

Lemma insert_transcript_effect E video_id transcript language w :
  match DB.insert_transcript E video_id transcript language w with
  | (Ok id, w') =>
      id = oid_str (next_oid (store w Transcripts))
      /\ exists d vid, inserted Transcripts d w w'
           /\ isinstance_str video_id = true
           /\ ObjectId (DB.text_of video_id) = Ok vid
           /\ d !! "video_id" = Some (VOid vid)
           /\ d !! "transcript" = Some transcript
           /\ d !! "language" = Some language
  | (Raise _, w') => same_stores w w'
  end.
Proof.
  unfold DB.insert_transcript.
  repeat match goal with
  | |- context [bind (DB.check_type _ ?b) _ _] =>
      destruct b eqn:?;
      [unfold bind at 1; cbn [DB.check_type ret]|intros c'; reflexivity]
  end.
  unfold bind at 1, DB.now. unfold bind at 1, of_result.
  destruct (ObjectId (DB.text_of video_id)) as [vid|e];
    [|intros c'; reflexivity].
  match goal with
  | |- context [try_except (DB.insert_one E Transcripts ?data) _ _ ?w1] =>
      pose proof (guarded_insert_effect E Transcripts data w1) as H;
      destruct (try_except (DB.insert_one E Transcripts data) any_exception
                  (DB.log_and_reraise Transcripts) w1) as [[id|e] w']
  end.
  - destruct H as (-> & d & Hins & Hd). split; [reflexivity|].
    exists d, vid. split; [exact Hins|]. split; [reflexivity|].
    split; [reflexivity|].
    repeat split; (eapply stored_copy_lookup; [exact Hd|reflexivity|..]);
      discriminate.
  - exact H.
Qed.

(** *** Keeping account of the records added *)

Lemma accounted_same_stores c P w0 w w' ids :
  same_stores w w' -> accounted c P w0 (w, ids) -> accounted c P w0 (w', ids).
Proof.
  intros Hs (Hwf & Hsize & Hold & Hframe & Hids & Hos).
  unfold accounted in *. cbn [fst snd] in *. rewrite <- (Hs c).
  split; [exact Hwf|]. split; [exact Hsize|]. split; [exact Hold|].
  split; [|split; [exact Hids|exact Hos]].
  intros c' Hc. now rewrite <- Hs, Hframe.
Qed.

Lemma accounted_tick c P w0 w ids :
  accounted c P w0 (w, ids) -> accounted c P w0 (tick w, ids).
Proof. intros H. exact H. Qed.

Lemma accounted_log c P w0 w ids l m :
  accounted c P w0 (w, ids) -> accounted c P w0 (append_log l m w, ids).
Proof. intros H. exact H. Qed.

(** A record added under the next identifier is accounted for by that
    identifier. *)
Lemma accounted_insert c (P : doc -> Prop) w0 w w' ids d :
  accounted c P w0 (w, ids) -> inserted c d w w' -> P d ->
  accounted c P w0 (w', ids ++ [oid_str (next_oid (store w c))]).
Proof.
  intros (Hwf & Hsize & Hold & Hframe & Hids & Hos) [Hc Hother] Hd.
  unfold accounted in *. cbn [fst snd] in *.
  assert (Hfresh : docs (store w c) !! next_oid (store w c) = None).
  { destruct (docs (store w c) !! next_oid (store w c)) eqn:Hl; [|reflexivity].
    assert (H : (next_oid (store w c) < next_oid (store w c))%N)
      by (apply Hwf; eexists; exact Hl).
    lia. }
  assert (Hnone : docs (store w0 c) !! next_oid (store w c) = None).
  { destruct (docs (store w0 c) !! next_oid (store w c)) eqn:Hl;
      [|reflexivity].
    apply Hold in Hl. congruence. }
  rewrite Hc. unfold wf_collection in *. cbn [docs next_oid].
  split; [|split; [|split; [|split; [|split]]]].
  - intros o [x Hx]. destruct (decide (o = next_oid (store w c))) as [->|Hne].
    + apply N.lt_succ_diag_r.
    + rewrite lookup_insert_ne in Hx by congruence.
      assert (Hlt : (o < next_oid (store w c))%N)
        by (apply Hwf; eexists; exact Hx).
      apply N.lt_lt_succ_r. exact Hlt.
  - rewrite map_size_insert_None by exact Hfresh.
    rewrite Hsize, length_app. simpl. lia.
  - intros o x Hx. rewrite lookup_insert_ne; [now apply Hold|].
    intros <-. apply Hold in Hx. congruence.
  - intros c' Hc'. now rewrite Hother, Hframe.
  - apply Forall_app. split.
    + eapply Forall_impl; [exact Hids|].
      intros id (o & x & -> & Hx & Hnew & Hp). exists o, x.
      split; [reflexivity|]. split; [|split; assumption].
      rewrite lookup_insert_ne; [exact Hx|]. intros <-. congruence.
    + apply Forall_singleton. exists (next_oid (store w c)), d.
      split; [reflexivity|]. split; [apply lookup_insert_eq|].
      split; [exact Hnone|exact Hd].
  - destruct Hos as (os & -> & Hnd & Hiff).
    exists (os ++ [next_oid (store w c)]).
    split; [now rewrite map_app|]. split.
    + apply NoDup_app. split; [exact Hnd|]. split; [|apply NoDup_singleton].
      intros o Ho Hlast. apply list_elem_of_singleton in Hlast. subst o.
      apply Hiff in Ho as [[x Hx] _]. congruence.
    + intros o. rewrite elem_of_app, list_elem_of_singleton, Hiff.
      destruct (decide (o = next_oid (store w c))) as [->|Hne].
      * rewrite lookup_insert_eq. split; [|intros _; now right].
        intros _. split; [eexists; reflexivity|exact Hnone].
      * rewrite lookup_insert_ne by congruence.
        split; [intros [H|H]; [exact H|congruence]|intros H; now left].
Qed.

Lemma accounted_start c P w : wf_collection (store w c) -> accounted c P w (w, []).
Proof.
  intros Hwf. unfold accounted. cbn [fst snd length].
  split; [exact Hwf|]. split; [lia|]. split; [tauto|]. split; [reflexivity|].
  split; [constructor|]. exists []. split; [reflexivity|].
  split; [apply NoDup_nil_2|]. intros o. split.
  - intros H. now apply elem_of_nil in H.
  - intros [[d Hd] Hnone]. congruence.
Qed.

Lemma triple_of_preserves {S A} (I : S -> Prop) (m : M S A) :
  preserves I m -> triple I m (fun _ => I) I.
Proof.
  intros H s Hs. specialize (H s Hs). now destruct (m s) as [[a|e] s'].
Qed.

Lemma preserves_of_triple {S A} (I : S -> Prop) (m : M S A) :
  triple I m (fun _ => I) I -> preserves I m.
Proof.
  intros H s Hs. specialize (H s Hs). now destruct (m s) as [[a|e] s'].
Qed.

Lemma preserves_in_world_joint {L A} (I : world * L -> Prop) (m : M world A) :
  (forall l, preserves (fun w => I (w, l)) m) ->
  preserves I (Workflow.in_world m).
Proof.
  intros Hm [w l] Hs. unfold Workflow.in_world. specialize (Hm l w Hs).
  now destruct (m w).
Qed.

Lemma preserves_for_each_in {S A} (I : S -> Prop) (xs : list A) body :
  (forall x, x ∈ xs -> preserves I (body x)) -> preserves I (for_each xs body).
Proof.
  intros H. apply preserves_of_triple, triple_for_each.
  intros x Hx. now apply triple_of_preserves, H.
Qed.

(** A step that only reads the stores, ticks the clock or writes the log
    keeps the account. *)
Lemma preserves_same_stores {A} c P w0 ids (m : M world A) :
  (forall w, same_stores w (snd (m w))) ->
  preserves (fun w => accounted c P w0 (w, ids)) m.
Proof. intros H w Hw. eapply accounted_same_stores; [apply H|exact Hw]. Qed.

Lemma find_by_id_same_stores E c id w :
  same_stores w (snd (DB.find_by_id E c id w)).
Proof.
  unfold DB.find_by_id, DB.driver_find_one, DB.driver_request, bind, of_result.
  destruct (ObjectId id); [|apply same_stores_refl].
  destruct (driver_failure E _ _); apply same_stores_refl.
Qed.

Lemma now_same_stores E w : same_stores w (snd (DB.now E w)).
Proof. intros c. reflexivity. Qed.

Lemma logger_same_stores l m w : same_stores w (snd (logger l m w)).
Proof. intros c. reflexivity. Qed.

(** One step in the proof that a loop body keeps the account. *)
Ltac account_step :=
  lazymatch goal with
  | |- preserves _ (Workflow.in_world (DB.now _)) =>
      apply preserves_in_world_joint; intros ?; apply preserves_same_stores;
      intros ?; apply now_same_stores
  | |- preserves _ (Workflow.in_world (logger _ _)) =>
      apply preserves_in_world_joint; intros ?; apply preserves_same_stores;
      intros ?; apply logger_same_stores
  | |- preserves _ (Workflow.in_world (DB.find_by_id _ _ _)) =>
      apply preserves_in_world_joint; intros ?; apply preserves_same_stores;
      intros ?; apply find_by_id_same_stores
  | |- _ => preserves_step
  end.

Section keyword_stage.

Variable E : env.
Variable w0 : world.

Lemma process_keyword_accounted platform region r :
  preserves (accounted Keywords keyword_record w0)
    (Workflow.process_keyword E platform region r).
Proof.
  unfold Workflow.process_keyword.
  apply preserves_try_except; [|intros e; repeat account_step].
  apply preserves_bind; [apply preserves_of_result|intros d].
  apply preserves_of_triple.
  eapply triple_bind; [|intros id; apply triple_bind with (Q1 := fun _ => accounted Keywords keyword_record w0)].
  - apply triple_in_world with
      (Q := fun id s => accounted Keywords keyword_record w0
                          (fst s, snd s ++ [id])).
    intros ids w Hw.
    pose proof (insert_keyword_effect E (VStr (Workflow.d_keyword d))
                  (VInt (Workflow.d_rank d)) (VInt (Workflow.d_score d))
                  (VStr (Workflow.d_platform d)) (VStr (Workflow.d_region d))
                  (VDict (Workflow.d_metadata d)) w) as H.
    destruct (DB.insert_keyword _ _ _ _ _ _ _ w) as [[id|e] w'].
    + destruct H as (-> & _ & doc & Hins & Hk & Hr & Hs & Hp & Hrg).
      cbn [fst snd]. eapply accounted_insert; [exact Hw|exact Hins|].
      red. eauto 10.
    + eapply accounted_same_stores; [exact H|exact Hw].
  - apply triple_local. intros w ids H. exact H.
  - intros _. apply triple_of_preserves. account_step.
Qed.

Lemma fetch_trending_keywords_accounted :
  preserves (accounted Keywords keyword_record w0)
    (for_each (keyword_fetchers E) (fun '(region, fetchers) =>
       for_each fetchers (Workflow.process_fetcher E region))).
Proof.
  apply preserves_for_each. intros [region fetchers].
  apply preserves_for_each. intros [platform fetched].
  unfold Workflow.process_fetcher.
  apply preserves_try_except; [|intros e; account_step].
  apply preserves_bind; [apply preserves_of_result|intros keywords].
  apply preserves_bind; [account_step|intros _].
  apply preserves_for_each. intros r. apply process_keyword_accounted.
Qed.

End keyword_stage.

(** X11. The keyword stage accounts for what it stores.  From a keyword
    collection whose identifiers are below the next one,
    [fetch_trending_keywords] returns, and the identifiers it returns are
    those of the records it added, one each: the collection has grown by
    exactly their number, every identifier returned names a record that is
    new and that holds a text keyword, an integer rank and score, and a
    text platform and region; the records named are pairwise distinct,
    and every record that is new is named.  The records that were there
    are untouched, and so are the other collections. *)
Theorem fetch_trending_keywords_accounts_for_its_records (E : env)
    (w : world) :
  wf_collection (store w Keywords) ->
  exists ids w',
    Workflow.fetch_trending_keywords E w = (Ok ids, w')
    /\ wf_collection (store w' Keywords)
    /\ size (docs (store w' Keywords))
       = (size (docs (store w Keywords)) + length ids)%nat
    /\ (forall o d, docs (store w Keywords) !! o = Some d ->
          docs (store w' Keywords) !! o = Some d)
    /\ (forall c, c <> Keywords -> store w' c = store w c)
    /\ Forall (fun id => exists o d,
                 id = oid_str o
                 /\ docs (store w' Keywords) !! o = Some d
                 /\ docs (store w Keywords) !! o = None
                 /\ keyword_record d) ids
    /\ exists os,
         ids = map oid_str os /\ NoDup os
         /\ forall o, o ∈ os
                      <-> is_Some (docs (store w' Keywords) !! o)
                          /\ docs (store w Keywords) !! o = None.
Proof.
  intros Hwf.
  pose proof (fetch_trending_keywords_accounted E w (w, [])
                (accounted_start Keywords keyword_record w Hwf)) as H.
  unfold Workflow.fetch_trending_keywords, Workflow.returning, bind.
  destruct (for_each (keyword_fetchers E) _ (w, [])) as [[[]|e] [w' ids]] eqn:Hloop.
  - cbn [snd] in H.
    destruct (negb (truthy (VList (VStr <$> ids)))).
    + exists ids, (append_log WARNING No_keywords_fetched w').
      split; [reflexivity|]. exact H.
    + exists ids, w'. split; [reflexivity|]. exact H.
  - exfalso.
    assert (Hnr : never_raises
              (for_each (keyword_fetchers E) (fun '(region, fetchers) =>
                 for_each fetchers (Workflow.process_fetcher E region)))).
    { apply never_raises_for_each. intros [region fetchers].
      apply never_raises_for_each. intros entry.
      apply never_raises_process_fetcher. }
    destruct (Hnr (w, [])) as [a Ha]. rewrite Hloop in Ha. discriminate.
Qed.

Lemma wf_empty_collection : wf_collection empty_collection.
Proof. intros o [d Hd]. cbn in Hd. rewrite lookup_empty in Hd. discriminate. Defined.

Lemma fetch_trending_keywords_accounts_for_its_records_witness :
  let E := demo_env [demo_record "python" 1; record_with_bad_rank]
             finds_A_and_B downloads_all in
  wf_collection (store empty_world Keywords)
  /\ exists ids w',
       Workflow.fetch_trending_keywords E empty_world = (Ok ids, w')
       /\ size (docs (store w' Keywords)) = length ids.
Proof.
  cbv zeta. split; [exact wf_empty_collection|].
  destruct (fetch_trending_keywords_accounts_for_its_records
              (demo_env [demo_record "python" 1; record_with_bad_rank]
                 finds_A_and_B downloads_all)
              empty_world wf_empty_collection)
    as (ids & w' & Hrun & _ & Hsize & _).
  exists ids, w'. split; [exact Hrun|exact Hsize].
Defined.

(** ** The search stage, record by record *)

Section search_stage.

Variable E : env.
Variable w0 : world.
Variable keyword_ids : list string.

Lemma process_video_accounted keyword_id k video :
  keyword_id ∈ keyword_ids -> ObjectId keyword_id = Ok k ->
  is_Some (docs (store w0 Keywords) !! k) ->
  preserves (videos_accounted keyword_ids w0) (Workflow.process_video E keyword_id video).
Proof.
  intros Hin Hk Hstored. unfold Workflow.process_video.
  do 12 (apply preserves_bind; [apply preserves_of_result|intros ?]).
  apply preserves_of_triple.
  eapply triple_bind;
    [|intros id; apply triple_bind with (Q1 := fun _ => videos_accounted keyword_ids w0)].
  - apply triple_in_world with (Q := fun id s => videos_accounted keyword_ids w0
                          (fst s, snd s ++ [id])).
    intros ids w Hw.
    match goal with
    | |- context [DB.insert_video E ?a1 ?a2 ?a3 ?a4 ?a5 ?a6 ?a7 ?a8 ?a9 ?a10 ?a11 w] =>
        pose proof (insert_video_effect E a1 a2 a3 a4 a5 a6 a7 a8 a9 a10 a11 w)
          as H;
        destruct (DB.insert_video E a1 a2 a3 a4 a5 a6 a7 a8 a9 a10 a11 w)
          as [[id|e] w']
    end.
    + destruct H as (-> & _ & doc & kid & Hins & Hkid & Hd & _).
      cbn [fst snd]. eapply accounted_insert; [exact Hw|exact Hins|].
      exists k, keyword_id. cbn [DB.text_of] in Hkid.
      rewrite Hk in Hkid. injection Hkid as <-. now repeat split.
    + eapply accounted_same_stores; [exact H|exact Hw].
  - apply triple_local. intros w ids H. exact H.
  - intros _. apply triple_of_preserves. account_step.
Qed.

Lemma search_keyword_accounted keyword_id :
  keyword_id ∈ keyword_ids ->
  preserves (videos_accounted keyword_ids w0) (Workflow.search_keyword E keyword_id).
Proof.
  intros Hin [w ids] Hs. unfold Workflow.search_keyword.
  unfold bind at 1, Workflow.in_world at 1.
  unfold DB.find_by_id, DB.driver_find_one, DB.driver_request, bind at 1 2,
    of_result at 1.
  destruct (ObjectId keyword_id) as [k|e] eqn:Hk; [|exact Hs].
  destruct (driver_failure E _ _); [exact Hs|].
  unfold Workflow.found.
  destruct (docs (store w Keywords) !! k) as [d|] eqn:Hd; [|exact Hs].
  destruct (decide (d = ∅)); [exact Hs|].
  assert (Hstored : is_Some (docs (store w0 Keywords) !! k)).
  { destruct Hs as (_ & _ & _ & Hframe & _). cbn [fst] in Hframe.
    rewrite <- Hframe by discriminate. eexists. exact Hd. }
  revert Hs. generalize (w, ids).
  fold (preserves (videos_accounted keyword_ids w0)
    (let! query := of_result (Workflow.doc_field d "keyword") in
     let! now := Workflow.in_world (DB.now E) in
     let! region_code := of_result (Workflow.doc_field d "region") in
     let! videos_found :=
       of_result (search E query 3 (now - Workflow.seven_days) region_code) in
     for_each videos_found (Workflow.process_video E keyword_id))).
  repeat first
    [ apply (process_video_accounted keyword_id k); assumption
    | account_step ].
Qed.

Lemma search_loop_accounted :
  preserves (videos_accounted keyword_ids w0) (for_each keyword_ids (Workflow.search_keyword E)).
Proof.
  apply preserves_for_each_in. intros keyword_id Hin.
  now apply search_keyword_accounted.
Qed.

End search_stage.

(** X12. The search stage accounts for what it stores.  When
    [search_videos] returns, from a video collection whose identifiers
    are below the next one, the identifiers it returns are those of the
    video records it added, one each: the collection has grown by exactly
    their number, and every identifier returned names a new record whose
    [keyword_id] is the identifier of a stored keyword record, one of
    those the stage was given; the records named are pairwise distinct,
    and every record that is new is named.  The records that were there
    are untouched, and so are the other collections. *)
Theorem search_videos_accounts_for_its_records (E : env)
    (keyword_ids video_ids : list string) (w w' : world) :
  wf_collection (store w Videos) ->
  Workflow.search_videos E keyword_ids w = (Ok video_ids, w') ->
  wf_collection (store w' Videos)
  /\ size (docs (store w' Videos))
     = (size (docs (store w Videos)) + length video_ids)%nat
  /\ (forall o d, docs (store w Videos) !! o = Some d ->
        docs (store w' Videos) !! o = Some d)
  /\ (forall c, c <> Videos -> store w' c = store w c)
  /\ Forall (fun id => exists o d k keyword_id,
               id = oid_str o
               /\ docs (store w' Videos) !! o = Some d
               /\ docs (store w Videos) !! o = None
               /\ d !! "keyword_id" = Some (VOid k)
               /\ keyword_id ∈ keyword_ids
               /\ ObjectId keyword_id = Ok k
               /\ is_Some (docs (store w' Keywords) !! k)) video_ids
  /\ exists os,
       video_ids = map oid_str os /\ NoDup os
       /\ forall o, o ∈ os
                    <-> is_Some (docs (store w' Videos) !! o)
                        /\ docs (store w Videos) !! o = None.
Proof.
  intros Hwf Hrun.
  pose proof (search_loop_accounted E w keyword_ids (w, [])
                (accounted_start Videos _ w Hwf)) as H.
  unfold Workflow.search_videos, Workflow.returning in Hrun.
  destruct (for_each keyword_ids _ (w, [])) as [[[]|e] [w1 ids]];
    [|discriminate].
  assert (Hids : ids = video_ids) by congruence.
  assert (Hw : w1 = w') by congruence. subst ids w1. clear Hrun.
  destruct H as (H1 & H2 & H3 & H4 & H5 & H6).
  cbn [fst snd] in *. do 4 (split; [assumption|]). split; [|exact H6].
  eapply Forall_impl; [exact H5|].
  intros id (o & d & -> & Hd & Hnew & k & keyword_id & Hk & Hin & Hoid & Hst).
  exists o, d, k, keyword_id. split; [reflexivity|].
  repeat (split; [assumption|]).
  now rewrite H4 by discriminate.
Qed.

Lemma search_videos_accounts_for_its_records_witness :
  let E := demo_env [demo_record "python" 1] finds_A_and_B downloads_all in
  let w := snd (Workflow.fetch_trending_keywords E empty_world) in
  wf_collection (store w Videos)
  /\ fst (Workflow.search_videos E [oid_str 0%N] w)
     = Ok [oid_str 0%N; oid_str 1%N]
  /\ size (docs (store (snd (Workflow.search_videos E [oid_str 0%N] w)) Videos))
     = 2%nat.
Proof.
  cbv zeta.
  set (E := demo_env [demo_record "python" 1] finds_A_and_B downloads_all).
  set (w := snd (Workflow.fetch_trending_keywords E empty_world)).
  assert (Hstore : store w Videos = empty_collection)
    by (vm_compute; reflexivity).
  assert (Hwf : wf_collection (store w Videos))
    by (rewrite Hstore; exact wf_empty_collection).
  assert (Hfst : fst (Workflow.search_videos E [oid_str 0%N] w)
                 = Ok [oid_str 0%N; oid_str 1%N]) by (vm_compute; reflexivity).
  split; [exact Hwf|]. split; [exact Hfst|].
  destruct (search_videos_accounts_for_its_records E [oid_str 0%N]
              [oid_str 0%N; oid_str 1%N] w
              (snd (Workflow.search_videos E [oid_str 0%N] w)) Hwf
              (pair_of_fst _ _ Hfst))
    as (_ & Hsize & _).
  rewrite Hsize, Hstore. reflexivity.
Defined.

(** ** What each stage leaves alone *)

Lemma frame_refl cs w : frame cs w w.
Proof. intros c _. reflexivity. Qed.

Lemma frame_tick cs w0 w : frame cs w0 w -> frame cs w0 (tick w).
Proof. intros H. exact H. Qed.

Lemma frame_log cs w0 w l m : frame cs w0 w -> frame cs w0 (append_log l m w).
Proof. intros H. exact H. Qed.

#[local] Hint Resolve frame_tick frame_log : world_inv.

Lemma frame_same_stores cs w0 w w' :
  same_stores w w' -> frame cs w0 w -> frame cs w0 w'.
Proof. intros Hs H c Hc. now rewrite <- Hs, H. Qed.

Lemma frame_inserted cs w0 c d w w' :
  c ∈ cs -> inserted c d w w' -> frame cs w0 w -> frame cs w0 w'.
Proof.
  intros Hin [_ Hother] H c' Hc'. rewrite Hother; [now apply H|].
  intros ->. now apply Hc'.
Qed.

Lemma frame_mono cs cs' w0 w : cs ⊆ cs' -> frame cs w0 w -> frame cs' w0 w.
Proof. intros Hsub H c Hc. apply H. intros Hin. apply Hc. now apply Hsub. Qed.

Lemma frame_trans cs w0 w1 w2 :
  frame cs w0 w1 -> frame cs w1 w2 -> frame cs w0 w2.
Proof. intros H1 H2 c Hc. now rewrite H2, H1. Qed.

Lemma insert_keyword_frame E cs w0 k r s p rg md :
  Keywords ∈ cs -> preserves (frame cs w0) (DB.insert_keyword E k r s p rg md).
Proof.
  intros Hin w Hw. pose proof (insert_keyword_effect E k r s p rg md w) as H.
  destruct (DB.insert_keyword E k r s p rg md w) as [[id|e] w'].
  - destruct H as (_ & _ & d & Hins & _). now apply (frame_inserted _ _ _ _ _ _ Hin Hins).
  - now apply (frame_same_stores _ _ _ _ H).
Qed.

Lemma insert_video_frame E cs w0 a1 a2 a3 a4 a5 a6 a7 a8 a9 a10 a11 :
  Videos ∈ cs ->
  preserves (frame cs w0) (DB.insert_video E a1 a2 a3 a4 a5 a6 a7 a8 a9 a10 a11).
Proof.
  intros Hin w Hw.
  pose proof (insert_video_effect E a1 a2 a3 a4 a5 a6 a7 a8 a9 a10 a11 w) as H.
  destruct (DB.insert_video E a1 a2 a3 a4 a5 a6 a7 a8 a9 a10 a11 w)
    as [[id|e] w'].
  - destruct H as (_ & _ & d & kid & Hins & _).
    now apply (frame_inserted _ _ _ _ _ _ Hin Hins).
  - now apply (frame_same_stores _ _ _ _ H).
Qed.

Lemma insert_transcript_frame E cs w0 video_id transcript language :
  Transcripts ∈ cs ->
  preserves (frame cs w0) (DB.insert_transcript E video_id transcript language).
Proof.
  intros Hin w Hw.
  pose proof (insert_transcript_effect E video_id transcript language w) as H.
  destruct (DB.insert_transcript E video_id transcript language w)
    as [[id|e] w'].
  - destruct H as (_ & d & vid & Hins & _).
    now apply (frame_inserted _ _ _ _ _ _ Hin Hins).
  - now apply (frame_same_stores _ _ _ _ H).
Qed.

Ltac in_list :=
  repeat first [apply list_elem_of_here | apply list_elem_of_further].

Ltac not_in_list :=
  let H := fresh in
  intros H;
  repeat (apply elem_of_cons in H as [H|H]; [congruence|]);
  now apply elem_of_nil in H.

(** The steps that keep [frame]. *)
Ltac frame_step :=
  lazymatch goal with
  | |- preserves _ (DB.now _) =>
      apply preserves_now; solve [auto with world_inv]
  | |- preserves _ (logger _ _) =>
      apply preserves_logger; solve [auto with world_inv]
  | |- preserves _ (DB.find_by_id _ _ _) => apply preserves_find_by_id
  | |- preserves _ (DB.insert_keyword _ _ _ _ _ _ _) =>
      apply insert_keyword_frame; assumption
  | |- preserves _ (DB.insert_video _ _ _ _ _ _ _ _ _ _ _ _) =>
      apply insert_video_frame; assumption
  | |- preserves _ (DB.insert_transcript _ _ _ _) =>
      apply insert_transcript_frame; assumption
  | |- _ => preserves_step
  end.

Lemma fetch_trending_keywords_frame E cs w0 :
  Keywords ∈ cs -> preserves (frame cs w0) (Workflow.fetch_trending_keywords E).
Proof.
  intros Hin.
  unfold Workflow.fetch_trending_keywords, Workflow.process_fetcher,
    Workflow.process_keyword.
  repeat frame_step.
Qed.

Lemma search_videos_frame E cs w0 keyword_ids :
  Videos ∈ cs -> preserves (frame cs w0) (Workflow.search_videos E keyword_ids).
Proof.
  intros Hin.
  unfold Workflow.search_videos, Workflow.search_keyword,
    Workflow.process_video.
  repeat frame_step.
Qed.

Lemma download_videos_frame E cs w0 video_ids :
  preserves (frame cs w0) (Workflow.download_videos E video_ids).
Proof.
  unfold Workflow.download_videos, Workflow.download_one.
  repeat frame_step.
Qed.

Lemma transcribe_videos_frame E cs w0 video_ids video_paths :
  Transcripts ∈ cs ->
  preserves (frame cs w0) (Workflow.transcribe_videos E video_ids video_paths).
Proof.
  intros Hin.
  unfold Workflow.transcribe_videos, Workflow.transcribe_one.
  repeat frame_step.
Qed.

Lemma run_frame E w0 :
  preserves (frame [Keywords; Videos; Transcripts] w0) (Workflow.run E).
Proof.
  unfold Workflow.run.
  repeat first
    [ apply fetch_trending_keywords_frame; in_list
    | apply search_videos_frame; in_list
    | apply download_videos_frame
    | apply transcribe_videos_frame; in_list
    | frame_step ].
Qed.

(** X13. Each stage writes to its own collection only, whatever happens
    in it, also when it raises: the keyword stage leaves every collection
    but [keywords] as it was, the search stage every collection but
    [videos], the transcription stage every collection but
    [transcripts]; the download stage leaves all of them as they were.
    No run touches the articles. *)
Theorem stages_write_their_own_collection (E : env) (w : world) :
  (forall c, c <> Keywords ->
     store (snd (Workflow.fetch_trending_keywords E w)) c = store w c)
  /\ (forall keyword_ids c, c <> Videos ->
        store (snd (Workflow.search_videos E keyword_ids w)) c = store w c)
  /\ (forall video_ids c,
        store (snd (Workflow.download_videos E video_ids w)) c = store w c)
  /\ (forall video_ids video_paths c, c <> Transcripts ->
        store (snd (Workflow.transcribe_videos E video_ids video_paths w)) c
        = store w c)
  /\ store (snd (Workflow.run E w)) Articles = store w Articles.
Proof.
  split; [|split; [|split; [|split]]].
  - intros c Hc.
    apply (fetch_trending_keywords_frame E [Keywords] w); [in_list| |not_in_list].
    apply frame_refl.
  - intros keyword_ids c Hc.
    apply (search_videos_frame E [Videos] w); [in_list| |not_in_list].
    apply frame_refl.
  - intros video_ids c.
    apply (download_videos_frame E [] w); [|not_in_list].
    apply frame_refl.
  - intros video_ids video_paths c Hc.
    apply (transcribe_videos_frame E [Transcripts] w); [in_list| |not_in_list].
    apply frame_refl.
  - apply (run_frame E w w (frame_refl _ w)). not_in_list.
Qed.

Lemma stages_write_their_own_collection_witness :
  let E := demo_env [demo_record "python" 1] finds_A_and_B downloads_all in
  store (snd (Workflow.fetch_trending_keywords E empty_world)) Videos
  = empty_collection.
Proof.
  cbv zeta.
  rewrite (proj1 (stages_write_their_own_collection _ empty_world) Videos)
    by discriminate.
  reflexivity.
Defined.

(** ** The download stage and the transcription stage, item by item *)

Section download_stage.

Variable E : env.
Variable w0 : world.
Variable video_ids : list string.

Ltac kept := unfold download_mapping; cbn [fst snd]; split; assumption.

Lemma download_one_mapping video_id :
  video_id ∈ video_ids -> preserves (download_mapping E w0 video_ids) (Workflow.download_one E video_id).
Proof.
    intros Hin [w paths] [Hs Hp]. cbn [fst snd] in *.
  unfold Workflow.download_one.
  unfold bind at 1, Workflow.in_world at 1.
  unfold DB.find_by_id, DB.driver_find_one, DB.driver_request, bind at 1 2,
    of_result at 1.
  destruct (ObjectId video_id) as [o|e] eqn:Ho; [|kept].
  destruct (driver_failure E _ _); [kept|].
  unfold Workflow.found.
  destruct (docs (store w Videos) !! o) as [d|] eqn:Hd; [|kept].
  destruct (decide (d = ∅)); [kept|].
  unfold bind at 1, of_result at 1, Workflow.doc_field.
  destruct (d !! "video_url") as [url|] eqn:Hurl; [|kept].
  unfold bind at 1, of_result at 1.
  destruct (download_video E url) as [output|e] eqn:Hout; [|kept].
  unfold bind at 1, of_result at 1.
  destruct (subscript output "video") as [path|e] eqn:Hpath; [|kept].
  unfold bind, Workflow.local, Workflow.in_world, logger, modify.
  unfold download_mapping. cbn [fst snd]. split; [exact Hs|].
  intros id' path'. destruct (decide (id' = video_id)) as [->|Hne].
  - rewrite lookup_insert_eq. intros [= <-]. split; [exact Hin|].
    exists o, d, url, output. rewrite (Hs Videos). now repeat split.
  - rewrite lookup_insert_ne by congruence. apply Hp.
Qed.

Lemma download_loop_mapping :
  preserves (download_mapping E w0 video_ids) (for_each video_ids (Workflow.download_one E)).
Proof.
  apply preserves_for_each_in. intros video_id Hin.
  now apply download_one_mapping.
Qed.

End download_stage.

(** A mapping whose keys are all in a list has no more entries than the
    list has elements. *)
Lemma size_keys_in_list (m : gmap string pyval) (l : list string) :
  (forall k v, m !! k = Some v -> k ∈ l) -> (size m <= length l)%nat.
Proof.
  intros H. rewrite <- length_map_to_list.
  rewrite <- (length_fmap fst (map_to_list m)).
  apply submseteq_length, NoDup_submseteq; [apply NoDup_fst_map_to_list|].
  intros k Hk. apply list_elem_of_fmap in Hk as ([k' v] & -> & Hkv).
  apply elem_of_map_to_list in Hkv. exact (H _ _ Hkv).
Qed.

(** X14. What the download stage returns.  When [download_videos]
    returns, every key of the mapping is one of the identifiers it was
    given, resolves to a stored video record, and is mapped to the path
    under [video] of what the download of that record's URL returned.
    The mapping has at most as many entries as there were identifiers,
    and no store has changed. *)
Theorem download_videos_maps_stored_videos (E : env)
    (video_ids : list string) (w w' : world)
    (video_paths : gmap string pyval) :
  Workflow.download_videos E video_ids w = (Ok video_paths, w') ->
  (forall c, store w' c = store w c)
  /\ (size video_paths <= length video_ids)%nat
  /\ forall video_id path, video_paths !! video_id = Some path ->
       video_id ∈ video_ids
       /\ exists o d url output,
            ObjectId video_id = Ok o
            /\ docs (store w Videos) !! o = Some d
            /\ d !! "video_url" = Some url
            /\ download_video E url = Ok output
            /\ subscript output "video" = Ok path.
Proof.
  intros Hrun.
  assert (Hstart : download_mapping E w video_ids (w, ∅)).
  { split; [apply same_stores_refl|]. intros video_id path H.
    cbn [snd] in H. rewrite lookup_empty in H. discriminate. }
  pose proof (download_loop_mapping E w video_ids (w, ∅) Hstart) as H.
  unfold Workflow.download_videos, Workflow.returning in Hrun.
  destruct (for_each video_ids _ (w, ∅)) as [[[]|e] [w1 paths]];
    [|discriminate].
  assert (Hp : paths = video_paths) by congruence.
  assert (Hw : w1 = w') by congruence. subst paths w1. clear Hrun.
  cbn [fst snd] in H. destruct H as [Hs Hmap].
  split; [intros c; symmetry; apply Hs|].
  split; [|exact Hmap].
  apply size_keys_in_list. intros k v Hk. now apply (Hmap k v).
Qed.

Lemma download_videos_maps_stored_videos_witness :
  let E := demo_env [demo_record "python" 1] finds_A_and_B downloads_all in
  fst (Workflow.download_videos E (fst (after_search E)) (snd (after_search E)))
  = Ok {[ oid_str 0%N := VStr "/downloads/video.mp4";
          oid_str 1%N := VStr "/downloads/video.mp4" ]}
  /\ store (snd (Workflow.download_videos E (fst (after_search E))
                   (snd (after_search E)))) Videos
     = store (snd (after_search E)) Videos.
Proof.
  cbv zeta.
  set (E := demo_env [demo_record "python" 1] finds_A_and_B downloads_all).
  assert (Hfst : fst (Workflow.download_videos E (fst (after_search E))
                        (snd (after_search E)))
                 = Ok {[ oid_str 0%N := VStr "/downloads/video.mp4";
                         oid_str 1%N := VStr "/downloads/video.mp4" ]})
    by (vm_compute; reflexivity).
  split; [exact Hfst|].
  exact (proj1 (download_videos_maps_stored_videos E _ _ _ _
                  (pair_of_fst _ _ Hfst)) Videos).
Defined.

(** *** Transcripts *)

Lemma transcripts_since_tick E video_ids video_paths w0 w :
  transcripts_since E video_ids video_paths w0 w ->
  transcripts_since E video_ids video_paths w0 (tick w).
Proof. intros H. exact H. Qed.

Lemma transcripts_since_log E video_ids video_paths w0 w l m :
  transcripts_since E video_ids video_paths w0 w ->
  transcripts_since E video_ids video_paths w0 (append_log l m w).
Proof. intros H. exact H. Qed.

Lemma transcripts_since_same_stores E video_ids video_paths w0 w w' :
  same_stores w w' ->
  transcripts_since E video_ids video_paths w0 w ->
  transcripts_since E video_ids video_paths w0 w'.
Proof. intros Hs H o d. rewrite <- (Hs Transcripts). apply H. Qed.

Lemma transcribe_one_transcripts_since E video_ids video_paths w0 video_id :
  video_id ∈ video_ids ->
  preserves (transcripts_since E video_ids video_paths w0)
    (Workflow.transcribe_one E video_paths video_id).
Proof.
  intros Hin w Hw. unfold Workflow.transcribe_one.
  destruct (video_paths !! video_id) as [path|] eqn:Hpath; [|exact Hw].
  destruct (truthy path) eqn:Htruthy; [|exact Hw]. cbn [negb].
  unfold try_except, bind at 1, of_result at 1.
  destruct (transcribe E path) as [output|e] eqn:Hout; [|exact Hw].
  unfold bind at 1, of_result at 1.
  destruct (subscript output "text") as [text|e] eqn:Htext; [|exact Hw].
  unfold bind at 1, of_result at 1.
  destruct (subscript output "language") as [language|e] eqn:Hlang;
    [|exact Hw].
  unfold bind at 1.
  pose proof (insert_transcript_effect E (VStr video_id) text language w) as H.
  destruct (DB.insert_transcript E (VStr video_id) text language w)
    as [[id|e] w'].
  - destruct H as (_ & d & k & [Hc _] & _ & Hk & Hvid & Htr & Hla).
    cbn [DB.text_of] in Hk. unfold logger, modify. cbn [snd].
    apply transcripts_since_log.
    intros o d'. rewrite Hc. cbn [docs].
    destruct (decide (o = next_oid (store w Transcripts))) as [->|Hne].
    + rewrite lookup_insert_eq. intros [= <-]. right.
      exists video_id, k, path, output, text, language. now repeat split.
    + rewrite lookup_insert_ne by congruence. apply Hw.
  - unfold any_exception, logger, modify. cbn [snd].
    apply transcripts_since_log.
    eapply transcripts_since_same_stores; [exact H|exact Hw].
Qed.

(** X15. What the transcription stage stores.  [transcribe_videos] always
    returns, and every transcript record it leaves in the store was there
    before or was written for one of its videos: one that the mapping
    gives a truthy path, with the text and the language that the
    transcriber returned for that path, and with the identifier of the
    video as an [ObjectId].  Whether a video with that identifier exists
    is not checked. *)
Theorem transcribe_videos_writes_transcripts_of_its_videos (E : env)
    (video_ids : list string) (video_paths : gmap string pyval) (w : world) :
  fst (Workflow.transcribe_videos E video_ids video_paths w) = Ok tt
  /\ forall o d,
       docs (store (snd (Workflow.transcribe_videos E video_ids video_paths w))
               Transcripts) !! o = Some d ->
       docs (store w Transcripts) !! o = Some d
       \/ exists video_id k path output text language,
            video_id ∈ video_ids
            /\ video_paths !! video_id = Some path
            /\ truthy path = true
            /\ transcribe E path = Ok output
            /\ subscript output "text" = Ok text
            /\ subscript output "language" = Ok language
            /\ ObjectId video_id = Ok k
            /\ d !! "video_id" = Some (VOid k)
            /\ d !! "transcript" = Some text
            /\ d !! "language" = Some language.
Proof.
  split.
  - destruct (never_raises_transcribe_videos E video_ids video_paths w)
      as [[] H]. exact H.
  - apply (preserves_for_each_in
             (transcripts_since E video_ids video_paths w) video_ids
             (Workflow.transcribe_one E video_paths)).
    + intros video_id Hin. now apply transcribe_one_transcripts_since.
    + intros o d H. now left.
Qed.

Lemma transcribe_videos_writes_transcripts_of_its_videos_witness :
  let E := demo_env [demo_record "python" 1] finds_A_and_B downloads_all in
  let video_paths : gmap string pyval :=
    {[ oid_str 0%N := VStr "/downloads/video.mp4" ]} in
  exists d,
    docs (store (snd (Workflow.transcribe_videos E [oid_str 0%N] video_paths
                        (snd (after_search E)))) Transcripts) !! 0%N = Some d
    /\ d !! "language" = Some (VStr "en").
Proof.
  cbv zeta.
  set (E := demo_env [demo_record "python" 1] finds_A_and_B downloads_all).
  set (video_paths := {[ oid_str 0%N := VStr "/downloads/video.mp4" ]}
                      : gmap string pyval).
  set (w := snd (after_search E)).
  assert (Hsome : present
             (docs (store (snd (Workflow.transcribe_videos E [oid_str 0%N]
                                  video_paths w)) Transcripts) !! 0%N) = true)
    by (vm_compute; reflexivity).
  assert (Hnew : docs (store w Transcripts) !! 0%N = None)
    by (vm_compute; reflexivity).
  destruct (docs (store (snd (Workflow.transcribe_videos E [oid_str 0%N]
                                video_paths w)) Transcripts) !! 0%N)
    as [d|] eqn:Hd; [|discriminate Hsome].
  exists d. split; [reflexivity|].
  destruct (proj2 (transcribe_videos_writes_transcripts_of_its_videos E
                     [oid_str 0%N] video_paths w) 0%N d Hd)
    as [Hold|(video_id & k & path & output & text & language & _ & _ & _
              & Hout & _ & Hlang & _ & _ & _ & Hd_lang)].
  - discriminate (eq_trans (eq_sym Hold) Hnew).
  - cbn in Hout. injection Hout as <-. cbn in Hlang. injection Hlang as <-.
    exact Hd_lang.
Defined.

(** ** Runs and stages on nothing *)

Lemma transcribe_one_tt E a : Workflow.transcribe_one E ∅ a = ret tt.
Proof. unfold Workflow.transcribe_one. now rewrite lookup_empty. Qed.

Lemma transcribe_videos_empty E video_ids w :
  Workflow.transcribe_videos E video_ids ∅ w = (Ok tt, w).
Proof.
  unfold Workflow.transcribe_videos.
  induction video_ids as [|a r IH]; [reflexivity|].
  cbn [for_each]. unfold bind. rewrite transcribe_one_tt. exact IH.
Qed.

Section empty_run.

Variable E : env.
Variable w0 : world.

Lemma process_fetcher_nothing region platform fetched :
  brings_nothing fetched ->
  preserves (nothing_kept w0) (Workflow.process_fetcher E region (platform, fetched)).
Proof.
  intros Hn [w ids] (Hd & Hl & Hids). cbn [fst snd] in *.
  unfold Workflow.process_fetcher, try_except, bind at 1, of_result.
  destruct fetched as [[|r rs]|e]; [| destruct Hn |].
  - unfold bind, Workflow.in_world, logger, modify. cbn [for_each ret].
    unfold nothing_kept. cbn [fst snd]. split; [exact Hd|].
    split; [|exact Hids].
    now apply log_from_log.
  - unfold any_exception, Workflow.in_world, logger, modify.
    unfold nothing_kept. cbn [fst snd]. split; [exact Hd|].
    split; [|exact Hids].
    now apply log_from_log.
Qed.

Lemma fetch_loop_nothing :
  fetches_nothing E ->
  preserves (nothing_kept w0)
    (for_each (keyword_fetchers E) (fun '(region, fetchers) =>
       for_each fetchers (Workflow.process_fetcher E region))).
Proof.
  intros Hn. apply preserves_for_each_in. intros [region fetchers] Hin.
  apply preserves_for_each_in. intros [platform fetched] Hin'.
  apply process_fetcher_nothing.
  unfold fetches_nothing in Hn. rewrite Forall_forall in Hn.
  specialize (Hn _ Hin). cbn [snd] in Hn. rewrite Forall_forall in Hn.
  exact (Hn _ Hin').
Qed.

End empty_run.

(** X16. A run in which no fetcher brings a record, each of them failing
    or returning an empty list, still completes: [run] returns, no store
    has changed and the clock was not read.  After whatever the fetchers
    made it log, the run logs the warning that no keyword was fetched,
    the three counts, all zero, and the completion, in this order. *)
Theorem run_without_keywords_completes (E : env) (w : world) :
  fetches_nothing E ->
  exists w',
    Workflow.run E w = (Ok tt, w')
    /\ (forall c, store w' c = store w c)
    /\ ticks w' = ticks w
    /\ exists entries,
         log w' = log w ++ entries
                  ++ [(WARNING, No_keywords_fetched);
                      (INFO, Fetched_keywords 0);
                      (INFO, Found_videos 0);
                      (INFO, Downloaded_videos 0);
                      (INFO, Workflow_completed)].
Proof.
  intros Hn.
  pose proof (fetch_loop_nothing E w Hn (w, [])) as H.
  assert (Hnr : never_raises
            (for_each (keyword_fetchers E) (fun '(region, fetchers) =>
               for_each fetchers (Workflow.process_fetcher E region)))).
  { apply never_raises_for_each. intros [region fetchers].
    apply never_raises_for_each. intros entry.
    apply never_raises_process_fetcher. }
  destruct (Hnr (w, [])) as [[] Hok].
  destruct (for_each (keyword_fetchers E) _ (w, [])) as [r [w1 ids]] eqn:Hloop.
  cbn [fst] in Hok. subst r.
  destruct H as ([Hstore Hticks] & [entries Hlog] & Hids).
  { split; [apply same_data_refl|]. split; [apply log_from_refl|reflexivity]. }
  cbn [fst snd] in *. subst ids.
  eexists. split.
  - unfold Workflow.run, try_except, bind at 1.
    unfold Workflow.fetch_trending_keywords, bind at 1 2,
      Workflow.returning at 1.
    rewrite Hloop. cbn [fmap list_fmap truthy negb].
    unfold logger at 1, modify at 1. cbn [ret].
    unfold bind at 1, logger at 1, modify at 1.
    unfold bind at 1, Workflow.search_videos, Workflow.returning.
    cbn [for_each ret].
    unfold bind at 1, logger at 1, modify at 1.
    unfold bind at 1, Workflow.download_videos, Workflow.returning.
    cbn [for_each ret].
    unfold bind at 1, logger at 1, modify at 1.
    unfold bind at 1. rewrite transcribe_videos_empty.
    unfold logger, modify. reflexivity.
  - cbn [append_log store ticks log length].
    split; [exact Hstore|]. split; [exact Hticks|].
    exists entries. rewrite Hlog, map_size_empty.
    now rewrite <- !app_assoc.
Qed.

Lemma run_without_keywords_completes_witness :
  fetches_nothing (demo_env [] finds_A_and_B downloads_all)
  /\ fst (Workflow.run (demo_env [] finds_A_and_B downloads_all) empty_world)
     = Ok tt.
Proof.
  assert (Hn : fetches_nothing (demo_env [] finds_A_and_B downloads_all)).
  { repeat constructor. }
  split; [exact Hn|].
  destruct (run_without_keywords_completes _ empty_world Hn) as (w' & -> & _).
  reflexivity.
Defined.

(** ** Identifiers that resolve to nothing *)




(** ** A record without its keys *)

Lemma for_each_app {S A} (xs ys : list A) (body : A -> M S unit) s :
  for_each (xs ++ ys) body s
  = match for_each xs body s with
    | (Ok _, s') => for_each ys body s'
    | (Raise e, s') => (Raise e, s')
    end.
Proof.
  revert s. induction xs as [|x r IH]; intros s; [reflexivity|].
  cbn [app for_each]. unfold bind.
  destruct (body x s) as [[[]|e] s']; [apply IH|reflexivity].
Qed.

Lemma process_keyword_without_keys E platform region r s :
  ~ has_keys r ->
  Workflow.process_keyword E platform region r s = (Raise KeyError, s).
Proof.
  intros Hno. unfold Workflow.process_keyword, try_except, bind at 1, of_result.
  assert (Hn : Workflow.normalize E platform region r = Raise KeyError).
  { unfold Workflow.normalize. cbv zeta.
    destruct (raw_keyword r) as [keyword|] eqn:Hk; [|reflexivity].
    destruct (raw_rank r) as [rank|] eqn:Hr; [|reflexivity].
    exfalso. apply Hno. split; congruence. }
  rewrite Hn. reflexivity.
Qed.

(** X18. A record without the key [keyword] or the key [rank] ends the
    processing of its batch.  The [KeyError] is not caught by the
    handler of the record, which catches [ValueError] and [TypeError]
    only, but by the handler of the fetcher: the records before it are
    inserted as in a batch without it, the records after it are not
    looked at, the error is the last entry of the log, and the stage goes
    on with the next fetcher. *)
Theorem record_without_keys_ends_its_batch (E : env) (platform : string)
    (region : pyval) (before after : list raw_record) (r : raw_record)
    (w : world) (ids : list string) :
  reliable_store E ->
  Forall has_keys before ->
  ~ has_keys r ->
  exists w1 w1' new_ids,
    Workflow.process_fetcher E region
      (platform, Ok (before ++ r :: after)) (w, ids)
    = (Ok tt, (w1, ids ++ new_ids))
    /\ for_each
         (payload E platform region
            <$> filter (fun r => well_formed r = true) before)
         (insert_payload E) (w, ids)
       = (Ok tt, (w1', ids ++ new_ids))
    /\ same_data w1 w1'
    /\ last (log w1) = Some (ERROR, Error_fetching platform region KeyError).
Proof.
  intros HE Hkeys Hno.
  set (w_logged := append_log INFO
         (Fetched_from (length (before ++ r :: after)) platform region) w).
  destruct (batch_loop E platform region before w_logged w ids HE Hkeys)
    as (w1 & w1' & new_ids & Hloop & Hpay & Hsame & _).
  { apply same_data_log, same_data_refl. }
  exists (append_log ERROR (Error_fetching platform region KeyError) w1),
         w1', new_ids.
  split; [|split; [exact Hpay|split]].
  - unfold Workflow.process_fetcher, try_except, bind at 1, of_result.
    unfold bind at 1, Workflow.in_world at 1, logger at 1, modify at 1.
    fold w_logged. rewrite for_each_app, Hloop. cbn [for_each].
    unfold bind at 1. rewrite process_keyword_without_keys by exact Hno.
    reflexivity.
  - apply same_data_log. exact Hsame.
  - cbn [log append_log]. apply last_snoc.
Qed.

Lemma record_without_keys_ends_its_batch_witness :
  let r := {| raw_keyword := Some (VStr "go"); raw_rank := None;
              raw_score := None; raw_metadata := None |} in
  exists w1 new_ids,
    Workflow.process_fetcher (idle_env ticking_clock) (VStr "US")
      ("google_trends", Ok ([demo_record "python" 1] ++ r :: [demo_record "rust" 3]))
      (empty_world, [])
    = (Ok tt, (w1, new_ids))
    /\ size (docs (store w1 Keywords)) = 1%nat.
Proof.
  cbv zeta.
  set (r := {| raw_keyword := Some (VStr "go"); raw_rank := None;
               raw_score := None; raw_metadata := None |}).
  assert (Hkeys : Forall has_keys [demo_record "python" 1]).
  { repeat constructor; discriminate. }
  assert (Hno : ~ has_keys r) by (intros [_ H]; now apply H).
  destruct (record_without_keys_ends_its_batch (idle_env ticking_clock)
              "google_trends" (VStr "US") [demo_record "python" 1]
              [demo_record "rust" 3] r empty_world []
              (reliable_idle ticking_clock) Hkeys Hno)
    as (w1 & w1' & new_ids & Hrun & Hpay & [Hstore _] & _).
  exists w1, new_ids. split; [exact Hrun|].
  rewrite (Hstore Keywords).
  assert (Hsize : size (docs (store (fst (snd (for_each
            (payload (idle_env ticking_clock) "google_trends" (VStr "US")
               <$> filter (fun r => well_formed r = true)
                     [demo_record "python" 1])
            (insert_payload (idle_env ticking_clock)) (empty_world, []))))
            Keywords)) = 1%nat) by (vm_compute; reflexivity).
  rewrite Hpay in Hsize. exact Hsize.
Defined.

(** ** The counts that a run logs *)

(** A run that returns went through its four stages. *)
Lemma run_returns E w w' :
  Workflow.run E w = (Ok tt, w') ->
  exists keyword_ids w1 video_ids w2 video_paths w3 w4,
    Workflow.fetch_trending_keywords E w = (Ok keyword_ids, w1)
    /\ Workflow.search_videos E keyword_ids
         (append_log INFO (Fetched_keywords (length keyword_ids)) w1)
       = (Ok video_ids, w2)
    /\ Workflow.download_videos E video_ids
         (append_log INFO (Found_videos (length video_ids)) w2)
       = (Ok video_paths, w3)
    /\ Workflow.transcribe_videos E video_ids video_paths
         (append_log INFO (Downloaded_videos (size video_paths)) w3)
       = (Ok tt, w4)
    /\ w' = append_log INFO Workflow_completed w4.
Proof.
  unfold Workflow.run, try_except, bind at 1.
  destruct (Workflow.fetch_trending_keywords E w) as [[keyword_ids|e] w1];
    [|discriminate].
  unfold bind at 1, logger at 1, modify at 1. unfold bind at 1.
  destruct (Workflow.search_videos E keyword_ids _) as [[video_ids|e] w2]
    eqn:Hsearch; [|discriminate].
  unfold bind at 1, logger at 1, modify at 1. unfold bind at 1.
  destruct (Workflow.download_videos E video_ids _) as [[video_paths|e] w3]
    eqn:Hdownload; [|discriminate].
  unfold bind at 1, logger at 1, modify at 1. unfold bind at 1.
  destruct (Workflow.transcribe_videos E video_ids video_paths _)
    as [[[]|e] w4] eqn:Htranscribe; [|discriminate].
  unfold logger, modify. intros H.
  exists keyword_ids, w1, video_ids, w2, video_paths, w3, w4.
  split; [reflexivity|]. split; [exact Hsearch|]. split; [exact Hdownload|].
  split; [exact Htranscribe|]. congruence.
Qed.

(** One more transcript at most for each video of the list. *)
Lemma transcribe_videos_size E video_paths video_ids : forall w,
  (size (docs (store (snd (Workflow.transcribe_videos E video_ids video_paths w))
                 Transcripts))
   <= size (docs (store w Transcripts)) + length video_ids)%nat.
Proof.
  unfold Workflow.transcribe_videos.
  induction video_ids as [|video_id rest IH]; intros w; [cbn; lia|].
  cbn [for_each length]. unfold bind.
  assert (Hone : (size (docs (store (snd (Workflow.transcribe_one E video_paths
                                            video_id w)) Transcripts))
                  <= S (size (docs (store w Transcripts))))%nat).
  { unfold Workflow.transcribe_one.
    destruct (video_paths !! video_id) as [path|]; [|cbn; lia].
    destruct (negb (truthy path)); [cbn; lia|].
    unfold try_except, bind at 1, of_result at 1.
    destruct (transcribe E path) as [output|e]; [|cbn; lia].
    unfold bind at 1, of_result at 1.
    destruct (subscript output "text") as [text|e]; [|cbn; lia].
    unfold bind at 1, of_result at 1.
    destruct (subscript output "language") as [language|e]; [|cbn; lia].
    unfold bind at 1.
    pose proof (insert_transcript_effect E (VStr video_id) text language w)
      as H.
    destruct (DB.insert_transcript E (VStr video_id) text language w)
      as [[id|e] w1].
    - destruct H as (_ & d & vid & [Hc _] & _).
      unfold logger, modify. cbn [snd append_log store]. rewrite Hc.
      cbn [docs].
      destruct (docs (store w Transcripts) !! next_oid (store w Transcripts))
        as [old|] eqn:Hold.
      + rewrite map_size_insert_Some by (eexists; exact Hold). lia.
      + rewrite map_size_insert_None by exact Hold. lia.
    - unfold any_exception, logger, modify. cbn [snd append_log store].
      rewrite <- (H Transcripts). lia. }
  destruct (Workflow.transcribe_one E video_paths video_id w) as [[[]|e] w1].
  - cbn [snd] in Hone. specialize (IH w1). lia.
  - cbn [snd] in *. lia.
Qed.

Lemma elem_of_log_from base w entry :
  log_from (base ++ [entry]) w -> entry ∈ log w.
Proof.
  intros H. apply (log_from_elem _ _ _ H). apply elem_of_app. right.
  apply list_elem_of_singleton. reflexivity.
Qed.

(** X19. The counts that a run logs are the numbers of the records it
    stored.  When [run] returns, from keyword and video collections whose
    identifiers are below the next one, its log holds the number of
    keywords fetched, of videos found and of videos downloaded; the
    keyword collection has grown by exactly the first number and the
    video collection by exactly the second; the third is at most the
    second; the transcript collection has grown by at most the second;
    and the articles are as before. *)
Theorem run_logs_the_records_it_stored (E : env) (w w' : world) :
  wf_collection (store w Keywords) ->
  wf_collection (store w Videos) ->
  Workflow.run E w = (Ok tt, w') ->
  exists keywords videos downloads : nat,
    (INFO, Fetched_keywords keywords) ∈ log w'
    /\ (INFO, Found_videos videos) ∈ log w'
    /\ (INFO, Downloaded_videos downloads) ∈ log w'
    /\ size (docs (store w' Keywords))
       = (size (docs (store w Keywords)) + keywords)%nat
    /\ size (docs (store w' Videos))
       = (size (docs (store w Videos)) + videos)%nat
    /\ (downloads <= videos)%nat
    /\ (size (docs (store w' Transcripts))
        <= size (docs (store w Transcripts)) + videos)%nat
    /\ store w' Articles = store w Articles.
Proof.
  intros HwfK HwfV Hrun.
  destruct (run_returns E w w' Hrun)
    as (keyword_ids & w1 & video_ids & w2 & video_paths & w3 & w4
        & Hfetch & Hsearch & Hdownload & Htranscribe & ->).
  exists (length keyword_ids), (length video_ids), (size video_paths).
  set (w1' := append_log INFO (Fetched_keywords (length keyword_ids)) w1) in *.
  set (w2' := append_log INFO (Found_videos (length video_ids)) w2) in *.
  set (w3' := append_log INFO (Downloaded_videos (size video_paths)) w3) in *.
  pose proof Hfetch as Hfetch0. pose proof Hsearch as Hsearch0.
  pose proof Hdownload as Hdownload0.
  pose proof (fetch_trending_keywords_accounted E w (w, [])
                (accounted_start Keywords keyword_record w HwfK)) as HK.
  unfold Workflow.fetch_trending_keywords, Workflow.returning, bind in Hfetch.
  destruct (for_each (keyword_fetchers E) _ (w, [])) as [[[]|e] [wk ids]];
    [|discriminate].
  assert (Hids : ids = keyword_ids /\ same_stores wk w1).
  { destruct (negb _) in Hfetch; unfold logger, modify, ret in Hfetch;
      cbn beta iota in Hfetch;
      (split; [congruence|]);
      assert (Hw : w1 = snd (Ok keyword_ids, w1)) by reflexivity;
      rewrite Hw, <- Hfetch; intros c; reflexivity. }
  destruct Hids as [Hids Hwk].
  subst ids. cbn [snd] in HK.
  apply (accounted_same_stores _ _ _ _ _ _ Hwk) in HK.
  destruct HK as (_ & HKsize & _ & HKframe & _). cbn [fst snd] in *.
  assert (HwfV1 : wf_collection (store w1' Videos)).
  { unfold w1'. cbn [append_log store].
    now rewrite HKframe by discriminate. }
  pose proof (search_loop_accounted E w1' keyword_ids (w1', [])
                (accounted_start Videos _ w1' HwfV1)) as HV.
  unfold Workflow.search_videos, Workflow.returning in Hsearch.
  destruct (for_each keyword_ids _ (w1', [])) as [[[]|e] [wv ids]];
    [|discriminate].
  assert (Hids : ids = video_ids) by congruence.
  assert (Hwv : wv = w2) by congruence. subst ids wv.
  destruct HV as (_ & HVsize & _ & HVframe & _). cbn [fst snd] in *.
  pose proof (download_videos_frame E [] w2' video_ids w2' (frame_refl _ _))
    as HD.
  rewrite Hdownload in HD. cbn [snd] in HD.
  assert (HDsize : (size video_paths <= length video_ids)%nat).
  { assert (Hstart : download_mapping E w2' video_ids (w2', ∅)).
    { split; [apply same_stores_refl|]. intros video_id path H.
      cbn [snd] in H. rewrite lookup_empty in H. discriminate. }
    pose proof (download_loop_mapping E w2' video_ids (w2', ∅) Hstart) as H.
    unfold Workflow.download_videos, Workflow.returning in Hdownload.
    destruct (for_each video_ids _ (w2', ∅)) as [[[]|e] [wd paths]];
      [|discriminate].
    assert (Hp : paths = video_paths) by congruence. subst paths.
    cbn [fst snd] in H. destruct H as [_ Hmap].
    apply size_keys_in_list. intros k v Hk. now apply (Hmap k v). }
  pose proof (transcribe_videos_frame E [Transcripts] w3' video_ids
                video_paths ltac:(in_list) w3' (frame_refl _ _)) as HT.
  pose proof (transcribe_videos_size E video_paths video_ids w3') as HTsize.
  rewrite Htranscribe in HT, HTsize. cbn [snd] in HT, HTsize.
  assert (HL3 : log_from (log w3') w4).
  { replace w4 with (snd (Workflow.transcribe_videos E video_ids video_paths w3'))
      by now rewrite Htranscribe.
    apply transcribe_videos_log_from, log_from_refl. }
  assert (HL2 : log_from (log w2') w3).
  { replace w3 with (snd (Workflow.download_videos E video_ids w2'))
      by now rewrite Hdownload0.
    apply download_videos_log_from, log_from_refl. }
  assert (HL1 : log_from (log w1') w2).
  { replace w2 with (snd (Workflow.search_videos E keyword_ids w1'))
      by now rewrite Hsearch0.
    apply search_videos_log_from, log_from_refl. }
  assert (Hin3 : (INFO, Downloaded_videos (size video_paths)) ∈ log w4)
    by (apply (elem_of_log_from (log w3)); exact HL3).
  assert (Hin2 : (INFO, Found_videos (length video_ids)) ∈ log w3)
    by (apply (elem_of_log_from (log w2)); exact HL2).
  assert (Hin1 : (INFO, Fetched_keywords (length keyword_ids)) ∈ log w2)
    by (apply (elem_of_log_from (log w1)); exact HL1).
  assert (Hin2' : (INFO, Found_videos (length video_ids)) ∈ log w4).
  { apply (log_from_elem _ _ _ HL3). unfold w3'. cbn [log append_log].
    apply elem_of_app. now left. }
  assert (Hin1' : (INFO, Fetched_keywords (length keyword_ids)) ∈ log w4).
  { apply (log_from_elem _ _ _ HL3). unfold w3'. cbn [log append_log].
    apply elem_of_app. left. apply (log_from_elem _ _ _ HL2).
    unfold w2'. cbn [log append_log]. apply elem_of_app. now left. }
  cbn [append_log log store].
  split; [apply elem_of_app; now left|].
  split; [apply elem_of_app; now left|].
  split; [apply elem_of_app; now left|].
  assert (Hnot : forall c : coll_name, c <> Transcripts -> c ∉ [Transcripts])
    by (intros c Hc; not_in_list).
  assert (Hnone : forall c : coll_name, c ∉ @nil coll_name)
    by (intros c; not_in_list).
  split; [|split; [|split; [exact HDsize|split]]].
  - rewrite HT by (apply Hnot; discriminate). unfold w3'.
    cbn [append_log store]. rewrite HD by apply Hnone. unfold w2'.
    cbn [append_log store]. rewrite HVframe by discriminate. unfold w1'.
    cbn [append_log store]. exact HKsize.
  - rewrite HT by (apply Hnot; discriminate). unfold w3'.
    cbn [append_log store]. rewrite HD by apply Hnone. unfold w2'.
    cbn [append_log store]. rewrite HVsize. unfold w1'.
    cbn [append_log store]. now rewrite HKframe by discriminate.
  - etransitivity; [exact HTsize|]. unfold w3'.
    cbn [append_log store]. rewrite HD by apply Hnone. unfold w2'.
    cbn [append_log store]. rewrite HVframe by discriminate. unfold w1'.
    cbn [append_log store]. now rewrite HKframe by discriminate.
  - rewrite HT by (apply Hnot; discriminate). unfold w3'.
    cbn [append_log store]. rewrite HD by apply Hnone. unfold w2'.
    cbn [append_log store]. rewrite HVframe by discriminate. unfold w1'.
    cbn [append_log store]. now rewrite HKframe by discriminate.
Qed.

Lemma run_logs_the_records_it_stored_witness :
  let E := demo_env [demo_record "python" 1] finds_A_and_B downloads_all in
  exists keywords videos downloads,
    (INFO, Fetched_keywords keywords)
      ∈ log (snd (Workflow.run E empty_world))
    /\ (INFO, Found_videos videos) ∈ log (snd (Workflow.run E empty_world))
    /\ (INFO, Downloaded_videos downloads)
         ∈ log (snd (Workflow.run E empty_world))
    /\ size (docs (store (snd (Workflow.run E empty_world)) Keywords))
       = keywords
    /\ size (docs (store (snd (Workflow.run E empty_world)) Videos)) = videos.
Proof.
  cbv zeta.
  set (E := demo_env [demo_record "python" 1] finds_A_and_B downloads_all).
  assert (Hfst : fst (Workflow.run E empty_world) = Ok tt)
    by (vm_compute; reflexivity).
  destruct (run_logs_the_records_it_stored E empty_world
              (snd (Workflow.run E empty_world)) wf_empty_collection
              wf_empty_collection (pair_of_fst _ _ Hfst))
    as (keywords & videos & downloads & H1 & H2 & H3 & H4 & H5 & _).
  exists keywords, videos, downloads.
  split; [exact H1|]. split; [exact H2|]. split; [exact H3|].
  split; [exact H4|exact H5].
Defined.

(** ** The metadata of a record *)

Lemma dict_get_set_eq d key v : dict_get (dict_set d key v) key = Some v.
Proof.
  unfold dict_get. induction d as [|[k x] r IH]; cbn.
  - now rewrite String.eqb_refl.
  - destruct (String.eqb k key) eqn:Hk; cbn; rewrite Hk; [reflexivity|exact IH].
Qed.

Lemma dict_get_set_ne d key key' v :
  key' <> key -> dict_get (dict_set d key v) key' = dict_get d key'.
Proof.
  intros Hne. unfold dict_get. induction d as [|[k x] r IH]; cbn.
  - assert (String.eqb key key' = false) as ->; [|reflexivity].
    apply String.eqb_neq. congruence.
  - destruct (String.eqb k key) eqn:Hk; cbn.
    + apply String.eqb_eq in Hk. subst k.
      assert (String.eqb key key' = false) as ->; [|reflexivity].
      apply String.eqb_neq. congruence.
    + destruct (String.eqb k key'); [reflexivity|exact IH].
Qed.

Lemma keys_dict_set d key v :
  is_Some (dict_get d key) -> map fst (dict_set d key v) = map fst d.
Proof.
  unfold dict_get. induction d as [|[k x] r IH]; cbn.
  - intros [y Hy]. discriminate.
  - destruct (String.eqb k key) eqn:Hk; cbn; [reflexivity|].
    intros H. f_equal. exact (IH H).
Qed.

(** X20. What the keyword stage does to the metadata of a record before
    it stores it: a [Region] under the key [region] is replaced by its
    code, so that no [Region] is left under that key; every other entry
    is kept, and so is the order of the keys.  A record without metadata
    gets an empty dict. *)
Theorem metadata_of_replaces_a_region_by_its_code (r : raw_record) :
  let metadata := default [] (raw_metadata r) in
  (forall key, key <> "region" ->
     dict_get (Workflow.metadata_of r) key = dict_get metadata key)
  /\ dict_get (Workflow.metadata_of r) "region"
     = match dict_get metadata "region" with
       | Some (VRegion region) => Some (VStr (value region))
       | other => other
       end
  /\ (forall region,
        dict_get (Workflow.metadata_of r) "region" <> Some (VRegion region))
  /\ map fst (Workflow.metadata_of r) = map fst metadata.
Proof.
  cbv zeta. unfold Workflow.metadata_of.
  destruct (dict_get (default [] (raw_metadata r)) "region") as [v|] eqn:Hv.
  2:{ rewrite Hv. repeat split; congruence. }
  destruct v; try (rewrite Hv; repeat split; congruence).
  split; [|split; [|split]].
  - intros key Hkey. now apply dict_get_set_ne.
  - apply dict_get_set_eq.
  - intros region. rewrite dict_get_set_eq. discriminate.
  - apply keys_dict_set. rewrite Hv. eauto.
Qed.

Lemma metadata_of_replaces_a_region_by_its_code_witness :
  dict_get (Workflow.metadata_of
              {| raw_keyword := None; raw_rank := None; raw_score := None;
                 raw_metadata := Some [("platform", VStr "youtube");
                                       ("region", VRegion JAPAN)] |})
    "platform" = Some (VStr "youtube").
Proof.
  rewrite (proj1 (metadata_of_replaces_a_region_by_its_code _) "platform")
    by discriminate.
  reflexivity.
Defined.

(** ** The records of the Google Trends fetcher *)

Section fetch_loop.

Variable E : env.
Variable isoformat : Z -> string.
Variable region : Region.

Lemma fetch_results_from (l : list pyval) : forall start w results,
  exists new,
    for_each (Fetchers.enumerate start l) (fetch_body E isoformat region)
      (w, results)
    = (Ok tt, (after_readings (length new) w, results ++ new))
    /\ ranked_from region start (length l) new.
Proof.
  induction l as [|x l IH]; intros start w results.
  - exists []. split.
    + cbn. rewrite app_nil_r. unfold after_readings. rewrite Nat.add_0_r.
      now destruct w.
    + repeat split; constructor.
  - cbn [Fetchers.enumerate for_each]. unfold bind at 1.
    assert (Hskip : forall w0 res0,
      exists new,
        for_each (Fetchers.enumerate (start + 1) l)
          (fetch_body E isoformat region) (w0, res0)
        = (Ok tt, (after_readings (length new) w0, res0 ++ new))
        /\ ranked_from region start (length (x :: l)) new).
    { intros w0 res0. destruct (IH (start + 1) w0 res0)
        as (new & Hrun & Hall & Hsorted & Hrange & Hlen).
      exists new. split; [exact Hrun|].
      split; [exact Hall|]. split; [exact Hsorted|]. split.
      - eapply Forall_impl; [exact Hrange|]. intros r Hr. cbn beta in *. cbn [length]. lia.
      - cbn [length]. lia. }
    unfold fetch_body at 1. destruct x as [| | |s| | | | |]; try apply Hskip.
    destruct (negb (truthy (VStr (Fetchers.clean_keyword s)))); [apply Hskip|].
    cbv zeta.
    destruct (IH (start + 1) (tick w)
                (results ++
                 [{| raw_keyword := Some (VStr (Fetchers.clean_keyword s));
                     raw_rank := Some (VInt start);
                     raw_score := Some VNone;
                     raw_metadata := Some
                       [("platform", VStr "google_trends");
                        ("region", VStr (value region));
                        ("type", VStr "trending");
                        ("timestamp",
                         VStr (isoformat (clock E (ticks w) + utc_offset E)))]
                  |}]))
      as (new & Hrun & Hall & Hsorted & Hrange & Hlen).
    eexists (_ :: new). split.
    + rewrite Hrun. rewrite <- app_assoc. cbn [app length].
      unfold after_readings. cbn [tick store ticks log].
      now rewrite Nat.add_succ_r.
    + split; [|split; [|split]].
      * constructor; [|exact Hall]. eexists _, _, _. reflexivity.
      * cbn [fmap list_fmap]. constructor; [exact Hsorted|].
        apply Forall_fmap. eapply Forall_impl; [exact Hrange|].
        intros r Hr. unfold compose. cbn beta in *.
        cbn [rank_value raw_rank] in *. lia.
      * constructor.
        -- cbn [rank_value raw_rank length]. lia.
        -- eapply Forall_impl; [exact Hrange|]. intros r Hr. cbn beta in *. cbn [length]. lia.
      * cbn [length]. lia.
Qed.

Lemma fetch_results_body limit trending :
  Fetchers.fetch_results E isoformat region limit trending
  = for_each (Fetchers.enumerate 1 (Fetchers.slice_to limit trending))
      (fetch_body E isoformat region).
Proof. reflexivity. Qed.

End fetch_loop.


Lemma after_no_reading w : after_readings 0 w = w.
Proof. unfold after_readings. rewrite Nat.add_0_r. now destruct w. Qed.

(** What [fetch] returns and what it does: it reads the clock once for
    each record. *)
Lemma fetch_run E isoformat region limit response w :
  exists records,
    Fetchers.fetch E isoformat region limit response w
    = (Ok records, after_readings (length records) w)
    /\ match response with
       | Ok (Some trending) =>
           ranked_from region 1
             (length (Fetchers.slice_to limit trending)) records
       | _ => records = []
       end.
Proof.
  unfold Fetchers.fetch. destruct response as [[trending|]|e].
  - rewrite fetch_results_body.
    destruct (fetch_results_from E isoformat region
                (Fetchers.slice_to limit trending) 1 w [])
      as (new & Hrun & Hnew).
    rewrite Hrun. cbn [app]. now exists new.
  - exists []. now rewrite after_no_reading.
  - exists []. now rewrite after_no_reading.
Qed.



(** *** From the fetcher to the keyword store *)

Lemma trending_record_has_keys region r :
  trending_record region r -> has_keys r /\ well_formed r = true.
Proof.
  intros (keyword & rank & timestamp & ->). split; [|reflexivity].
  split; discriminate.
Qed.

Lemma trending_record_valid region records :
  Forall (trending_record region) records ->
  Fetchers.validate_result (VList (Fetchers.record_dict <$> records)) = true.
Proof.
  intros H. unfold Fetchers.validate_result. apply forallb_forall.
  intros item Hin. apply in_map_iff in Hin as (r & <- & Hr).
  rewrite Forall_forall in H. apply list_elem_of_In in Hr.
  destruct (H r Hr) as (keyword & rank & timestamp & ->). reflexivity.
Qed.

Lemma filter_all {A} (P : A -> Prop) `{forall x, Decision (P x)} (l : list A) :
  Forall P l -> filter P l = l.
Proof.
  induction 1 as [|x l Hx Hl IH]; [reflexivity|].
  now rewrite filter_cons_True, IH.
Qed.

(** X22. From the fetcher to the keyword store.  Whatever
    [GoogleTrendsFetcher.fetch] returns passes [validate_result], and
    each of its records carries the keys and is well formed for the
    normalizer of the keyword stage.  So the batch loop of that stage,
    with a store that can be reached, inserts every one of them: it adds
    as many identifiers as there are records. *)
Theorem fetched_records_are_all_inserted (E : env) (isoformat : Z -> string)
    (region : Region) (limit : Z) (response : result (option (list pyval)))
    (w_fetch : world) (records : list raw_record) :
  fst (Fetchers.fetch E isoformat region limit response w_fetch) = Ok records ->
  Fetchers.validate_result (VList (Fetchers.record_dict <$> records)) = true
  /\ Forall has_keys records
  /\ Forall (fun r => well_formed r = true) records
  /\ forall E' platform region' w ids,
       reliable_store E' ->
       exists w1 new_ids,
         for_each records (Workflow.process_keyword E' platform region')
           (w, ids)
         = (Ok tt, (w1, ids ++ new_ids))
         /\ length new_ids = length records.
Proof.
  intros Hfetch.
  destruct (fetch_run E isoformat region limit response w_fetch)
    as (records' & Hrun & Hshape).
  rewrite Hrun in Hfetch. cbn [fst] in Hfetch.
  assert (records' = records) by congruence. subst records'.
  assert (Hall : Forall (trending_record region) records).
  { destruct response as [[trending|]|e]; [apply Hshape| |];
      subst records; constructor. }
  assert (Hkeys : Forall has_keys records).
  { eapply Forall_impl; [exact Hall|]. intros r Hr.
    apply (trending_record_has_keys region r Hr). }
  assert (Hwf : Forall (fun r => well_formed r = true) records).
  { eapply Forall_impl; [exact Hall|]. intros r Hr.
    apply (trending_record_has_keys region r Hr). }
  split; [now apply (trending_record_valid region)|].
  split; [exact Hkeys|]. split; [exact Hwf|].
  intros E' platform region' w ids HE.
  destruct (batch_loop E' platform region' records w w ids HE Hkeys
              (same_data_refl w))
    as (w1 & _ & new_ids & Hloop & _ & _ & Hlen).
  exists w1, new_ids. split; [exact Hloop|].
  now rewrite Hlen, filter_all.
Qed.

Lemma fetched_records_are_all_inserted_witness :
  exists w1 new_ids,
    for_each
      [{| raw_keyword := Some (VStr "rust");
          raw_rank := Some (VInt 2);
          raw_score := Some VNone;
          raw_metadata := Some
            [("platform", VStr "google_trends"); ("region", VStr "US");
             ("type", VStr "trending"); ("timestamp", VStr "")] |}]
      (Workflow.process_keyword (idle_env ticking_clock) "google_trends"
         (VStr "US")) (empty_world, [])
    = (Ok tt, (w1, new_ids))
    /\ length new_ids = 1%nat.
Proof.
  destruct (proj2 (proj2 (proj2
              (fetched_records_are_all_inserted (idle_env ticking_clock)
                 (fun _ => "") USA 10
                 (Ok (Some [VStr "   "; VStr " rust "; VInt 7])) empty_world
                 _ eq_refl)))
              (idle_env ticking_clock) "google_trends" (VStr "US")
              empty_world [] (reliable_idle ticking_clock))
    as (w1 & new_ids & Hloop & Hlen).
  exists w1, new_ids. split; [exact Hloop|exact Hlen].
Defined.

(** ** Trends with a time range *)

Lemma with_times_run E isoformat region start_time end_time base :
  Forall (trending_record region) base ->
  forall w, exists records,
    Fetchers.with_times E isoformat start_time end_time base w
    = (Ok records,
       after_readings (match end_time with
                       | Some _ => 0
                       | None => length base
                       end) w)
    /\ Forall2 (marked_historical isoformat region start_time end_time)
         base records.
Proof.
  induction 1 as [|b base Hb Hbase IH]; intros w.
  - exists []. split; [|constructor]. cbn [Fetchers.with_times ret length].
    destruct end_time; now rewrite after_no_reading.
  - destruct Hb as (keyword & rank & timestamp & ->).
    cbn [Fetchers.with_times]. unfold Fetchers.with_time.
    cbn [raw_metadata raw_keyword raw_rank raw_score].
    destruct end_time as [t|].
    + destruct (IH w) as (records & Hrun & Hall).
      unfold bind, ret. rewrite Hrun.
      eexists (_ :: records). split; [reflexivity|].
      constructor; [|exact Hall].
      repeat split; try reflexivity. eexists _, _.
      repeat split; reflexivity.
    + destruct (IH (tick w)) as (records & Hrun & Hall).
      unfold bind, ret, DB.now. rewrite Hrun.
      eexists (_ :: records). split.
      * cbn [length]. unfold after_readings. cbn [tick store ticks log].
        now rewrite Nat.add_succ_r.
      * constructor; [|exact Hall].
        repeat split; try reflexivity. eexists _, _.
        repeat split; try reflexivity. cbn. eauto.
Qed.

(** X23. [fetch_with_time] returns the current trends, marked.  It
    returns what [fetch] returns, record by record in the same order,
    with keyword, rank and score unchanged; in the metadata the type is
    [historical] in place of [trending], the start of the range and its
    end are added, and platform, region and timestamp are kept.  When an
    end is given the clock is read as often as by [fetch]; when none is
    given it is read once more for each record, for the end of the
    range. *)
Theorem fetch_with_time_marks_the_current_trends (E : env)
    (isoformat : Z -> string) (region : Region) (start_time : Z)
    (end_time : option Z) (limit : Z)
    (response : result (option (list pyval))) (w : world) :
  exists base records,
    Fetchers.fetch E isoformat region limit response w
    = (Ok base, after_readings (length base) w)
    /\ Fetchers.fetch_with_time E isoformat region start_time end_time limit
         response w
       = (Ok records,
          after_readings (match end_time with
                          | Some _ => 0
                          | None => length base
                          end) (after_readings (length base) w))
    /\ Forall2 (marked_historical isoformat region start_time end_time)
         base records.
Proof.
  destruct (fetch_run E isoformat region limit response w)
    as (base & Hrun & Hshape).
  assert (Hall : Forall (trending_record region) base).
  { destruct response as [[trending|]|e]; [apply Hshape| |];
      subst base; constructor. }
  destruct (with_times_run E isoformat region start_time end_time base Hall
              (after_readings (length base) w)) as (records & Hmark & Hrel).
  exists base, records. split; [exact Hrun|]. split; [|exact Hrel].
  unfold Fetchers.fetch_with_time, bind. now rewrite Hrun.
Qed.

(** ** The results of the YouTube search *)

(** Take the next step of a chain of [let?] that returned. *)
Ltac rbind_step H :=
  match type of H with
  | rbind ?m _ = Ok _ =>
      let x := fresh "x" in
      let Hx := fresh "Hx" in
      destruct m as [x|] eqn:Hx; cbn [rbind] in H; [|discriminate H]
  end.

Lemma video_data_search_result E item data :
  YtSearch.video_data E item = Ok data -> search_result E data.
Proof.
  unfold YtSearch.video_data. intros H.
  do 2 rbind_step H.
  destruct (YtSearch.pick_thumbnail x0 YtSearch.qualities "")
    as [[thumbnail_url quality]|] eqn:Hpick; cbn [rbind] in H;
    [|discriminate H].
  do 16 rbind_step H. cbv zeta in H.
  destruct (truthy thumbnail_url) eqn:Htruthy.
  - rbind_step H.
    match goal with
    | Hthumb : rbind (py_get _ quality _) _ = Ok _ |- _ =>
        do 3 rbind_step Hthumb; injection Hthumb as <-
    end.
    injection H as <-.
    eexists _, _, _, _, _, _, _, _.
    do 9 (split; [reflexivity|]). cbn [snd].
    split; [congruence|discriminate].
  - cbn [rbind] in H. injection H as <-.
    eexists _, _, _, _, _, _, _, _.
    do 9 (split; [reflexivity|]). cbn [snd].
    split; [reflexivity|intros _; exact Htruthy].
Qed.

Lemma video_data_skipped_is_dict E item e :
  YtSearch.video_data E item = Raise e -> e = KeyError \/ e = ValueError ->
  exists id, py_get item "id" VNone = Ok id.
Proof.
  intros H He. destruct item; try (eexists; reflexivity);
    cbn in H; injection H as <-; destruct He; discriminate.
Qed.

Lemma format_items_results E items : forall results,
  YtSearch.format_items E items = Ok results ->
  Forall (search_result E) results /\ (length results <= length items)%nat.
Proof.
  induction items as [|item rest IH]; intros results H.
  - injection H as <-. split; [constructor|reflexivity].
  - cbn [YtSearch.format_items] in H.
    destruct (YtSearch.video_data E item) as [data|e] eqn:Hd.
    + rbind_step H. injection H as <-. destruct (IH _ eq_refl) as [Hall Hlen].
      split; [|cbn [length]; lia].
      constructor; [|exact Hall]. exact (video_data_search_result E item data Hd).
    + assert (Hskip : forall r, YtSearch.format_items E rest = Ok r ->
                Forall (search_result E) r
                /\ (length r <= length (item :: rest))%nat).
      { intros r Hr. destruct (IH r Hr) as [Hall Hlen].
        split; [exact Hall|]. cbn [length]. lia. }
      destruct e; try discriminate H; rbind_step H; now apply Hskip.
Qed.

(** X24. What [YouTubeSearcher.search] returns.  Every dict it returns has
    the keys that the search stage reads, with integers as its three
    counters, a URL built from its identifier, and thumbnail details
    exactly when its thumbnail URL is truthy.  When the answer to the
    first request has no items, the result is empty and the second
    request is not made.  An item on which building the dict raises
    [KeyError] or [ValueError] is skipped, so that there are at most as
    many results as items. *)
Theorem search_results_have_what_the_workflow_reads (E : env)
    (search_response : result pyval) (videos_list : string -> result pyval) :
  (forall results,
     YtSearch.search E search_response videos_list = Ok results ->
     Forall (search_result E) results)
  /\ (forall response items,
        search_response = Ok response ->
        py_get response "items" VNone = Ok items -> truthy items = false ->
        YtSearch.search E search_response videos_list = Ok [])
  /\ (forall items results,
        YtSearch.format_items E items = Ok results ->
        (length results <= length items)%nat)
  /\ (forall item rest e,
        YtSearch.video_data E item = Raise e ->
        e = KeyError \/ e = ValueError ->
        YtSearch.format_items E (item :: rest)
        = YtSearch.format_items E rest).
Proof.
  split; [|split; [|split]].
  - intros results H. unfold YtSearch.search in H.
    rbind_step H. rbind_step H.
    destruct (negb (truthy x0)).
    + injection H as <-. constructor.
    + do 7 rbind_step H. exact (proj1 (format_items_results E _ _ H)).
  - intros response items -> Hitems Hempty. unfold YtSearch.search.
    cbn [rbind]. rewrite Hitems. cbn [rbind]. now rewrite Hempty.
  - intros items results H. exact (proj2 (format_items_results E _ _ H)).
  - intros item rest e Hd He. cbn [YtSearch.format_items]. rewrite Hd.
    destruct (video_data_skipped_is_dict E item e Hd He) as [id Hid].
    destruct He as [-> | ->]; now rewrite Hid.
Qed.

Lemma search_results_have_what_the_workflow_reads_witness :
  let item :=
    VDict [("id", VStr "abc");
           ("snippet", VDict [("title", VStr "T"); ("description", VStr "");
                              ("channelId", VStr "c");
                              ("channelTitle", VStr "C");
                              ("publishedAt", VStr "2024-01-01T00:00:00Z")]);
           ("statistics", VDict [("viewCount", VStr "12")]);
           ("contentDetails", VDict [("duration", VStr "PT1M")])] in
  let broken := VDict [("id", VStr "xyz"); ("snippet", VDict [])] in
  exists video,
    YtSearch.search (idle_env ticking_clock)
      (Ok (VDict [("items", VList [VDict [("id", VDict [("videoId", VStr "abc")])]])]))
      (fun ids => Ok (VDict [("items", VList [broken; item])]))
    = Ok [video]
    /\ subscript video "view_count" = Ok (VInt 12)
    /\ subscript video "thumbnail_url" = Ok VNone
    /\ YtSearch.search (idle_env ticking_clock) (Ok (VDict []))
         (fun ids => Raise (OtherError "not called")) = Ok [].
Proof.
  cbv zeta. eexists. split; [vm_compute; reflexivity|].
  split; [reflexivity|]. split; [reflexivity|].
  apply (proj1 (proj2 (search_results_have_what_the_workflow_reads
                         (idle_env ticking_clock) (Ok (VDict []))
                         (fun ids => Raise (OtherError "not called"))))
           (VDict []) VNone); reflexivity.
Defined.

(** ** Search results in the search stage *)






(** ** The transcriber *)

Section transcriber.

Variable path_exists : string -> bool.
Variable generate : string -> string -> result pyval.
Variable postprocess : pyval -> result string.
Variable file_name : string -> string.
Variable message : exn -> string.

Lemma transcribe_outcome audio_path language :
  match Transcription.transcribe path_exists generate postprocess file_name
          audio_path language with
  | Ok transcript =>
      path_exists audio_path = true
      /\ exists text segments lang,
           transcript = [("text", VStr text); ("segments", segments);
                         ("language", lang);
                         ("audio_path", VStr audio_path);
                         ("file_name", VStr (file_name audio_path))]
  | Raise e =>
      if path_exists audio_path then e = OtherError "RuntimeError"
      else e = OtherError "FileNotFoundError"
  end.
Proof.
  unfold Transcription.transcribe.
  destruct (path_exists audio_path); cbn [negb]; [|reflexivity].
  destruct (generate audio_path language) as [result|e]; cbn [rbind];
    [|reflexivity].
  destruct (py_first result) as [first|e]; cbn [rbind]; [|reflexivity].
  destruct (py_subscript first "text") as [text|e]; cbn [rbind];
    [|reflexivity].
  destruct (postprocess text) as [processed|e]; cbn [rbind]; [|reflexivity].
  destruct (py_get first "segments" (VList [])) as [segments|e]; cbn [rbind];
    [|reflexivity].
  destruct (py_get first "lang" (VStr language)) as [lang|e]; cbn [rbind];
    [|reflexivity].
  split; [reflexivity|]. eexists _, _, _. reflexivity.
Qed.

End transcriber.

(** X26. [transcribe] raises [FileNotFoundError] when the file does not
    exist and [RuntimeError] for whatever goes wrong after that test, and
    nothing else.  [transcribe_batch] never raises: it answers every file,
    in order, with a dict that names the file, and that is the transcript,
    with its text and language and no error, when [transcribe] returned
    one, and else a report with the message of the error and no text. *)
Theorem transcribe_batch_answers_every_file
    (path_exists : string -> bool)
    (generate : string -> string -> result pyval)
    (postprocess : pyval -> result string) (file_name : string -> string)
    (message : exn -> string) (audio_files : list string)
    (language : string) :
  let transcribe :=
    Transcription.transcribe path_exists generate postprocess file_name in
  (forall audio_path e,
     transcribe audio_path language = Raise e ->
     (path_exists audio_path = false /\ e = OtherError "FileNotFoundError")
     \/ (path_exists audio_path = true /\ e = OtherError "RuntimeError"))
  /\ length (Transcription.transcribe_batch path_exists generate postprocess
               file_name message audio_files language)
     = length audio_files
  /\ Forall2
       (fun audio_path answer =>
          batch_answer file_name message audio_path
            (transcribe audio_path language) answer)
       audio_files
       (Transcription.transcribe_batch path_exists generate postprocess
          file_name message audio_files language).
Proof.
  cbv zeta.
  assert (Hall : Forall2
       (fun audio_path answer =>
          batch_answer file_name message audio_path
            (Transcription.transcribe path_exists generate postprocess
               file_name audio_path language) answer)
       audio_files
       (Transcription.transcribe_batch path_exists generate postprocess
          file_name message audio_files language)).
  { induction audio_files as [|audio_path rest IH]; [constructor|].
    cbn [Transcription.transcribe_batch]. constructor; [|exact IH].
    pose proof (transcribe_outcome path_exists generate postprocess file_name
                  audio_path language) as H.
    destruct (Transcription.transcribe path_exists generate postprocess
                file_name audio_path language) as [transcript|e].
    - destruct H as (_ & text & segments & lang & ->).
      repeat split; reflexivity.
    - repeat split; reflexivity. }
  split; [|split; [|exact Hall]].
  - intros audio_path e He.
    pose proof (transcribe_outcome path_exists generate postprocess file_name
                  audio_path language) as H.
    rewrite He in H. destruct (path_exists audio_path); [right|left]; now split.
  - symmetry. exact (Forall2_length _ _ _ Hall).
Qed.

Lemma transcribe_batch_answers_every_file_witness :
  let path_exists := fun p => String.eqb p "a.wav" in
  let generate := fun _ _ : string =>
    Ok (VList [VDict [("text", VStr "hello"); ("lang", VStr "en")]]) in
  let postprocess := fun v => Ok (DB.text_of v) in
  Transcription.transcribe path_exists generate postprocess (fun p => p)
    "b.wav" "auto"
  = Raise (OtherError "FileNotFoundError")
  /\ length (Transcription.transcribe_batch path_exists generate postprocess
               (fun p => p) (fun _ => "failed") ["a.wav"; "b.wav"] "auto")
     = 2%nat.
Proof.
  cbv zeta. split.
  - destruct (proj1 (transcribe_batch_answers_every_file
                       (fun p => String.eqb p "a.wav")
                       (fun _ _ => Ok (VList [VDict [("text", VStr "hello");
                                                     ("lang", VStr "en")]]))
                       (fun v => Ok (DB.text_of v)) (fun p => p)
                       (fun _ => "failed") [] "auto")
                "b.wav" (OtherError "FileNotFoundError") eq_refl)
      as [[_ H]|[H _]]; [reflexivity|discriminate H].
  - reflexivity.
Defined.
